(** * Jupyter-bridge: the per-channel rendezvous relay

    A shallow embedding of [server/jupyter_bridge.py].  The Flask handlers
    and the helpers [_enqueue], [_dequeue], [_set_key_value], [_del_message],
    [_update_stats], [_expire] and [_del_key], with the statements the module
    runs at its start, are written as programs of a small
    state-and-exception monad over a model of the Redis store they talk to.

    Conventions of the model.
    - Redis keys, hash fields and hash values are byte strings ([string]).
      Text that the program encodes or decodes as UTF-8 is identified with
      its bytes, and decoding fails on bytes that are no UTF-8.
    - Every key of the store holds a hash, the one type of value this
      program writes; the [WRONGTYPE] error of a command sent to a key of
      another type is not modelled.
    - Seconds are exact rationals ([Q]); the rounding of Python floats is
      not modelled.  This matters in one place, the countdown of the
      polling loop of [_dequeue]: see [_dequeue_poll].
    - Redis commands are atomic and never fail for lack of a connection.
      Between two commands of a handler other clients may act: the world
      carries a script of such actions, one of which runs before each
      command.  An empty script is a handler running alone.
    - Logging is left out. *)

From stdpp Require Import gmap strings list fin_maps sorting.
From Stdlib Require Import Ascii String ZArith QArith Qround Lqa Lia.
From Stdlib Require Import DecimalString DecimalZ DecimalPos DecimalFacts.

Local Open Scope string_scope.
Local Open Scope Z_scope.

(** ** Byte strings and integers *)

(** [str(n)] for a Python [int], which is also how redis-py encodes an
    [int] hash value. *)
Definition str_of_int (n : Z) : string := NilZero.string_of_int (Z.to_int n).

(** [int(b.decode('utf-8'))] on an optional sign followed by decimal digits.
    Python also accepts surrounding white space, a leading plus sign,
    underscores between digits and non-ASCII digits; no writer of this
    program produces such text. *)
Definition int_of_bytes (s : string) : option Z :=
  Z.of_int <$> NilZero.int_of_string s.

(** Python truthiness of the result of [hget]: [None] and [b''] are falsy. *)
Definition truthy (o : option string) : bool :=
  match o with
  | Some s => negb (String.eqb s "")
  | None => false
  end.

(** [a or b] on optional byte strings, [b] being a byte string. *)
Definition py_or (o : option string) (d : string) : string :=
  match o with
  | Some s => if String.eqb s "" then d else s
  | None => d
  end.

(** [' ' * n] *)
Fixpoint spaces (n : nat) : string :=
  match n with
  | O => ""
  | S n' => String " "%char (spaces n')
  end.

(** [sep.join(l)] *)
Fixpoint join (sep : string) (l : list string) : string :=
  match l with
  | [] => ""
  | [x] => x
  | x :: l' => x ++ sep ++ join sep l'
  end.

(** [s[n:]] *)
Fixpoint drop_chars (n : nat) (s : string) : string :=
  match n, s with
  | O, _ => s
  | S n', String _ s' => drop_chars n' s'
  | S _, EmptyString => EmptyString
  end.

(** [b.decode('utf-8')] accepts the well-formed byte sequences of the
    Unicode standard only: no overlong form, no surrogate, no code point
    above U+10FFFF, no sequence cut short. *)
Definition byte_in (lo hi : N) (c : ascii) : bool :=
  (lo <=? N_of_ascii c)%N && (N_of_ascii c <=? hi)%N.

(** The second byte of a sequence of three or four bytes, whose range
    depends on the first. *)
Definition second_byte (c c1 : ascii) : bool :=
  match N_of_ascii c with
  | 224%N => byte_in 160 191 c1
  | 237%N => byte_in 128 159 c1
  | 240%N => byte_in 144 191 c1
  | 244%N => byte_in 128 143 c1
  | _ => byte_in 128 191 c1
  end.

Fixpoint utf8_valid (s : string) : bool :=
  match s with
  | EmptyString => true
  | String c s1 =>
      if byte_in 0 127 c then utf8_valid s1
      else
        match s1 with
        | EmptyString => false
        | String c1 s2 =>
            if byte_in 194 223 c then byte_in 128 191 c1 && utf8_valid s2
            else
              match s2 with
              | EmptyString => false
              | String c2 s3 =>
                  if byte_in 224 239 c then
                    second_byte c c1 && byte_in 128 191 c2 && utf8_valid s3
                  else
                    match s3 with
                    | EmptyString => false
                    | String c3 s4 =>
                        byte_in 240 244 c && second_byte c c1
                        && byte_in 128 191 c2 && byte_in 128 191 c3
                        && utf8_valid s4
                    end
              end
        end
  end.

(** The bytes that follow the first byte of a character. *)
Fixpoint skip_continuation (s : string) : string :=
  match s with
  | EmptyString => EmptyString
  | String c s' => if byte_in 128 191 c then skip_continuation s' else s
  end.

(** [s[n:]] on text, which drops characters: a text is held as its UTF-8
    bytes, and a character is a first byte with the continuation bytes
    that follow it. *)
Fixpoint text_drop (n : nat) (s : string) : string :=
  match n, s with
  | O, _ => s
  | S n', String _ s' => text_drop n' (skip_continuation s')
  | S _, EmptyString => EmptyString
  end.

(** ** Constants of the module *)

Definition JUPYTER_BRIDGE_VERSION : string := "0.0.3".

Definition PAD_MESSAGE : bool := true.
Definition EXPIRE_SECS : Q := inject_Z (60 * 60 * 24).

Definition DEQUEUE_BUSY_STATUS : string := "busy".
Definition DEQUEUE_IDLE_STATUS : string := "idle".

Definition HTTP_OK : Z := 200.
Definition HTTP_SYS_ERR : Z := 500.
Definition HTTP_TIMEOUT : Z := 408.
Definition HTTP_TOO_MANY : Z := 429.

Definition MESSAGE : string := "message".
Definition POSTED_TIME : string := "posted_time".
Definition PICKUP_TIME : string := "pickup_time".
Definition DEQUEUE_BUSY : string := "dequeue_busy".
Definition REPLY_FAST_POLLS_LEFT : string := "reply_fast_polls_left".

Definition REPLY : string := "reply".
Definition REQUEST : string := "request".
Definition STATISTIC : string := "stat".
Definition COUNT : string := "count".

(** The four settings read from the process environment at import time. *)
Record Config := {
  DEQUEUE_TIMEOUT_SECS : Q;
  FAST_DEQUEUE_POLLING_SECS : Q;
  SLOW_DEQUEUE_POLLING_SECS : Q;
  ALLOWED_FAST_DEQUEUE_POLLS : Z
}.

(** The values used when the environment sets none of them. *)
Definition default_config : Config := {|
  DEQUEUE_TIMEOUT_SECS := 15;
  FAST_DEQUEUE_POLLING_SECS := 1 # 10;
  SLOW_DEQUEUE_POLLING_SECS := 2;
  ALLOWED_FAST_DEQUEUE_POLLS := 10
|}.

(** ** The Redis store *)

(** A key holds a hash and, once [EXPIRE] was called on it, the time at
    which it dies. *)
Record Entry := { hash : gmap string string; deadline : option Q }.

Abbreviation Redis := (gmap string Entry).

Module redis.

Definition hget (db : Redis) (key field : string) : option string :=
match db !! key with
| Some e => hash e !! field
| None => None
end.

Definition hgetall (db : Redis) (key : string) : gmap string string :=
match db !! key with
| Some e => hash e
| None => ∅
end.

Definition hmget (db : Redis) (key : string) (fields : list string)
: list (option string) :=
map (hget db key) fields.

(** Fields are written in the order of the mapping; a key made by the
command has no time to live. *)
Definition hmset (db : Redis) (key : string) (mapping : list (string * string))
: bool * Redis :=
let h := foldl (fun h kv => <[kv.1 := kv.2]> h) (hgetall db key) mapping in
let ttl := match db !! key with Some e => deadline e | None => None end in
(true, <[key := {| hash := h; deadline := ttl |}]> db).

(** The number of fields removed; a hash left without fields is removed
with its key. *)
Definition hdel (db : Redis) (key field : string) : Z * Redis :=
match db !! key with
| Some e =>
match hash e !! field with
| Some _ =>
    let h := delete field (hash e) in
    if decide (h = ∅) then (1, delete key db)
    else (1, <[key := {| hash := h; deadline := deadline e |}]> db)
| None => (0, db)
end
| None => (0, db)
end.

(** [EXPIRE key secs] at time [now], for a positive [secs]. *)
Definition expire (db : Redis) (now : Q) (key : string) (secs : Q)
: bool * Redis :=
match db !! key with
| Some e =>
(true, <[key := {| hash := hash e; deadline := Some (now + secs)%Q |}]> db)
| None => (false, db)
end.

(** Redis reads a hash value as a signed 64-bit integer in its canonical
decimal form only. *)
Definition string2ll (s : string) : option Z :=
match int_of_bytes s with
| Some z =>
if String.eqb (str_of_int z) s
   && (- 2 ^ 63 <=? z) && (z <=? 2 ^ 63 - 1)
then Some z else None
| None => None
end.

(** [HINCRBY]: [None] is Redis answering with an error, the store
unchanged. *)
Definition hincrby (db : Redis) (key field : string) (n : Z)
: option Z * Redis :=
let old :=
match hget db key field with
| Some s => string2ll s
| None => Some 0
end in
match old with
| Some z =>
let z' := z + n in
if (- 2 ^ 63 <=? z') && (z' <=? 2 ^ 63 - 1)
then (Some z', (hmset db key [(field, str_of_int z')]).2)
else (None, db)
| None => (None, db)
end.

(** Glob patterns made of literal bytes and [*]. *)
Fixpoint glob (pattern s : string) : bool :=
match pattern with
| EmptyString => match s with EmptyString => true | _ => false end
| String c pattern' =>
if Ascii.eqb c "*"%char then
  (fix star (s : string) : bool :=
     glob pattern' s ||
     match s with
     | EmptyString => false
     | String _ s' => star s'
     end) s
else
  match s with
  | String d s' => Ascii.eqb c d && glob pattern' s'
  | EmptyString => false
  end
end.

(** [KEYS pattern]; Redis promises no order. *)
Definition keys (db : Redis) (pattern : string) : list string :=
filter (fun k => glob pattern k = true) (map fst (map_to_list db)).

End redis.

(** ** The host clock *)

(** The civil date of a day counted from 1970-01-01, in the proleptic
    Gregorian calendar. *)
Definition civil_from_days (days : Z) : Z * Z * Z :=
  let z := days + 719468 in
  let era := z / 146097 in
  let doe := z - era * 146097 in
  let yoe := (doe - doe / 1460 + doe / 36524 - doe / 146096) / 365 in
  let doy := doe - (365 * yoe + yoe / 4 - yoe / 100) in
  let mp := (5 * doy + 2) / 153 in
  let d := doy - (153 * mp + 2) / 5 + 1 in
  let m := if mp <? 10 then mp + 3 else mp - 9 in
  (yoe + era * 400 + (if m <=? 2 then 1 else 0), m, d).

Definition digit (n : Z) : ascii := ascii_of_nat (48 + Z.to_nat (n mod 10)).

(** Two decimal digits, zero padded. *)
Definition pad2 (n : Z) : string :=
  String (digit (n / 10)) (String (digit n) "").

(** Two characters, space padded. *)
Definition spad2 (n : Z) : string :=
  String (if n <? 10 then " "%char else digit (n / 10)) (String (digit n) "").

Definition day_name (n : Z) : string :=
  nth (Z.to_nat n) ["Sun"; "Mon"; "Tue"; "Wed"; "Thu"; "Fri"; "Sat"] "".

Definition month_name (m : Z) : string :=
  nth (Z.to_nat (m - 1))
      ["Jan"; "Feb"; "Mar"; "Apr"; "May"; "Jun";
       "Jul"; "Aug"; "Sep"; "Oct"; "Nov"; "Dec"] "".

(** [time.strftime('%Y-%m-%d')] at [now] seconds after the epoch, the host
    keeping UTC. *)
Definition strftime_Ymd (now : Q) : string :=
  let '(y, m, d) := civil_from_days (Qfloor now / 86400) in
  str_of_int y ++ "-" ++ pad2 m ++ "-" ++ pad2 d.

(** [time.asctime()] at [now] seconds after the epoch, the host keeping UTC. *)
Definition asctime (now : Q) : string :=
  let secs := Qfloor now in
  let days := secs / 86400 in
  let sod := secs mod 86400 in
  let '(y, m, d) := civil_from_days days in
  day_name ((days + 4) mod 7) ++ " " ++ month_name m ++ " " ++ spad2 d ++ " "
  ++ pad2 (sod / 3600) ++ ":" ++ pad2 (sod / 60 mod 60) ++ ":" ++ pad2 (sod mod 60)
  ++ " " ++ str_of_int y.

(** ** Programs *)

Inductive exn :=
| Exception (msg : string)
| ValueError (msg : string)
| AttributeError (msg : string)
| ResponseError (msg : string).

(** [str(e)] *)
Definition str_of_exn (e : exn) : string :=
  match e with
  | Exception msg | ValueError msg | AttributeError msg | ResponseError msg => msg
  end.

(** What the process shares between handlers, and what lies outside it:
    the store, the host clock (seconds after the epoch), the actions other
    clients of the store take between the commands to come, and the
    module's transaction counter. *)
Record World := {
  redis_db : Redis;
  clock : Q;
  others : list (Redis -> Redis);
  transaction_id : Z
}.

(** A run ends by returning, by raising, or not within the steps granted
    to its polling loop. *)
Inductive outcome (A : Type) :=
| Returns (a : A)
| Raises (e : exn)
| Hangs.
Arguments Returns {A} a.
Arguments Raises {A} e.
Arguments Hangs {A}.

Definition M (A : Type) : Type := World -> outcome A * World.

#[global] Instance M_ret : MRet M := fun A a w => (Returns a, w).

#[global] Instance M_bind : MBind M := fun A B f m w =>
  match m w with
  | (Returns a, w') => f a w'
  | (Raises e, w') => (Raises e, w')
  | (Hangs, w') => (Hangs, w')
  end.

Definition raise {A} (e : exn) : M A := fun w => (Raises e, w).

Definition hang {A} : M A := fun w => (Hangs, w).

(** [try: body / except Exception as e: handler e] *)
Definition try_except {A} (body : M A) (handler : exn -> M A) : M A := fun w =>
  match body w with
  | (Raises e, w') => handler e w'
  | r => r
  end.

(** [try: body / finally: final], where [final] may look at how the body
    ended to find the values its local variables then had.  An exception
    of [final] replaces the outcome of the body. *)
Definition try_finally {A} (body : M A) (final : outcome A -> M unit) : M A :=
  fun w =>
  match body w with
  | (Hangs, w') => (Hangs, w')
  | (r, w') =>
      match final r w' with
      | (Returns _, w'') => (r, w'')
      | (Raises e, w'') => (Raises e, w'')
      | (Hangs, w'') => (Hangs, w'')
      end
  end.

(** One Redis command: the next action of the other clients, if any is
    left, takes place first. *)
Definition command {A} (f : Redis -> Q -> A * Redis) : M A := fun w =>
  let db :=
    match others w with
    | [] => redis_db w
    | g :: _ => g (redis_db w)
    end in
  let '(a, db') := f db (clock w) in
  (Returns a,
   {| redis_db := db'; clock := clock w; others := tail (others w);
      transaction_id := transaction_id w |}).

(** A command that only reads. *)
Definition query {A} (f : Redis -> A) : M A :=
  command (fun db _ => (f db, db)).

Definition time_now : M Q := fun w => (Returns (clock w), w).

(** [time.sleep(secs)] *)
Definition time_sleep (secs : Q) : M unit := fun w =>
  if Qlt_le_dec secs 0
  then (Raises (ValueError "sleep length must be non-negative"), w)
  else (Returns tt,
        {| redis_db := redis_db w; clock := (clock w + secs)%Q;
           others := others w; transaction_id := transaction_id w |}).

(** [b.decode('utf-8')].  A [UnicodeDecodeError] is a [ValueError]; the
    byte, the position and the reason it names are left out of the
    message. *)
Definition decode_error : exn :=
  ValueError "'utf-8' codec can't decode byte".

Definition decode_utf8 (b : string) : M string :=
  if utf8_valid b then mret b else raise decode_error.

(** ** The helpers of the module *)

(** The key of the slot of [channel] in direction [operation]:
    [f'{channel}:{operation}']. *)
Definition slot_key (channel operation : string) : string :=
  channel ++ ":" ++ operation.

(** The text of the mapping is left out of the message. *)
Definition _set_key_value (key : string) (value : list (string * string))
  : M unit :=
  ok ← command (fun db _ => redis.hmset db key value);
  if negb ok then raise (Exception ("redis failed setting " ++ key))
  else mret tt.

Definition _del_message (key : string) (permissive : bool) : M unit :=
  n ← command (fun db _ => redis.hdel db key MESSAGE);
  if negb (n =? 1) && negb permissive
  then raise (Exception ("redis failed deleting " ++ key ++ " subkey b'message'"))
  else mret tt.

(** [redis_db.hincrby(key, field, n)].  Redis answers with one of two
    errors, that the hash value is not an integer or that the increment
    would overflow; the exception carries one text for both here. *)
Definition redis_hincrby (key field : string) (n : Z) : M Z :=
  r ← command (fun db _ => redis.hincrby db key field n);
  match r with
  | Some z => mret z
  | None => raise (ResponseError "hash value is not an integer or would overflow")
  end.

Definition _update_stats (operation msg : string) : M unit :=
  now ← time_now;
  let stat_key := STATISTIC ++ ":" ++ strftime_Ymd now in
  _ ← redis_hincrby stat_key (COUNT ++ ":" ++ operation) 1;
  _ ← redis_hincrby stat_key operation (Z.of_nat (String.length msg));
  mret tt.

Definition _expire (key : string) : M unit :=
  ok ← command (fun db now => redis.expire db now key EXPIRE_SECS);
  if negb ok then raise (Exception ("redis failed expiring " ++ key))
  else mret tt.

Definition _add_padding (message : string) : string :=
  if PAD_MESSAGE then message ++ spaces 1500 else message.

(** None of the exceptions of this module carries a [response], so the
    attribute error of the first line leads to [str(e)]. *)
Definition _exception_message (e : exn) : string := str_of_exn e.

Definition _get_transaction_id : M Z := fun w =>
  (Returns (transaction_id w),
   {| redis_db := redis_db w; clock := clock w; others := others w;
      transaction_id := transaction_id w + 1 |}).

(** ** The rendezvous engine *)

Definition _enqueue (local_transaction : Z) (operation channel msg : string)
  : M unit :=
  let key := slot_key channel operation in
  cur_value ← query (fun db => redis.hgetall db key);
  if (size cur_value =? 0)%nat || negb (bool_decide (is_Some (cur_value !! MESSAGE)))
  then
    now ← time_now;
    _ ← _set_key_value key
          [(MESSAGE, msg); (PICKUP_TIME, ""); (POSTED_TIME, asctime now)];
    _ ← _expire key;
    _update_stats operation msg
  else
    raise (Exception ("Channel " ++ key ++ " contains unprocessed message")).

(** The choice of the polling interval: the pair of the counter as the
    call leaves it and the seconds to sleep between two reads. *)
Definition _dequeue_cadence (cfg : Config) (key : string) : M (Z * Q) :=
  fast_polls_left ← query (fun db => redis.hget db key REPLY_FAST_POLLS_LEFT);
  fast_polls_left ←
    match fast_polls_left with
    | None => mret (ALLOWED_FAST_DEQUEUE_POLLS cfg)
    | Some b =>
        match int_of_bytes b with
        | Some n => mret n
        | None =>
            raise (ValueError ("invalid literal for int() with base 10: '" ++ b ++ "'"))
        end
    end;
  if 0 <? fast_polls_left then
    let fast_polls_left := fast_polls_left - 1 in
    _ ← _set_key_value key [(REPLY_FAST_POLLS_LEFT, str_of_int fast_polls_left)];
    mret (fast_polls_left, FAST_DEQUEUE_POLLING_SECS cfg)
  else
    mret (fast_polls_left, SLOW_DEQUEUE_POLLING_SECS cfg).

(** The [while] loop, entered with the message read before it; [fuel]
    bounds the number of its rounds, and a loop that has used them up
    without leaving is a run that [Hangs].  The time left is counted down
    exactly here.  The source counts it down in binary floating point,
    where the number of rounds can differ: with the default settings the
    loop of the source sleeps 151 times and not 150, the 150 subtractions
    of 0.1 from 15 leaving a positive rest; and when the interval is so
    small beside the time left that the subtraction changes nothing, or
    the time limit is infinite, the loop of the source never leaves for
    lack of time.  What is proved of the number of rounds is proved of the
    exact countdown; the properties of the interlock, of the answers, of
    the counter of fast polls and of the time to live are stated for every
    [fuel] and every run that ends, and do not depend on it. *)
Fixpoint _dequeue_poll (fuel : nat) (key : string) (dequeue_polling_secs : Q)
    (message : option string) (dequeue_timeout_secs_left : Q)
  : M (option string) :=
  match message with
  | None =>
      if Qlt_le_dec 0 dequeue_timeout_secs_left then
        match fuel with
        | O => hang
        | S fuel' =>
            _ ← time_sleep dequeue_polling_secs;
            let dequeue_timeout_secs_left :=
              (dequeue_timeout_secs_left - dequeue_polling_secs)%Q in
            message ← query (fun db => redis.hget db key MESSAGE);
            _dequeue_poll fuel' key dequeue_polling_secs message
                          dequeue_timeout_secs_left
        end
      else mret message
  | Some _ => mret message
  end.

(** The body of the [try] statement; its value is the pair of the local
    variables [message] and [valid_reader]. *)
Definition _dequeue_try (cfg : Config) (fuel : nat) (key : string)
    (reset_first : bool) : M (option string * bool) :=
  dequeue_busy ← query (fun db =>
    py_or (redis.hget db key DEQUEUE_BUSY) DEQUEUE_IDLE_STATUS);
  if String.eqb dequeue_busy DEQUEUE_BUSY_STATUS then
    mret (None, false)
  else
    _ ← _set_key_value key [(DEQUEUE_BUSY, DEQUEUE_BUSY_STATUS)];
    _ ← (if reset_first then _del_message key true else mret tt);
    _ ← _set_key_value key [(PICKUP_TIME, "")];
    _ ← _expire key;
    '(_, dequeue_polling_secs) ← _dequeue_cadence cfg key;
    message ← query (fun db => redis.hget db key MESSAGE);
    message ← _dequeue_poll fuel key dequeue_polling_secs message
                            (DEQUEUE_TIMEOUT_SECS cfg);
    if truthy message then
      _ ← _del_message key false;
      now ← time_now;
      _ ← _set_key_value key
            [(PICKUP_TIME, asctime now);
             (REPLY_FAST_POLLS_LEFT, str_of_int (ALLOWED_FAST_DEQUEUE_POLLS cfg))];
      mret (message, true)
    else
      mret (message, true).

(** [valid_reader] as the [finally] clause finds it: the [try] body sets
    it to [False] only on the path that returns at once, and every
    statement that can raise lies on the other path. *)
Definition valid_reader_at_exit (r : outcome (option string * bool)) : bool :=
  match r with
  | Returns (_, valid_reader) => valid_reader
  | _ => true
  end.

Definition _dequeue (cfg : Config) (fuel : nat) (local_transaction : Z)
    (operation channel : string) (reset_first : bool)
  : M (option string * bool) :=
  let key := slot_key channel operation in
  try_finally (_dequeue_try cfg fuel key reset_first)
    (fun r =>
       if valid_reader_at_exit r
       then _set_key_value key [(DEQUEUE_BUSY, DEQUEUE_IDLE_STATUS)]
       else mret tt).

(** ** The HTTP surface *)

(** What a handler reads of the Flask request: the query parameters, the
    content type header if there is one, and the body. *)
Record Request := {
  args : list (string * string);
  content_type : option string;
  get_data : string
}.

(** What a handler answers: the body, the status and the content type.
    The other headers are left out: [Access-Control-Allow-Origin: *] on
    every answer but that of [stats], which carries
    [Content-disposition: attachment; filename=jupyter-bridge.csv]. *)
Record Response := {
  response : string;
  status : Z;
  response_type : string
}.

(** [request.args[name]], [None] when [name not in request.args]. *)
Fixpoint args_get (l : list (string * string)) (name : string) : option string :=
  match l with
  | [] => None
  | (k, v) :: l' => if String.eqb k name then Some v else args_get l' name
  end.

Definition args_has (l : list (string * string)) (name : string) : bool :=
  match args_get l name with
  | Some _ => true
  | None => false
  end.

(** [request.content_type.startswith(prefix)] *)
Definition content_type_startswith (request : Request) (prefix : string)
  : M bool :=
  match content_type request with
  | Some t => mret (String.prefix prefix t)
  | None =>
      raise (AttributeError "'NoneType' object has no attribute 'startswith'")
  end.

Definition sys_err (e : exn) : M Response :=
  mret {| response := _exception_message e; status := HTTP_SYS_ERR;
          response_type := "text/plain" |}.

Definition ping : M Response :=
  mret {| response := "pong " ++ JUPYTER_BRIDGE_VERSION; status := 200;
          response_type := "text/plain" |}.

Definition queue_request (request : Request) : M Response :=
  local_transaction ← _get_transaction_id;
  try_except
    (match args_get (args request) "channel" with
     | Some channel =>
         json ← content_type_startswith request "application/json";
         if (json : bool) then
           let message := get_data request in
           let reply_key := slot_key channel REPLY in
           last_reply ← query (fun db => redis.hget db reply_key MESSAGE);
           _ ← (if truthy last_reply then _del_message reply_key false
                else mret tt);
           _ ← _enqueue local_transaction REQUEST channel message;
           mret {| response := ""; status := HTTP_OK;
                   response_type := "text/plain" |}
         else raise (Exception "Payload must be application/json")
     | None => raise (Exception "Channel is missing in parameter list")
     end)
    sys_err.

Definition queue_reply (request : Request) : M Response :=
  local_transaction ← _get_transaction_id;
  try_except
    (match args_get (args request) "channel" with
     | Some channel =>
         text ← content_type_startswith request "text/plain";
         if (text : bool) then
           let message := get_data request in
           _ ← _enqueue local_transaction REPLY channel message;
           mret {| response := ""; status := HTTP_OK;
                   response_type := "text/plain" |}
         else raise (Exception "Payload must be text/plain")
     | None => raise (Exception "Channel is missing in parameter list")
     end)
    sys_err.

(** The common body of [dequeue_request] and [dequeue_reply], which differ
    in the direction only. *)
Definition dequeue_handler (operation : string) (cfg : Config) (fuel : nat)
    (request : Request) : M Response :=
  local_transaction ← _get_transaction_id;
  try_except
    (match args_get (args request) "channel" with
     | Some channel =>
         '(message, valid_reader) ←
           _dequeue cfg fuel local_transaction operation channel
                    (args_has (args request) "reset");
         if (valid_reader : bool) then
           match message with
           | None =>
               mret {| response := ""; status := HTTP_TIMEOUT;
                       response_type := "text/plain" |}
           | Some message =>
               mret {| response := _add_padding message; status := HTTP_OK;
                       response_type := "application/json" |}
           end
         else
           mret {| response := ""; status := HTTP_TOO_MANY;
                   response_type := "text/plain" |}
     | None => raise (Exception "Channel is missing in parameter list")
     end)
    sys_err.

Definition dequeue_request : Config -> nat -> Request -> M Response :=
  dequeue_handler REQUEST.

Definition dequeue_reply : Config -> nat -> Request -> M Response :=
  dequeue_handler REPLY.

(** The line feed. *)
Definition newline : string := String "010" "".

(** [sorted(items, key=lambda item: item[0])]: a stable insertion sort on
    the first components, compared as byte strings. *)
Fixpoint sorted_insert (x : string * string) (l : list (string * string))
  : list (string * string) :=
  match l with
  | [] => [x]
  | y :: l' =>
      if String.ltb x.1 y.1 then x :: y :: l'
      else y :: sorted_insert x l'
  end.

Fixpoint sorted_by_key (l : list (string * string)) : list (string * string) :=
  match l with
  | [] => []
  | x :: l' => sorted_insert x (sorted_by_key l')
  end.

Definition stats_fields : list string :=
  [COUNT ++ ":" ++ REQUEST; REQUEST; COUNT ++ ":" ++ REPLY; REPLY].

Definition stats_header : string :=
  "date," ++ COUNT ++ "(" ++ REQUEST ++ ")," ++ REQUEST ++ " bytes,"
  ++ COUNT ++ "(" ++ REPLY ++ ")," ++ REPLY ++ " bytes".

(** [['' if count is None else count.decode('utf-8') for count in counts]] *)
Fixpoint decode_counts (counts : list (option string)) : M (list string) :=
  match counts with
  | [] => mret []
  | count :: counts' =>
      text ← match count with
             | None => mret ""
             | Some b => decode_utf8 b
             end;
      texts ← decode_counts counts';
      mret (text :: texts)
  end.

(** The loop over the keys found, filling the dictionary [csv_dict]. *)
Fixpoint stats_loop (keys : list string) (csv_dict : gmap string string)
  : M (gmap string string) :=
  match keys with
  | [] => mret csv_dict
  | day :: keys' =>
      day_text ← decode_utf8 day;
      let day_string := text_drop (String.length STATISTIC + 1) day_text in
      counts ← query (fun db => redis.hmget db day stats_fields);
      counts ← decode_counts counts;
      stats_loop keys'
        (<[day_string := day_string ++ "," ++ join "," counts]> csv_dict)
  end.

(** The handler has no [except] clause: an exception of its body leaves
    the handler.  [sorted] compares the dates as text, which is the order
    of their UTF-8 bytes.  The content type is the one Flask makes of
    [mimetype="text/csv"]. *)
Definition stats : M Response :=
  keys ← query (fun db => redis.keys db (STATISTIC ++ ":*"));
  csv_dict ← stats_loop keys (∅ : gmap string string);
  let sorted_csv := sorted_by_key (map_to_list csv_dict) in
  let csv := join newline (map snd sorted_csv) in
  mret {| response := stats_header ++ newline ++ csv; status := 200;
          response_type := "text/csv; charset=utf-8" |}.


(** ** Worlds *)

(** The world with another store. *)
Definition with_db (w : World) (db : Redis) : World :=
  {| redis_db := db; clock := clock w; others := others w;
     transaction_id := transaction_id w |}.

(** The world once [_get_transaction_id] has run. *)
Definition next_transaction (w : World) : World :=
  {| redis_db := redis_db w; clock := clock w; others := others w;
     transaction_id := transaction_id w + 1 |}.

(** The time at which a key dies, if one is set. *)
Definition ttl_deadline (db : Redis) (key : string) : option Q :=
  match db !! key with
  | Some e => deadline e
  | None => None
  end.

(** ** Keys *)

(** The last byte of a string. *)
Fixpoint last_char (s : string) : option ascii :=
  match s with
  | EmptyString => None
  | String c s' =>
      match last_char s' with
      | None => Some c
      | r => r
      end
  end.

(** The two directions the handlers pass as [operation]. *)
Definition is_direction (operation : string) : Prop :=
  operation = REQUEST \/ operation = REPLY.

(** The key of the statistics record of the day of [now]. *)
Definition stat_key (now : Q) : string :=
  STATISTIC ++ ":" ++ strftime_Ymd now.

(** A counter field of a statistics record, an absent one counting as 0. *)
Definition stat_value (db : Redis) (key field : string) : option Z :=
  match redis.hget db key field with
  | Some s => redis.string2ll s
  | None => Some 0
  end.

(** The mapping [_enqueue] writes. *)
Definition enqueue_mapping (msg : string) (now : Q) : list (string * string) :=
  [(MESSAGE, msg); (PICKUP_TIME, ""); (POSTED_TIME, asctime now)].

(** The store once [_enqueue] has written the slot and refreshed its time
    to live, before the statistics. *)
Definition enqueue_store (db : Redis) (now : Q) (key msg : string) : Redis :=
  (redis.expire (redis.hmset db key (enqueue_mapping msg now)).2
                now key EXPIRE_SECS).2.

(** The store with a counter field of a record set to [z]. *)
Definition counter_store (db : Redis) (key field : string) (z : Z) : Redis :=
  (redis.hmset db key [(field, str_of_int z)]).2.

Definition in_int64 (z : Z) : Prop := - 2 ^ 63 <= z <= 2 ^ 63 - 1.

(** ** Answers *)

Definition ok_empty : Response :=
  {| response := ""; status := HTTP_OK; response_type := "text/plain" |}.

Definition sys_err_response (e : exn) : Response :=
  {| response := _exception_message e; status := HTTP_SYS_ERR;
     response_type := "text/plain" |}.

(** The exception of [_enqueue] on a slot that holds a message. *)
Definition slot_occupied (key : string) : exn :=
  Exception ("Channel " ++ key ++ " contains unprocessed message").

(** A request carries [channel] and a content type that starts with
    [prefix]. *)
Definition well_formed (request : Request) (channel prefix : string) : Prop :=
  args_get (args request) "channel" = Some channel
  /\ exists t, content_type request = Some t /\ String.prefix prefix t = true.

(** ** The stores a dequeue goes through *)

(** The world at another time. *)
Definition at_clock (w : World) (t : Q) : World :=
  {| redis_db := redis_db w; clock := t; others := others w;
     transaction_id := transaction_id w |}.

(** The time after [n] sleeps of [secs] seconds each. *)
Definition slept (n : nat) (secs now : Q) : Q :=
  Nat.iter n (fun t => (t + secs)%Q) now.

(** The counter as the cadence selection reads it: the configured maximum
    when the field is absent, no integer when the field is no number. *)
Definition fast_polls_left_of (cfg : Config) (db : Redis) (key : string)
  : option Z :=
  match redis.hget db key REPLY_FAST_POLLS_LEFT with
  | None => Some (ALLOWED_FAST_DEQUEUE_POLLS cfg)
  | Some b => int_of_bytes b
  end.

(** No reader holds the interlock of the slot. *)
Definition reader_free (db : Redis) (key : string) : Prop :=
  redis.hget db key DEQUEUE_BUSY <> Some DEQUEUE_BUSY_STATUS.

(** The store once a reader took the interlock, swept the message if asked
    to, cleared the pickup time and refreshed the time to live. *)
Definition entry_store (db : Redis) (now : Q) (key : string)
    (reset_first : bool) : Redis :=
  let db1 := (redis.hmset db key [(DEQUEUE_BUSY, DEQUEUE_BUSY_STATUS)]).2 in
  let db2 := if reset_first then (redis.hdel db1 key MESSAGE).2 else db1 in
  let db3 := (redis.hmset db2 key [(PICKUP_TIME, "")]).2 in
  (redis.expire db3 now key EXPIRE_SECS).2.

(** The store and the interval the cadence selection leaves, the counter
    read being [n]. *)
Definition cadence_store (db : Redis) (key : string) (n : Z) : Redis :=
  if 0 <? n
  then (redis.hmset db key [(REPLY_FAST_POLLS_LEFT, str_of_int (n - 1))]).2
  else db.

Definition cadence_secs (cfg : Config) (n : Z) : Q :=
  if 0 <? n then FAST_DEQUEUE_POLLING_SECS cfg
  else SLOW_DEQUEUE_POLLING_SECS cfg.

(** The store once the message was consumed at time [now]. *)
Definition consume_store (cfg : Config) (db : Redis) (now : Q) (key : string)
  : Redis :=
  (redis.hmset (redis.hdel db key MESSAGE).2 key
     [(PICKUP_TIME, asctime now);
      (REPLY_FAST_POLLS_LEFT, str_of_int (ALLOWED_FAST_DEQUEUE_POLLS cfg))]).2.

(** The store once the interlock was released. *)
Definition exit_store (db : Redis) (key : string) : Redis :=
  (redis.hmset db key [(DEQUEUE_BUSY, DEQUEUE_IDLE_STATUS)]).2.

(** Rounds of the polling loop that are enough for it to time out. *)
Definition enough_fuel (cfg : Config) : nat :=
  Z.to_nat
    (Z.max (Qceiling (DEQUEUE_TIMEOUT_SECS cfg / FAST_DEQUEUE_POLLING_SECS cfg))
           (Qceiling (DEQUEUE_TIMEOUT_SECS cfg / SLOW_DEQUEUE_POLLING_SECS cfg))).

(** What a dequeue handler answers to the result of [_dequeue]. *)
Definition dequeue_response (result : option string * bool) : Response :=
  match result with
  | (Some message, true) =>
      {| response := _add_padding message; status := HTTP_OK;
         response_type := "application/json" |}
  | (None, true) =>
      {| response := ""; status := HTTP_TIMEOUT; response_type := "text/plain" |}
  | (_, false) =>
      {| response := ""; status := HTTP_TOO_MANY; response_type := "text/plain" |}
  end.

(** ** Runs among other clients *)

(** The store the next command of a handler meets. *)
Definition first_seen (w : World) : Redis :=
  match others w with
  | [] => redis_db w
  | g :: _ => g (redis_db w)
  end.

(** A program that ends, by returning or by raising, in every world. *)
Definition never_hangs {A} (m : M A) : Prop :=
  forall w, (m w).1 <> Hangs.

(** A program whose every returned value satisfies [P]. *)
Definition returns_only {A} (m : M A) (P : A -> Prop) : Prop :=
  forall w a w', m w = (Returns a, w') -> P a.

(** The world once a command has left [db] behind. *)
Definition after_command (w : World) (db : Redis) : World :=
  {| redis_db := db; clock := clock w; others := tail (others w);
     transaction_id := transaction_id w |}.

(** A free slot without message: what a reader with no producer finds. *)
Definition idle_slot (db : Redis) (key : string) : Prop :=
  reader_free db key /\ redis.hget db key MESSAGE = None.

(** [calls] dequeues in a row on one slot, none asking for a reset. *)
Fixpoint dequeue_times (cfg : Config) (fuel : nat) (operation channel : string)
    (calls : nat) : M unit :=
  match calls with
  | O => mret tt
  | S calls' =>
      _ ← _dequeue cfg fuel 0 operation channel false;
      dequeue_times cfg fuel operation channel calls'
  end.

(** The exception of the strict [_del_message] that finds no message. *)
Definition delete_failed (key : string) : exn :=
  Exception ("redis failed deleting " ++ key ++ " subkey b'message'").

(** ** Statistics *)

(** The day of a statistics key: what follows [stat:]. *)
Definition day_of_key (key : string) : string :=
  drop_chars (String.length STATISTIC + 1) key.

(** The line of a record: the day and the four counters, an absent one
    giving the empty string. *)
Definition stats_line (day_string : string) (counts : list (option string))
  : string :=
  day_string ++ "," ++ join "," (map (fun count => default "" count) counts).

(** The line [stats] prints for the record under [key]. *)
Definition line_of_key (db : Redis) (key : string) : string :=
  stats_line (day_of_key key) (redis.hmget db key stats_fields).

(** A counter that is absent or decodes. *)
Definition count_decodes (count : option string) : bool :=
  match count with
  | Some b => utf8_valid b
  | None => true
  end.

(** The key of a record and its four counters decode. *)
Definition record_decodes (db : Redis) (key : string) : bool :=
  utf8_valid key && forallb count_decodes (redis.hmget db key stats_fields).

(** Every record of the statistics decodes. *)
Definition decodable (db : Redis) : bool :=
  forallb (record_decodes db) (redis.keys db (STATISTIC ++ ":*")).

(** The order of [sorted] on the items of a dictionary. *)
Definition key_le (a b : string * string) : Prop := String.le a.1 b.1.

(** ** Invariants of the store *)

(** An action of another client under which [I] stays true. *)
Definition respects (I : Redis -> Prop) (g : Redis -> Redis) : Prop :=
  forall db, I db -> I (g db).

(** [I] holds of the store, and the other clients will not break it. *)
Definition stable (I : Redis -> Prop) (w : World) : Prop :=
  I (redis_db w) /\ Forall (respects I) (others w).

(** A program that leaves [I] stable however it ends. *)
Definition keeps (I : Redis -> Prop) {A} (m : M A) : Prop :=
  forall w r w', stable I w -> m w = (r, w') -> stable I w'.

(** The text of an integer that is not negative. *)
Definition counter_ok (b : string) : Prop :=
  exists z, b = str_of_int z /\ 0 <= z.

(** Every fast-poll counter in the store is one. *)
Definition counters_ok (db : Redis) : Prop :=
  forall key b,
    redis.hget db key REPLY_FAST_POLLS_LEFT = Some b -> counter_ok b.

(** ** Times to live *)

(** The key, while it exists, is not due to die before [t]; a key without
    deadline never dies. *)
Definition lives_until (db : Redis) (key : string) (t : Q) : Prop :=
  match ttl_deadline db key with
  | Some d => (t <= d)%Q
  | None => True
  end.

(** An action of another client after which [key], if it was not due to
    die before [t], still is not: it sets no deadline before [t]. *)
Definition keeps_alive (key : string) (t : Q) (g : Redis -> Redis) : Prop :=
  forall db, lives_until db key t -> lives_until (g db) key t.

(** A reader that began at [t0] has not refreshed the key yet. *)
Definition not_refreshed (key : string) (t0 : Q) (w : World) : Prop :=
  Forall (keeps_alive key (t0 + EXPIRE_SECS)) (others w) /\ clock w = t0.

(** A reader that began at [t0] has refreshed the key. *)
Definition refreshed (key : string) (t0 : Q) (w : World) : Prop :=
  Forall (keeps_alive key (t0 + EXPIRE_SECS)) (others w)
  /\ lives_until (redis_db w) key (t0 + EXPIRE_SECS)
  /\ (t0 <= clock w)%Q.

(** A reader alone that began at [t0] holds the interlock of the slot. *)
Definition holding (key : string) (t0 : Q) (w : World) : Prop :=
  others w = [] /\ clock w = t0
  /\ redis.hget (redis_db w) key DEQUEUE_BUSY = Some DEQUEUE_BUSY_STATUS.

(** A reader alone holds the interlock of a slot that dies at [d]. *)
Definition held_until (key : string) (d : Q) (w : World) : Prop :=
  others w = []
  /\ ttl_deadline (redis_db w) key = Some d
  /\ redis.hget (redis_db w) key DEQUEUE_BUSY = Some DEQUEUE_BUSY_STATUS.

(** Of a run that returns from a world in [P], the value and the world it
    leaves are in [Q]. *)
Definition hoare {A} (P : World -> Prop) (m : M A) (Q : A -> World -> Prop)
  : Prop :=
  forall w a w', P w -> m w = (Returns a, w') -> Q a w'.

(** The day string of the [d]-th day after 1970-01-01. *)
Definition day_string (d : Z) : string :=
  strftime_Ymd (inject_Z (86400 * d)).

(** The day strings of [count] days in a row ascend from each day to the
    next, [prev] being the string of the day before the [d]-th. *)
Fixpoint days_ascend_after (prev : string) (d : Z) (count : nat) : bool :=
  match count with
  | O => true
  | S count' =>
      let next := day_string d in
      String.ltb prev next && days_ascend_after next (d + 1) count'
  end.

Definition days_ascend (d : Z) (count : nat) : bool :=
  days_ascend_after (day_string d) (d + 1) count.

(** ** Sample worlds *)

(** A store and nothing else: the epoch, no other client, no transaction
    yet. *)
Definition world_of (db : Redis) : World :=
  {| redis_db := db; clock := 0; others := []; transaction_id := 0 |}.

(** A slot whose reader is at work. *)
Definition busy_world : World :=
  world_of {[ "c3:request" :=
                {| hash := {[ DEQUEUE_BUSY := DEQUEUE_BUSY_STATUS ]};
                   deadline := None |} ]}.

(** A request with a channel parameter. *)
Definition request_on (channel content : string) (data : string) : Request :=
  {| args := [("channel", channel)]; content_type := Some content;
     get_data := data |}.

(** The world once the reply [A] was posted to channel [c5] of an empty
    store. *)
Definition reply_held_world : World :=
  (queue_reply (request_on "c5" "text/plain" "A") (world_of ∅)).2.

(** The world once [{}] was enqueued as a request on channel [c1] of an
    empty store. *)
Definition request_held_world : World :=
  (_enqueue 0 REQUEST "c1" "{}" (world_of ∅)).2.

(** The world once an empty reply was posted to channel [c6] of an empty
    store. *)
Definition empty_reply_world : World :=
  (queue_reply (request_on "c6" "text/plain" "") (world_of ∅)).2.

(** A reader on channel [c7] and another client that removes the slot's
    key just before the reader's fourth command, the [EXPIRE]. *)
Definition key_lost_world : World :=
  {| redis_db := ∅; clock := 0;
     others := [id; id; id; delete (slot_key "c7" REQUEST)];
     transaction_id := 0 |}.

(** A reader on channel [c7] and a producer that posts [hello] during the
    reader's third sleep. *)
Definition late_message_world : World :=
  {| redis_db := ∅; clock := 0;
     others := [id; id; id; id; id; id; id; id;
                fun db => (redis.hmset db (slot_key "c7" REQUEST)
                             (enqueue_mapping "hello" 0)).2];
     transaction_id := 0 |}.

(** Another client that copies a field of a slot, as it finds it, under a
    key of its own; an absent field is copied as the empty string. *)
Definition observe (key field to : string) (db : Redis) : Redis :=
  (redis.hmset db to [(field, default "" (redis.hget db key field))]).2.

(** The world among other clients. *)
Definition with_others (w : World) (os : list (Redis -> Redis)) : World :=
  {| redis_db := redis_db w; clock := clock w; others := os;
     transaction_id := transaction_id w |}.

(** No fast poll is allowed: the maximum is negative. *)
Definition negative_config : Config := {|
  DEQUEUE_TIMEOUT_SECS := 15;
  FAST_DEQUEUE_POLLING_SECS := 1 # 10;
  SLOW_DEQUEUE_POLLING_SECS := 2;
  ALLOWED_FAST_DEQUEUE_POLLS := -1
|}.

(** A reader that does not wait. *)
Definition impatient_config : Config := {|
  DEQUEUE_TIMEOUT_SECS := 0;
  FAST_DEQUEUE_POLLING_SECS := 1 # 10;
  SLOW_DEQUEUE_POLLING_SECS := 2;
  ALLOWED_FAST_DEQUEUE_POLLS := 10
|}.

(** A patient reader: no fast polls, a look at the slot every hour, two
    hours of patience. *)
Definition patient_config : Config := {|
  DEQUEUE_TIMEOUT_SECS := 7200;
  FAST_DEQUEUE_POLLING_SECS := 1 # 10;
  SLOW_DEQUEUE_POLLING_SECS := 3600;
  ALLOWED_FAST_DEQUEUE_POLLS := 0
|}.

(** The store once a producer alone has posted [msg] at time [now]. *)
Definition posted_at (now : Q) (operation channel msg : string) (db : Redis)
  : Redis :=
  redis_db (_enqueue 0 operation channel msg
              {| redis_db := db; clock := now; others := [];
                 transaction_id := 0 |}).2.

(** A patient reader on channel [c8] and a producer whose [_enqueue] has
    written [hello] to the slot, and has not called [EXPIRE] yet, when the
    reader looks at the slot after its second sleep. *)
Definition half_posted_world : World :=
  {| redis_db := ∅; clock := 0;
     others := [id; id; id; id; id; id; id;
                fun db => (redis.hmset db (slot_key "c8" REQUEST)
                             (enqueue_mapping "hello" 3601)).2];
     transaction_id := 0 |}.

(** The same reader and a producer that makes its whole post one second
    into the reader's second sleep. *)
Definition posted_world : World :=
  {| redis_db := ∅; clock := 0;
     others := [id; id; id; id; id; id; id;
                posted_at 3601 REQUEST "c8" "hello"];
     transaction_id := 0 |}.

(** The setting of the fast-to-slow scenario: two fast polls, ten seconds
    of patience. *)
Definition downshift_config : Config := {|
  DEQUEUE_TIMEOUT_SECS := 10;
  FAST_DEQUEUE_POLLING_SECS := 1 # 10;
  SLOW_DEQUEUE_POLLING_SECS := 2;
  ALLOWED_FAST_DEQUEUE_POLLS := 2
|}.

(** A stale reply on channel [c2], nothing else. *)
Definition stale_reply_db : Redis :=
  {[ slot_key "c2" REPLY :=
       {| hash := {[ MESSAGE := "stale" ]}; deadline := None |} ]}.

Definition stale_reply_world : World := world_of stale_reply_db.

(** The same store, and a consumer that takes the stale reply between the
    read and the delete of [queue_request]. *)
Definition stolen_reply_world : World :=
  {| redis_db := stale_reply_db; clock := 0;
     others := [id; fun db => (redis.hdel db (slot_key "c2" REPLY) MESSAGE).2];
     transaction_id := 0 |}.

(** A request that was not picked up waits on channel [c2]; no reply. *)
Definition pending_request_world : World :=
  (_enqueue 0 REQUEST "c2" "first" (world_of ∅)).2.

(** Two requests of 10 and 20 bytes and a reply of 5 bytes, all on the
    first day of 1970. *)
Definition three_posts_world : World :=
  let w1 := (_enqueue 0 REQUEST "a" "0123456789" (world_of ∅)).2 in
  let w2 := (_enqueue 1 REQUEST "b" "01234567890123456789" w1).2 in
  (_enqueue 2 REPLY "a" "01234" w2).2.

(** A request waits on channel [c1] and the reader has three fast polls
    left. *)
Definition three_polls_left_world : World :=
  with_db request_held_world
    (redis.hmset (redis_db request_held_world) (slot_key "c1" REQUEST)
       [(REPLY_FAST_POLLS_LEFT, "3")]).2.

(** ** The start of the module *)

(** [DEL key]: the number of keys removed. *)
Definition redis_delete (db : Redis) (key : string) : Z * Redis :=
  match db !! key with
  | Some _ => (1, delete key db)
  | None => (0, db)
  end.

(** The two branches of the test on the answer write to the log and do
    nothing else, and so does the handler of the exception. *)
Definition _del_key (key : string) : M unit :=
  try_except
    (n ← command (fun db _ => redis_delete db key);
     if n =? 1 then mret tt else mret tt)
    (fun _ => mret tt).

(** [for key in keys: _del_key(key)] *)
Fixpoint del_keys (keys : list string) : M unit :=
  match keys with
  | [] => mret tt
  | key :: keys' =>
      _ ← _del_key key;
      del_keys keys'
  end.

(** The statements the module runs when it is imported, after the
    connection to Redis was made: the slots a previous instance left are
    removed. *)
Definition startup : M unit :=
  keys ← query (fun db => redis.keys db ("*:" ++ REPLY));
  _ ← del_keys keys;
  keys ← query (fun db => redis.keys db ("*:" ++ REQUEST));
  del_keys keys.

(** A pattern without [*]. *)
Fixpoint literal (pattern : string) : bool :=
  match pattern with
  | EmptyString => true
  | String c pattern' => negb (Ascii.eqb c "*") && literal pattern'
  end.

(** The store without the keys of a list. *)
Definition without (db : Redis) (keys : list string) : Redis :=
  foldl (fun db key => delete key db) db keys.

(** ** What a call leaves alone *)

(** A program every run of which, however it ends, takes a world to one
    that [R] relates to it. *)
Definition steps (R : World -> World -> Prop) {A} (m : M A) : Prop :=
  forall w r w', m w = (r, w') -> R w w'.

(** A command that writes under one key at most. *)
Definition writes_only (key : string) {A} (f : Redis -> Q -> A * Redis)
  : Prop :=
  forall db now k, k <> key -> (f db now).2 !! k = db !! k.

(** The transaction counter stands where it stood. *)
Definition same_transaction (w w' : World) : Prop :=
  transaction_id w' = transaction_id w.

(** No time has passed. *)
Definition same_clock (w w' : World) : Prop := clock w' = clock w.

(** Time has not gone back. *)
Definition clock_on (w w' : World) : Prop := (clock w <= clock w')%Q.

(** Run alone, a call has left every key outside [touched] as it was. *)
Definition untouched (touched : string -> Prop) (w w' : World) : Prop :=
  others w = [] ->
  others w' = []
  /\ forall k, ~ touched k -> redis_db w' !! k = redis_db w !! k.

(** ** Answers and requests *)

(** The three answers of a dequeue handler that are no error. *)
Definition message_response (message : string) : Response :=
  {| response := message ++ spaces 1500; status := 200;
     response_type := "application/json" |}.

Definition timeout_response : Response :=
  {| response := ""; status := 408; response_type := "text/plain" |}.

Definition too_many_response : Response :=
  {| response := ""; status := 429; response_type := "text/plain" |}.

(** A request without parameters, content type or body but the channel. *)
Definition get_on (channel : string) : Request :=
  {| args := [("channel", channel)]; content_type := None; get_data := "" |}.

(** The answer to a call without channel. *)
Definition channel_missing : Response :=
  sys_err_response (Exception "Channel is missing in parameter list").

(** The request of a reader that asks for a reset first. *)
Definition reset_on (channel : string) : Request :=
  {| args := [("channel", channel); ("reset", "")]; content_type := None;
     get_data := "" |}.

(** A record of the statistics whose key is no text: the byte [0xff]
    begins no character. *)
Definition undecodable_world : World :=
  world_of {[ STATISTIC ++ ":" ++ String "255" "" :=
                {| hash := {[ REQUEST := "1" ]}; deadline := None |} ]}.

(** The count of the replies of the day is no number. *)
Definition broken_count_world : World :=
  world_of {[ "stat:1970-01-01" :=
                {| hash := {[ "count:reply" := "many" ]};
                   deadline := None |} ]}.

(** ** Days and exchanges *)

(** The day of a time: the whole days since 1970-01-01. *)
Definition epoch_day (now : Q) : Z := Qfloor now / 86400.

(** The store once a message was posted to a slot and counted, the
    counters of the day having been [c] and [b]. *)
Definition posted_store (db : Redis) (now : Q) (operation channel msg : string)
    (c b : Z) : Redis :=
  counter_store
    (counter_store
       (enqueue_store db now (slot_key channel operation) msg)
       (stat_key now) (COUNT ++ ":" ++ operation) (c + 1))
    (stat_key now) operation (b + Z.of_nat (String.length msg)).

(** The store once a reader that found no counter of fast polls in the
    slot has taken its message. *)
Definition taken_store (cfg : Config) (db : Redis) (now : Q) (key : string)
  : Redis :=
  exit_store
    (consume_store cfg
       (cadence_store (entry_store db now key false) key
                      (ALLOWED_FAST_DEQUEUE_POLLS cfg))
       now key)
    key.

(** The key of some slot. *)
Definition is_slot_key (k : string) : Prop :=
  exists channel operation,
    is_direction operation /\ k = slot_key channel operation.

(** Run alone, a call has left every counter of the statistics that was a
    number a number that is not less. *)
Definition counts_grow (w w' : World) : Prop :=
  others w = [] ->
  others w' = []
  /\ forall now field z,
       stat_value (redis_db w) (stat_key now) field = Some z ->
       exists z', stat_value (redis_db w') (stat_key now) field = Some z'
                  /\ z <= z'.

(** * Properties *)

(** ** Integers as text *)

Lemma int_of_bytes_str_of_int (n : Z) : int_of_bytes (str_of_int n) = Some n.
Proof.
  unfold int_of_bytes, str_of_int.
  rewrite NilZero.isi.
  - simpl. f_equal. apply DecimalZ.of_to.
  - destruct n; simpl; try discriminate.
    intros [= H]. by apply Unsigned.to_uint_nonnil in H.
  - destruct n; simpl; try discriminate.
    intros [= H]. by apply Unsigned.to_uint_nonnil in H.
Qed.

(** ** Running programs *)

Lemma bind_returns {A B} (m : M A) (k : A -> M B) w a w' :
  m w = (Returns a, w') -> (m ≫= k) w = k a w'.
Proof. intros H. unfold mbind, M_bind. by rewrite H. Qed.

Lemma bind_raises {A B} (m : M A) (k : A -> M B) w e w' :
  m w = (Raises e, w') -> (m ≫= k) w = (Raises e, w').
Proof. intros H. unfold mbind, M_bind. by rewrite H. Qed.

Lemma bind_hangs {A B} (m : M A) (k : A -> M B) w w' :
  m w = (Hangs, w') -> (m ≫= k) w = (Hangs, w').
Proof. intros H. unfold mbind, M_bind. by rewrite H. Qed.

Lemma command_alone {A} (f : Redis -> Q -> A * Redis) w :
  others w = [] ->
  command f w
  = (Returns (f (redis_db w) (clock w)).1,
     with_db w (f (redis_db w) (clock w)).2).
Proof.
  intros H. unfold command, with_db. rewrite H. simpl.
  by destruct (f (redis_db w) (clock w)).
Qed.

Lemma query_alone {A} (f : Redis -> A) w :
  others w = [] -> query f w = (Returns (f (redis_db w)), w).
Proof.
  intros H. unfold query. rewrite command_alone by done. simpl.
  destruct w; simpl in *. by subst.
Qed.

Lemma with_db_same w : with_db w (redis_db w) = w.
Proof. by destruct w. Qed.

(** A run is the pair of its outcome and of the world it leaves. *)
Lemma run_pair {A} (m : M A) (w : World) (r : outcome A) :
  (m w).1 = r -> m w = (r, (m w).2).
Proof. intros <-. apply surjective_pairing. Qed.


(** A command among other clients: their next action comes first. *)
Lemma command_any {A} (f : Redis -> Q -> A * Redis) (w : World) :
  command f w
  = (Returns (f (first_seen w) (clock w)).1,
     after_command w (f (first_seen w) (clock w)).2).
Proof. unfold command, first_seen. by destruct (f _ _). Qed.

Lemma query_any {A} (f : Redis -> A) (w : World) :
  query f w = (Returns (f (first_seen w)), after_command w (first_seen w)).
Proof. unfold query. by rewrite command_any. Qed.

Lemma set_key_value_any (key : string) (value : list (string * string))
    (w : World) :
  _set_key_value key value w
  = (Returns tt, after_command w (redis.hmset (first_seen w) key value).2).
Proof.
  unfold _set_key_value. erewrite bind_returns by apply command_any.
  reflexivity.
Qed.

(** ** The store *)

Section store.
Implicit Types (db : Redis) (key field : string).

Lemma hget_hgetall db key field :
redis.hget db key field = redis.hgetall db key !! field.
Proof. unfold redis.hget, redis.hgetall. by destruct (db !! key). Qed.

Lemma hgetall_hmset db key key' mapping :
redis.hgetall (redis.hmset db key mapping).2 key'
= if decide (key = key')
then foldl (fun h kv => <[kv.1 := kv.2]> h) (redis.hgetall db key) mapping
else redis.hgetall db key'.
Proof.
unfold redis.hmset, redis.hgetall at 1. simpl.
case_decide as H.
- subst. by rewrite lookup_insert_eq.
- by rewrite lookup_insert_ne.
Qed.

Lemma hget_hmset_other db key key' mapping field :
key <> key' ->
redis.hget (redis.hmset db key mapping).2 key' field
= redis.hget db key' field.
Proof.
intros H. rewrite !hget_hgetall, hgetall_hmset. by case_decide.
Qed.

Lemma hget_hmset_1 db key f v field :
redis.hget (redis.hmset db key [(f, v)]).2 key field
= if decide (f = field) then Some v else redis.hget db key field.
Proof.
rewrite !hget_hgetall, hgetall_hmset. rewrite decide_True by done. simpl.
case_decide; subst; [by rewrite lookup_insert_eq | by rewrite lookup_insert_ne].
Qed.

Lemma lookup_hmset_other db key key' mapping :
key <> key' -> (redis.hmset db key mapping).2 !! key' = db !! key'.
Proof. intros H. unfold redis.hmset. simpl. by rewrite lookup_insert_ne. Qed.

Lemma hmset_is_Some db key mapping :
is_Some ((redis.hmset db key mapping).2 !! key).
Proof. unfold redis.hmset. simpl. rewrite lookup_insert_eq. eauto. Qed.

Lemma ttl_hmset db key key' mapping :
ttl_deadline (redis.hmset db key mapping).2 key' = ttl_deadline db key'.
Proof.
unfold ttl_deadline, redis.hmset. simpl.
destruct (decide (key = key')) as [->|H].
- by rewrite lookup_insert_eq.
- by rewrite lookup_insert_ne.
Qed.

Lemma expire_fst db now key secs :
(redis.expire db now key secs).1 = bool_decide (is_Some (db !! key)).
Proof.
unfold redis.expire. by destruct (db !! key).
Qed.

Lemma hgetall_expire db now key secs key' :
redis.hgetall (redis.expire db now key secs).2 key' = redis.hgetall db key'.
Proof.
unfold redis.expire, redis.hgetall.
destruct (db !! key) eqn:E; simpl; [|done].
destruct (decide (key = key')) as [<-|H].
- by rewrite lookup_insert_eq, E.
- by rewrite lookup_insert_ne.
Qed.

Lemma hget_expire db now key secs key' field :
redis.hget (redis.expire db now key secs).2 key' field
= redis.hget db key' field.
Proof. by rewrite !hget_hgetall, hgetall_expire. Qed.

Lemma lookup_expire_other db now key secs key' :
key <> key' -> (redis.expire db now key secs).2 !! key' = db !! key'.
Proof.
intros H. unfold redis.expire. destruct (db !! key); simpl; [|done].
by rewrite lookup_insert_ne.
Qed.

Lemma expire_is_Some db now key secs key' :
is_Some (db !! key') -> is_Some ((redis.expire db now key secs).2 !! key').
Proof.
intros H. unfold redis.expire. destruct (db !! key) eqn:E; simpl; [|done].
destruct (decide (key = key')) as [<-|Hne].
- rewrite lookup_insert_eq. eauto.
- by rewrite lookup_insert_ne.
Qed.

Lemma ttl_expire db now key secs :
is_Some (db !! key) ->
ttl_deadline (redis.expire db now key secs).2 key = Some (now + secs)%Q.
Proof.
intros [e E]. unfold ttl_deadline, redis.expire. rewrite E. simpl.
by rewrite lookup_insert_eq.
Qed.

Lemma hgetall_hdel db key field key' :
redis.hgetall (redis.hdel db key field).2 key'
= if decide (key = key') then delete field (redis.hgetall db key)
else redis.hgetall db key'.
Proof.
unfold redis.hdel, redis.hgetall.
destruct (decide (key = key')) as [<-|Hne].
- destruct (db !! key) as [e|] eqn:E; simpl.
+ destruct (hash e !! field) eqn:F; simpl.
  * case_decide as Hempty; simpl.
    -- by rewrite lookup_delete_eq, Hempty.
    -- by rewrite lookup_insert_eq.
  * rewrite E. symmetry. by apply delete_id.
+ rewrite E. by rewrite delete_empty.
- destruct (db !! key) as [e|] eqn:E; simpl; [|done].
destruct (hash e !! field) eqn:F; simpl; [|done].
case_decide; simpl.
+ by rewrite lookup_delete_ne.
+ by rewrite lookup_insert_ne.
Qed.

Lemma hget_hdel_same db key field :
redis.hget (redis.hdel db key field).2 key field = None.
Proof.
rewrite hget_hgetall, hgetall_hdel, decide_True by done.
apply lookup_delete_eq.
Qed.

Lemma hget_hdel_ne db key field key' field' :
field <> field' ->
redis.hget (redis.hdel db key field).2 key' field'
= redis.hget db key' field'.
Proof.
intros H. rewrite !hget_hgetall, hgetall_hdel. case_decide; [|done].
subst. by rewrite lookup_delete_ne.
Qed.

Lemma hdel_fst db key field :
(redis.hdel db key field).1
= match redis.hget db key field with Some _ => 1 | None => 0 end.
Proof.
unfold redis.hdel, redis.hget. destruct (db !! key) as [e|]; [|done].
destruct (hash e !! field); [|done]. by case_decide.
Qed.

Lemma lookup_hdel_other db key field key' :
key <> key' -> (redis.hdel db key field).2 !! key' = db !! key'.
Proof.
intros H. unfold redis.hdel. destruct (db !! key) as [e|]; [|done].
destruct (hash e !! field); [|done]. case_decide; simpl.
- by rewrite lookup_delete_ne.
- by rewrite lookup_insert_ne.
Qed.

(** A hash that keeps a field keeps its key and its time to live. *)
Lemma ttl_hdel_kept db key field field' :
field <> field' -> is_Some (redis.hget db key field') ->
ttl_deadline (redis.hdel db key field).2 key = ttl_deadline db key
/\ is_Some ((redis.hdel db key field).2 !! key).
Proof.
intros Hne [v Hv]. unfold redis.hget in Hv.
unfold ttl_deadline, redis.hdel.
destruct (db !! key) as [e|] eqn:E; [|done].
destruct (hash e !! field) eqn:F; simpl; [|rewrite E; eauto].
case_decide as Hempty; simpl.
- exfalso. assert (delete field (hash e) !! field' = Some v) as H
  by by rewrite lookup_delete_ne.
by rewrite Hempty, lookup_empty in H.
- rewrite lookup_insert_eq. eauto.
Qed.

End store.

(** ** The helpers, run alone *)

(** Projections of pairs and of worlds, and nothing else. *)
Tactic Notation "wsimpl" :=
  cbn [fst snd with_db at_clock next_transaction
       redis_db clock others transaction_id].
Tactic Notation "wsimpl" "in" hyp(H) :=
  cbn [fst snd with_db at_clock next_transaction
       redis_db clock others transaction_id] in H.

Section alone.
Variable w : World.
Hypothesis alone : others w = [].

Lemma others_with_db db : others (with_db w db) = [].
Proof. done. Qed.

Lemma run_set_key_value key value :
_set_key_value key value w
= (Returns tt, with_db w (redis.hmset (redis_db w) key value).2).
Proof.
unfold _set_key_value. erewrite bind_returns by (by apply command_alone).
reflexivity.
Qed.

Lemma run_del_message key permissive :
_del_message key permissive w
= (if negb ((redis.hdel (redis_db w) key MESSAGE).1 =? 1) && negb permissive
 then Raises (Exception ("redis failed deleting " ++ key
                         ++ " subkey b'message'"))
 else Returns tt,
 with_db w (redis.hdel (redis_db w) key MESSAGE).2).
Proof.
unfold _del_message. erewrite bind_returns by (by apply command_alone).
cbv beta. by destruct (_ && _).
Qed.

Lemma run_expire key :
_expire key w
= (if (redis.expire (redis_db w) (clock w) key EXPIRE_SECS).1
 then Returns tt
 else Raises (Exception ("redis failed expiring " ++ key)),
 with_db w (redis.expire (redis_db w) (clock w) key EXPIRE_SECS).2).
Proof.
unfold _expire. erewrite bind_returns by (by apply command_alone).
cbv beta. by destruct (redis.expire _ _ _ _).1.
Qed.

Lemma run_hincrby key field n :
redis_hincrby key field n w
= (match (redis.hincrby (redis_db w) key field n).1 with
 | Some z => Returns z
 | None =>
     Raises (ResponseError "hash value is not an integer or would overflow")
 end,
 with_db w (redis.hincrby (redis_db w) key field n).2).
Proof.
unfold redis_hincrby. erewrite bind_returns by (by apply command_alone).
cbv beta. by destruct (redis.hincrby _ _ _ _).1.
Qed.

End alone.

(** ** Keys of slots and of statistics records *)

Lemma append_cons (x : ascii) (a b : string) :
  String x a ++ b = String x (a ++ b).
Proof. reflexivity. Qed.

Lemma length_append (a b : string) :
  String.length (a ++ b) = (String.length a + String.length b)%nat.
Proof.
  induction a as [|c a IH]; [done|].
  rewrite append_cons. simpl. by rewrite IH.
Qed.

Lemma append_assoc (a b c : string) : (a ++ b) ++ c = a ++ (b ++ c).
Proof.
  induction a as [|x a IH]; [done|].
  rewrite !append_cons. by rewrite IH.
Qed.

Lemma append_inj_r (a b s : string) : a ++ s = b ++ s -> a = b.
Proof.
  revert b. induction a as [|c a IH]; intros [|d b] H.
  - done.
  - apply (f_equal String.length) in H. rewrite !length_append in H.
    simpl in H. lia.
  - apply (f_equal String.length) in H. rewrite !length_append in H.
    simpl in H. lia.
  - rewrite !append_cons in H. injection H as -> H. f_equal. by apply IH.
Qed.

Lemma last_char_app (a b : string) :
  b <> "" -> last_char (a ++ b) = last_char b.
Proof.
  intros Hb. induction a as [|c a IH]; [done|].
  rewrite append_cons. simpl. rewrite IH.
  destruct b as [|d b]; [done|]. simpl.
  by destruct (last_char b).
Qed.

Lemma last_char_slot_key (channel operation : string) :
  operation <> "" ->
  last_char (slot_key channel operation) = last_char operation.
Proof.
  intros H. unfold slot_key. rewrite last_char_app; [|by destruct operation].
  by apply (last_char_app ":").
Qed.

Lemma digit_cases (n : Z) :
  In (digit n)
     ["0"; "1"; "2"; "3"; "4"; "5"; "6"; "7"; "8"; "9"]%char.
Proof.
  unfold digit.
  assert (Z.to_nat (n mod 10) < 10)%nat as H.
  { pose proof (Z.mod_pos_bound n 10). lia. }
  destruct (Z.to_nat (n mod 10)) as [|[|[|[|[|[|[|[|[|[|k]]]]]]]]]];
    simpl; try lia; tauto.
Qed.

Lemma append_nonempty_r (a b : string) : b <> "" -> a ++ b <> "".
Proof. destruct a; [done | by rewrite append_cons]. Qed.

Lemma last_char_stat_key (now : Q) :
  exists n : Z, last_char (stat_key now) = Some (digit n).
Proof.
  unfold stat_key, strftime_Ymd.
  destruct (civil_from_days _) as [[y m] d]. exists d.
  repeat (rewrite last_char_app;
          [|repeat apply append_nonempty_r; discriminate]).
  reflexivity.
Qed.

(** No statistics record lives under the key of a slot. *)
Lemma stat_key_not_slot (now : Q) (channel operation : string) :
  is_direction operation -> stat_key now <> slot_key channel operation.
Proof.
  intros Hop Heq. apply (f_equal last_char) in Heq.
  destruct (last_char_stat_key now) as [n Hn]. rewrite Hn in Heq.
  rewrite last_char_slot_key in Heq by (by destruct Hop as [-> | ->]).
  pose proof (digit_cases n) as Hd. simpl in Hd.
  destruct Hop as [-> | ->]; simpl in Heq; injection Heq as Heq;
    rewrite Heq in Hd; intuition discriminate.
Qed.

(** Two slots share their key only if they are the same slot. *)
Lemma slot_key_inj (c c' o o' : string) :
  is_direction o -> is_direction o' ->
  slot_key c o = slot_key c' o' -> c = c' /\ o = o'.
Proof.
  intros Ho Ho' H.
  assert (o = o') as <-.
  { apply (f_equal last_char) in H.
    destruct Ho as [-> | ->], Ho' as [-> | ->]; try done;
      rewrite !last_char_slot_key in H by done; by vm_compute in H. }
  split; [|done]. unfold slot_key in H.
  apply (append_inj_r _ _ ":"), (append_inj_r _ _ o).
  by rewrite !append_assoc.
Qed.

(** ** Counters of the statistics records *)

Lemma string2ll_str_of_int (z : Z) :
  in_int64 z -> redis.string2ll (str_of_int z) = Some z.
Proof.
  intros [H1 H2]. unfold redis.string2ll.
  rewrite int_of_bytes_str_of_int, String.eqb_refl.
  rewrite (proj2 (Z.leb_le _ _)) by done.
  by rewrite (proj2 (Z.leb_le _ _)) by done.
Qed.

Lemma string2ll_in_int64 (s : string) (z : Z) :
  redis.string2ll s = Some z -> in_int64 z.
Proof.
  unfold redis.string2ll. destruct (int_of_bytes s) as [z'|]; [|done].
  destruct (String.eqb _ _); [|done]. simpl.
  destruct (Z.leb_spec (- 2 ^ 63) z'); [|done].
  destruct (Z.leb_spec z' (2 ^ 63 - 1)); [|done].
  intros [= <-]. by split.
Qed.

Lemma hincrby_cases (db : Redis) (key field : string) (n : Z) :
  (exists z, stat_value db key field = Some z /\ in_int64 (z + n)
             /\ redis.hincrby db key field n
                = (Some (z + n), counter_store db key field (z + n)))
  \/ redis.hincrby db key field n = (None, db).
Proof.
  unfold redis.hincrby, stat_value, counter_store.
  destruct (match redis.hget db key field with
            | Some s => redis.string2ll s | None => Some 0 end) as [z|];
    [|by right].
  destruct (Z.leb_spec (- 2 ^ 63) (z + n)); simpl; [|by right].
  destruct (Z.leb_spec (z + n) (2 ^ 63 - 1)); simpl; [|by right].
  left. exists z. by repeat split.
Qed.

Lemma stat_value_counter_store (db : Redis) (key field : string) (z : Z) :
  in_int64 z -> stat_value (counter_store db key field z) key field = Some z.
Proof.
  intros H. unfold stat_value, counter_store.
  rewrite hget_hmset_1, decide_True by done. by apply string2ll_str_of_int.
Qed.

Lemma stat_value_counter_store_ne (db : Redis) (key field field' : string) z :
  field <> field' ->
  stat_value (counter_store db key field z) key field'
  = stat_value db key field'.
Proof.
  intros H. unfold stat_value, counter_store.
  by rewrite hget_hmset_1, decide_False by done.
Qed.

Lemma lookup_counter_store_other (db : Redis) (key field key' : string) z :
  key <> key' -> counter_store db key field z !! key' = db !! key'.
Proof. apply lookup_hmset_other. Qed.

(** ** Enqueue, run alone *)

Lemma update_stats_alone (operation msg : string) (w : World) :
  others w = [] ->
  let sk := stat_key (clock w) in
  let len := Z.of_nat (String.length msg) in
  (exists c b,
      stat_value (redis_db w) sk (COUNT ++ ":" ++ operation) = Some c
      /\ in_int64 (c + 1)
      /\ stat_value (counter_store (redis_db w) sk (COUNT ++ ":" ++ operation)
                                   (c + 1)) sk operation = Some b
      /\ in_int64 (b + len)
      /\ _update_stats operation msg w
         = (Returns tt,
            with_db w (counter_store
                         (counter_store (redis_db w) sk
                                        (COUNT ++ ":" ++ operation) (c + 1))
                         sk operation (b + len))))
  \/ exists e w', _update_stats operation msg w = (Raises e, w').
Proof.
  intros Hq sk len. subst sk len. unfold _update_stats.
  erewrite bind_returns by reflexivity. fold (stat_key (clock w)).
  set (sk := stat_key (clock w)). set (len := Z.of_nat (String.length msg)).
  destruct (hincrby_cases (redis_db w) sk (COUNT ++ ":" ++ operation) 1)
    as [(c & Hc & Hr & E)|E].
  - erewrite bind_returns by (rewrite run_hincrby by done; by rewrite E).
    wsimpl.
    destruct (hincrby_cases
                (counter_store (redis_db w) sk (COUNT ++ ":" ++ operation) (c + 1))
                sk operation len) as [(b & Hb & Hrb & E')|E'].
    + left. exists c, b. refine (conj Hc (conj Hr (conj Hb (conj Hrb _)))).
      erewrite bind_returns
        by (rewrite run_hincrby by done; wsimpl; by rewrite E').
      reflexivity.
    + right. do 2 eexists.
      erewrite bind_raises; [done|].
      rewrite run_hincrby by done. wsimpl. by rewrite E'.
  - right. do 2 eexists. erewrite bind_raises; [done|].
    rewrite run_hincrby by done. by rewrite E.
Qed.

Lemma enqueue_occupied (tid : Z) (operation channel msg : string) (w : World) :
  others w = [] ->
  is_Some (redis.hget (redis_db w) (slot_key channel operation) MESSAGE) ->
  _enqueue tid operation channel msg w
  = (Raises (Exception ("Channel " ++ slot_key channel operation
                        ++ " contains unprocessed message")), w).
Proof.
  intros Hq Hm. unfold _enqueue.
  erewrite bind_returns by (by apply query_alone).
  rewrite hget_hgetall in Hm.
  rewrite (bool_decide_eq_true_2 _ Hm). simpl.
  assert (size (redis.hgetall (redis_db w) (slot_key channel operation)) <> 0%nat)
    as Hs.
  { rewrite map_size_non_empty_iff. intros E. rewrite E in Hm.
    rewrite lookup_empty in Hm. by destruct Hm. }
  apply Nat.eqb_neq in Hs. by rewrite Hs.
Qed.

Lemma enqueue_free (tid : Z) (operation channel msg : string) (w : World) :
  others w = [] ->
  redis.hget (redis_db w) (slot_key channel operation) MESSAGE = None ->
  _enqueue tid operation channel msg w
  = _update_stats operation msg
      (with_db w (enqueue_store (redis_db w) (clock w)
                                (slot_key channel operation) msg)).
Proof.
  intros Hq Hm. unfold _enqueue.
  erewrite bind_returns by (by apply query_alone).
  rewrite hget_hgetall in Hm.
  rewrite bool_decide_eq_false_2 by (rewrite Hm; by intros [? ?]).
  rewrite orb_true_r.
  erewrite bind_returns by reflexivity.
  erewrite bind_returns by (by apply run_set_key_value).
  erewrite bind_returns.
  2:{ rewrite run_expire by done. wsimpl. rewrite expire_fst.
      rewrite bool_decide_eq_true_2 by apply hmset_is_Some. reflexivity. }
  reflexivity.
Qed.

Lemma hget_enqueue_store_other (db : Redis) (now : Q) (key msg key' field : string) :
  key <> key' ->
  redis.hget (enqueue_store db now key msg) key' field = redis.hget db key' field.
Proof.
  intros H. unfold enqueue_store. by rewrite hget_expire, hget_hmset_other.
Qed.

Lemma lookup_enqueue_store_other (db : Redis) (now : Q) (key msg key' : string) :
  key <> key' -> enqueue_store db now key msg !! key' = db !! key'.
Proof.
  intros H. unfold enqueue_store.
  by rewrite lookup_expire_other, lookup_hmset_other.
Qed.

Lemma hgetall_enqueue_store (db : Redis) (now : Q) (key msg : string) :
  redis.hgetall (enqueue_store db now key msg) key
  = <[POSTED_TIME := asctime now]>
      (<[PICKUP_TIME := ""]> (<[MESSAGE := msg]> (redis.hgetall db key))).
Proof.
  unfold enqueue_store. rewrite hgetall_expire, hgetall_hmset.
  by rewrite decide_True.
Qed.

Lemma ttl_enqueue_store (db : Redis) (now : Q) (key msg : string) :
  ttl_deadline (enqueue_store db now key msg) key = Some (now + EXPIRE_SECS)%Q.
Proof. unfold enqueue_store. apply ttl_expire, hmset_is_Some. Qed.

Lemma count_field_ne (operation : string) : COUNT ++ ":" ++ operation <> operation.
Proof.
  intros H. apply (f_equal String.length) in H.
  rewrite !length_append in H. simpl in H. lia.
Qed.

(** What a successful [_enqueue], run alone, has done to the store. *)
Lemma enqueue_returns (tid : Z) (operation channel msg : string) (w w' : World) :
  is_direction operation -> others w = [] ->
  _enqueue tid operation channel msg w = (Returns tt, w') ->
  let key := slot_key channel operation in
  let sk := stat_key (clock w) in
  let count := COUNT ++ ":" ++ operation in
  let len := Z.of_nat (String.length msg) in
  redis.hget (redis_db w) key MESSAGE = None
  /\ exists c b,
      stat_value (redis_db w) sk count = Some c
      /\ stat_value (redis_db w) sk operation = Some b
      /\ in_int64 (c + 1) /\ in_int64 (b + len)
      /\ w' = with_db w
                (counter_store
                   (counter_store
                      (enqueue_store (redis_db w) (clock w) key msg)
                      sk count (c + 1))
                   sk operation (b + len)).
Proof.
  intros Hop Hq Hrun key sk count len.
  destruct (redis.hget (redis_db w) key MESSAGE) as [m|] eqn:Hm.
  { rewrite enqueue_occupied in Hrun by (by rewrite ?Hm; eauto). done. }
  split; [done|].
  rewrite enqueue_free in Hrun by done.
  destruct (update_stats_alone operation msg
              (with_db w (enqueue_store (redis_db w) (clock w) key msg)))
    as [(c & b & Hc & Hrc & Hb & Hrb & E)|(e & w'' & E)]; [done| |].
  - wsimpl in Hc. wsimpl in Hb. wsimpl in E.
    fold key in Hrun. rewrite E in Hrun. injection Hrun as <-.
    assert (key <> sk) as Hsk
      by (intros Hk; by apply (stat_key_not_slot (clock w) channel operation)).
    exists c, b. fold sk count len in Hc, Hb |- *.
    rewrite stat_value_counter_store_ne in Hb by apply count_field_ne.
    unfold stat_value in Hc, Hb |- *.
    rewrite hget_enqueue_store_other in Hc, Hb by done.
    done.
  - fold key in Hrun. rewrite E in Hrun. done.
Qed.

Lemma hincrby_succeeds (db : Redis) (key field : string) (z n : Z) :
  stat_value db key field = Some z -> in_int64 (z + n) ->
  redis.hincrby db key field n
  = (Some (z + n), counter_store db key field (z + n)).
Proof.
  intros Hz [H1 H2]. unfold stat_value in Hz. unfold redis.hincrby.
  rewrite Hz. cbv zeta.
  rewrite (proj2 (Z.leb_le _ _)) by done.
  by rewrite (proj2 (Z.leb_le _ _)) by done.
Qed.

(** A free slot and counters with room are all a lone [_enqueue] needs. *)
Lemma enqueue_succeeds (tid : Z) (operation channel msg : string) (w : World)
    (c b : Z) :
  is_direction operation -> others w = [] ->
  let key := slot_key channel operation in
  let sk := stat_key (clock w) in
  let count := COUNT ++ ":" ++ operation in
  let len := Z.of_nat (String.length msg) in
  redis.hget (redis_db w) key MESSAGE = None ->
  stat_value (redis_db w) sk count = Some c -> in_int64 (c + 1) ->
  stat_value (redis_db w) sk operation = Some b -> in_int64 (b + len) ->
  _enqueue tid operation channel msg w
  = (Returns tt,
     with_db w
       (counter_store
          (counter_store (enqueue_store (redis_db w) (clock w) key msg)
                         sk count (c + 1))
          sk operation (b + len))).
Proof.
  intros Hop Hq key sk count len Hm Hc Hrc Hb Hrb.
  assert (key <> sk) as Hsk
    by (intros Hk; by apply (stat_key_not_slot (clock w) channel operation)).
  rewrite enqueue_free by done. fold key. unfold _update_stats.
  erewrite bind_returns by reflexivity. wsimpl.
  fold (stat_key (clock w)). fold sk count len.
  erewrite bind_returns.
  2:{ rewrite run_hincrby by done. wsimpl.
      erewrite hincrby_succeeds; [reflexivity| |done].
      unfold stat_value. by rewrite hget_enqueue_store_other. }
  wsimpl.
  erewrite bind_returns.
  2:{ rewrite run_hincrby by done. wsimpl.
      erewrite hincrby_succeeds; [reflexivity| |done].
      rewrite stat_value_counter_store_ne by apply count_field_ne.
      unfold stat_value. by rewrite hget_enqueue_store_other. }
  reflexivity.
Qed.

(** ** The frame of an enqueue *)

(** C10.  A successful [_enqueue], run alone, sets the fields [message],
    [pickup_time] and [posted_time] of its slot and adds one to the count
    and the length of the payload to the byte total of the record of the
    day.  The fields [dequeue_busy] and [reply_fast_polls_left] of the slot
    are as before, and so is every key but the slot's and the record's: the
    slots of the other channels and the slot of the other direction among
    them.  The three fields are set by one command: among other clients,
    whatever they do, a call that finds the slot free is its read, then
    the one [HMSET] of the three fields on the store the others left
    meanwhile, then the [EXPIRE] and the statistics; the others had one
    turn before the read and one before the write, and the store their
    next action meets holds the three fields together. *)
Theorem enqueue_frame
    (tid : Z) (operation channel msg : string) (w w' : World) :
  is_direction operation -> others w = [] ->
  _enqueue tid operation channel msg w = (Returns tt, w') ->
  let key := slot_key channel operation in
  let sk := stat_key (clock w) in
  let count := COUNT ++ ":" ++ operation in
  let len := Z.of_nat (String.length msg) in
  redis.hgetall (redis_db w') key
  = foldl (fun h kv => <[kv.1 := kv.2]> h) (redis.hgetall (redis_db w) key)
          [(MESSAGE, msg); (PICKUP_TIME, ""); (POSTED_TIME, asctime (clock w))]
  /\ redis.hget (redis_db w') key DEQUEUE_BUSY
     = redis.hget (redis_db w) key DEQUEUE_BUSY
  /\ redis.hget (redis_db w') key REPLY_FAST_POLLS_LEFT
     = redis.hget (redis_db w) key REPLY_FAST_POLLS_LEFT
  /\ (exists c b,
        stat_value (redis_db w) sk count = Some c
        /\ stat_value (redis_db w') sk count = Some (c + 1)
        /\ stat_value (redis_db w) sk operation = Some b
        /\ stat_value (redis_db w') sk operation = Some (b + len))
  /\ (forall field, field <> count -> field <> operation ->
        redis.hget (redis_db w') sk field = redis.hget (redis_db w) sk field)
  /\ (forall k, k <> key -> k <> sk -> redis_db w' !! k = redis_db w !! k)
  /\ (forall channel' operation',
        is_direction operation' ->
        channel' <> channel \/ operation' <> operation ->
        redis_db w' !! slot_key channel' operation'
        = redis_db w !! slot_key channel' operation')
  /\ (forall w0 : World,
        redis.hget (first_seen w0) key MESSAGE = None ->
        let w1 := after_command w0 (first_seen w0) in
        let w2 :=
          after_command w1
            (redis.hmset (first_seen w1) key
               [(MESSAGE, msg); (PICKUP_TIME, "");
                (POSTED_TIME, asctime (clock w0))]).2 in
        _enqueue tid operation channel msg w0
        = (_ ← _expire key; _update_stats operation msg) w2
        /\ others w2 = tail (tail (others w0))
        /\ redis.hgetall (redis_db w2) key
           = <[POSTED_TIME := asctime (clock w0)]>
               (<[PICKUP_TIME := ""]>
                  (<[MESSAGE := msg]> (redis.hgetall (first_seen w1) key)))).
Proof.
  intros Hop Hq Hrun key sk count len.
  destruct (enqueue_returns tid operation channel msg w w' Hop Hq Hrun)
    as (Hm & c & b & Hc & Hb & Hrc & Hrb & ->).
  fold key sk count len in Hm, Hc, Hb, Hrc, Hrb |- *. wsimpl.
  assert (key <> sk) as Hsk
    by (intros Hk; by apply (stat_key_not_slot (clock w) channel operation)).
  assert (forall k, k <> key -> k <> sk ->
            counter_store
              (counter_store (enqueue_store (redis_db w) (clock w) key msg)
                             sk count (c + 1)) sk operation (b + len) !! k
            = redis_db w !! k) as Hframe.
  { intros k Hk1 Hk2.
    rewrite !lookup_counter_store_other by done.
    by rewrite lookup_enqueue_store_other. }
  assert (forall field,
            redis.hget
              (counter_store
                 (counter_store (enqueue_store (redis_db w) (clock w) key msg)
                                sk count (c + 1)) sk operation (b + len))
              key field
            = redis.hgetall (enqueue_store (redis_db w) (clock w) key msg) key
              !! field) as Hslot.
  { intros field. unfold counter_store.
    rewrite !hget_hmset_other by done. apply hget_hgetall. }
  repeat apply conj.
  - apply map_eq. intros field. rewrite <- hget_hgetall, Hslot.
    by rewrite hgetall_enqueue_store.
  - rewrite Hslot, hgetall_enqueue_store, hget_hgetall.
    by rewrite !lookup_insert_ne.
  - rewrite Hslot, hgetall_enqueue_store, hget_hgetall.
    by rewrite !lookup_insert_ne.
  - exists c, b. repeat apply conj; try done.
    + rewrite stat_value_counter_store_ne
        by (intros E; by apply (count_field_ne operation)).
      by apply stat_value_counter_store.
    + by apply stat_value_counter_store.
  - intros field H1 H2. unfold counter_store.
    rewrite !hget_hmset_1, !decide_False by done.
    by apply hget_enqueue_store_other.
  - done.
  - intros channel' operation' Hop' Hne. apply Hframe.
    + intros E. apply slot_key_inj in E; [|done..]. destruct E; subst. tauto.
    + intros E. by apply (stat_key_not_slot (clock w) channel' operation').
  - intros w0 Hfree. cbv zeta. split; [|split].
    + unfold _enqueue. fold key.
      erewrite bind_returns by apply query_any.
      rewrite hget_hgetall in Hfree.
      rewrite bool_decide_eq_false_2 by (rewrite Hfree; by intros [? ?]).
      rewrite orb_true_r.
      erewrite bind_returns by reflexivity.
      erewrite bind_returns by apply set_key_value_any.
      reflexivity.
    + reflexivity.
    + cbn [after_command redis_db].
      by rewrite hgetall_hmset, decide_True.
Qed.

Lemma enqueue_frame_witness :
  redis.hgetall (redis_db request_held_world) (slot_key "c1" REQUEST)
  = {[ MESSAGE := "{}"; PICKUP_TIME := "";
       POSTED_TIME := "Thu Jan  1 00:00:00 1970" ]}
  /\ redis.hget (redis_db request_held_world) (slot_key "c1" REQUEST) DEQUEUE_BUSY = None
  /\ redis_db request_held_world !! (slot_key "c1" REPLY) = None.
Proof.
  pose proof (enqueue_frame 0 REQUEST "c1" "{}" (world_of ∅)
                request_held_world) as H.
  destruct H as (H1 & H2 & _ & _ & _ & _ & H7 & _).
  - by left.
  - reflexivity.
  - vm_compute. reflexivity.
  - split; [|split].
    + rewrite H1. vm_compute. reflexivity.
    + rewrite H2. reflexivity.
    + rewrite (H7 "c1" REPLY); [reflexivity | by right | right; discriminate].
Defined.

(** ** The producers' handlers *)

Lemma queue_reply_run (request : Request) (channel : string) (w : World) :
  well_formed request channel "text/plain" ->
  queue_reply request w
  = match _enqueue (transaction_id w) REPLY channel (get_data request)
                   (next_transaction w) with
    | (Returns _, w') => (Returns ok_empty, w')
    | (Raises e, w') => (Returns (sys_err_response e), w')
    | (Hangs, w') => (Hangs, w')
    end.
Proof.
  intros (Hch & t & Ht & Hp). unfold queue_reply.
  erewrite bind_returns by reflexivity.
  unfold try_except. rewrite Hch.
  unfold content_type_startswith. rewrite Ht.
  erewrite bind_returns by reflexivity. rewrite Hp.
  unfold mbind, M_bind.
  by destruct (_enqueue _ _ _ _ _) as [[[]|e|] w'].
Qed.

(** The sweep of [queue_request] on the reply slot, run alone. *)
Lemma queue_request_run (request : Request) (channel : string) (w : World) :
  well_formed request channel "application/json" ->
  others w = [] ->
  let reply_key := slot_key channel REPLY in
  let swept :=
    if truthy (redis.hget (redis_db w) reply_key MESSAGE)
    then (redis.hdel (redis_db w) reply_key MESSAGE).2
    else redis_db w in
  queue_request request w
  = match _enqueue (transaction_id w) REQUEST channel (get_data request)
                   (with_db (next_transaction w) swept) with
    | (Returns _, w') => (Returns ok_empty, w')
    | (Raises e, w') => (Returns (sys_err_response e), w')
    | (Hangs, w') => (Hangs, w')
    end.
Proof.
  intros (Hch & t & Ht & Hp) Hq reply_key swept. unfold queue_request.
  erewrite bind_returns by reflexivity.
  unfold try_except. rewrite Hch.
  unfold content_type_startswith. rewrite Ht.
  erewrite bind_returns by reflexivity. rewrite Hp.
  erewrite bind_returns by (by apply query_alone).
  wsimpl. fold reply_key.
  erewrite (bind_returns _ _ _ tt (with_db (next_transaction w) swept)).
  - unfold mbind, M_bind.
    by destruct (_enqueue _ _ _ _ _) as [[[]|e|] w'].
  - subst swept.
    destruct (redis.hget (redis_db w) reply_key MESSAGE) as [m|] eqn:Hm;
      simpl; [destruct (String.eqb m ""); simpl|]; try done.
    rewrite run_del_message by done. wsimpl.
    by rewrite hdel_fst, Hm.
Qed.

(** ** An occupied slot *)

(** C4.  When the slot holds a message, [_enqueue] raises and leaves the
    whole world as it was: the slot, its pending message and the counters
    of the day.  [queue_reply] then answers 500 and changes nothing in the
    store; [queue_request] answers 500 too and changes nothing but the
    reply slot it sweeps first.  In particular, when the world is the one
    an accepted [queue_reply] has left, the slot holds the payload of that
    reply, and the next [queue_reply] on the channel meets the 500 above. *)
Theorem slot_occupied_atomic
    (tid : Z) (operation channel msg : string) (w : World) :
  others w = [] ->
  is_Some (redis.hget (redis_db w) (slot_key channel operation) MESSAGE) ->
  _enqueue tid operation channel msg w
  = (Raises (slot_occupied (slot_key channel operation)), w)
  /\ (forall request,
        operation = REPLY -> well_formed request channel "text/plain" ->
        queue_reply request w
        = (Returns {| response := "Channel " ++ slot_key channel REPLY
                                  ++ " contains unprocessed message";
                      status := 500; response_type := "text/plain" |},
           next_transaction w))
  /\ (forall request,
        operation = REQUEST -> well_formed request channel "application/json" ->
        exists w',
          queue_request request w
          = (Returns {| response := "Channel " ++ slot_key channel REQUEST
                                    ++ " contains unprocessed message";
                        status := 500; response_type := "text/plain" |}, w')
          /\ forall k, k <> slot_key channel REPLY ->
                       redis_db w' !! k = redis_db w !! k)
  /\ (forall first w0,
        operation = REPLY -> others w0 = [] ->
        well_formed first channel "text/plain" ->
        queue_reply first w0 = (Returns ok_empty, w) ->
        redis.hget (redis_db w) (slot_key channel REPLY) MESSAGE
        = Some (get_data first)).
Proof.
  intros Hq Hm.
  split; [by apply enqueue_occupied|].
  split; [|split].
  - intros request -> Hwf. rewrite (queue_reply_run request channel) by done.
    rewrite enqueue_occupied; [done..|]. done.
  - intros request -> Hwf.
    rewrite (queue_request_run request channel) by done.
    set (swept := if truthy _ then _ else _).
    assert (forall k, k <> slot_key channel REPLY ->
                      swept !! k = redis_db w !! k) as Hswept.
    { intros k Hk. subst swept. destruct (truthy _); [|done].
      by apply lookup_hdel_other. }
    rewrite enqueue_occupied; [by eauto|done|]. wsimpl.
    unfold redis.hget in Hm |- *. rewrite Hswept; [done|].
    intros E. apply slot_key_inj in E as [_ E]; [done|by left|by right].
  - intros first w0 -> Hq0 Hwf Hrun. clear Hm Hq.
    rewrite (queue_reply_run first channel) in Hrun by done.
    destruct (_enqueue _ _ _ _ _) as [[[]|e|] w1] eqn:E; try done.
    injection Hrun as <-.
    apply enqueue_returns in E as (_ & c & b & _ & _ & _ & _ & ->);
      [|by right|done].
    wsimpl. unfold counter_store. rewrite !hget_hmset_other.
    + rewrite hget_hgetall, hgetall_enqueue_store.
      rewrite lookup_insert_ne by done. rewrite lookup_insert_ne by done.
      by rewrite lookup_insert_eq.
    + intros Hk. by apply (stat_key_not_slot (clock w0) channel REPLY);
        [right|].
    + intros Hk. by apply (stat_key_not_slot (clock w0) channel REPLY);
        [right|].
Qed.

Lemma slot_occupied_atomic_witness :
  queue_reply (request_on "c5" "text/plain" "B") reply_held_world
  = (Returns {| response := "Channel c5:reply contains unprocessed message";
                status := 500; response_type := "text/plain" |},
     next_transaction reply_held_world).
Proof.
  refine (proj1 (proj2 (slot_occupied_atomic 0 REPLY "c5" "B"
                          reply_held_world _ _)) _ eq_refl _).
  - reflexivity.
  - exists "A". vm_compute. reflexivity.
  - split; [reflexivity|]. exists "text/plain". split; reflexivity.
Defined.

(** ** The stores of a dequeue *)

Lemma hget_hmset_2 (db : Redis) (key f1 v1 f2 v2 field : string) :
  redis.hget (redis.hmset db key [(f1, v1); (f2, v2)]).2 key field
  = if decide (f2 = field) then Some v2
    else if decide (f1 = field) then Some v1
    else redis.hget db key field.
Proof.
  rewrite !hget_hgetall, hgetall_hmset, decide_True by done. simpl.
  repeat case_decide; subst;
    rewrite ?lookup_insert_eq, ?lookup_insert_ne by done; try done.
  by rewrite lookup_insert_eq.
Qed.

Lemma hgetall_entry_store (db : Redis) (now : Q) (key : string) (reset : bool) :
  redis.hgetall (entry_store db now key reset) key
  = <[PICKUP_TIME := ""]>
      ((if reset then delete MESSAGE else id)
         (<[DEQUEUE_BUSY := DEQUEUE_BUSY_STATUS]> (redis.hgetall db key))).
Proof.
  unfold entry_store. rewrite hgetall_expire, hgetall_hmset, decide_True by done.
  cbn [foldl fst snd]. f_equal. destruct reset.
  - by rewrite hgetall_hdel, decide_True, hgetall_hmset, decide_True.
  - by rewrite hgetall_hmset, decide_True.
Qed.

Lemma entry_store_is_Some (db : Redis) (now : Q) (key : string) (reset : bool) :
  is_Some (entry_store db now key reset !! key).
Proof. unfold entry_store. apply expire_is_Some, hmset_is_Some. Qed.

Lemma lookup_entry_store_other (db : Redis) now (key key' : string) reset :
  key <> key' -> entry_store db now key reset !! key' = db !! key'.
Proof.
  intros H. unfold entry_store.
  rewrite lookup_expire_other, lookup_hmset_other by done.
  destruct reset.
  - by rewrite lookup_hdel_other, lookup_hmset_other.
  - by rewrite lookup_hmset_other.
Qed.

Lemma ttl_entry_store (db : Redis) (now : Q) (key : string) (reset : bool) :
  ttl_deadline (entry_store db now key reset) key = Some (now + EXPIRE_SECS)%Q.
Proof. unfold entry_store. apply ttl_expire, hmset_is_Some. Qed.

Lemma hget_entry_store_message (db : Redis) now (key : string) (reset : bool) :
  redis.hget (entry_store db now key reset) key MESSAGE
  = if reset then None else redis.hget db key MESSAGE.
Proof.
  rewrite !hget_hgetall, hgetall_entry_store.
  rewrite lookup_insert_ne by done. destruct reset; simpl.
  - by rewrite lookup_delete_eq.
  - by rewrite lookup_insert_ne.
Qed.

Lemma hget_entry_store_counter (db : Redis) now (key : string) (reset : bool) :
  redis.hget (entry_store db now key reset) key REPLY_FAST_POLLS_LEFT
  = redis.hget db key REPLY_FAST_POLLS_LEFT.
Proof.
  rewrite !hget_hgetall, hgetall_entry_store.
  rewrite lookup_insert_ne by done. destruct reset; simpl.
  - rewrite lookup_delete_ne by done. by rewrite lookup_insert_ne.
  - by rewrite lookup_insert_ne.
Qed.

Lemma hget_cadence_store_ne (db : Redis) (key : string) (n : Z) (field : string) :
  field <> REPLY_FAST_POLLS_LEFT ->
  redis.hget (cadence_store db key n) key field = redis.hget db key field.
Proof.
  intros H. unfold cadence_store. destruct (0 <? n); [|done].
  by rewrite hget_hmset_1, decide_False.
Qed.

Lemma hget_cadence_store_counter (db : Redis) (key : string) (n : Z) :
  redis.hget (cadence_store db key n) key REPLY_FAST_POLLS_LEFT
  = if 0 <? n then Some (str_of_int (n - 1))
    else redis.hget db key REPLY_FAST_POLLS_LEFT.
Proof.
  unfold cadence_store. destruct (0 <? n); [|done].
  by rewrite hget_hmset_1, decide_True.
Qed.

Lemma lookup_cadence_store_other (db : Redis) (key key' : string) (n : Z) :
  key <> key' -> cadence_store db key n !! key' = db !! key'.
Proof.
  intros H. unfold cadence_store. destruct (0 <? n); [|done].
  by apply lookup_hmset_other.
Qed.

Lemma ttl_cadence_store (db : Redis) (key key' : string) (n : Z) :
  ttl_deadline (cadence_store db key n) key' = ttl_deadline db key'.
Proof.
  unfold cadence_store. destruct (0 <? n); [|done]. apply ttl_hmset.
Qed.

Lemma hget_exit_store (db : Redis) (key field : string) :
  redis.hget (exit_store db key) key field
  = if decide (DEQUEUE_BUSY = field) then Some DEQUEUE_IDLE_STATUS
    else redis.hget db key field.
Proof. apply hget_hmset_1. Qed.

Lemma reader_free_py_or (db : Redis) (key : string) :
  reader_free db key ->
  String.eqb (py_or (redis.hget db key DEQUEUE_BUSY) DEQUEUE_IDLE_STATUS)
             DEQUEUE_BUSY_STATUS = false.
Proof.
  unfold reader_free. intros H.
  destruct (redis.hget db key DEQUEUE_BUSY) as [s|]; simpl; [|done].
  destruct (String.eqb_spec s ""); [done|].
  apply String.eqb_neq. congruence.
Qed.

(** ** The polling loop *)

Lemma slept_eq (n : nat) (secs now : Q) :
  (slept n secs now == now + inject_Z (Z.of_nat n) * secs)%Q.
Proof.
  unfold slept. induction n as [|n IH].
  - simpl. change (inject_Z (Z.of_nat 0)) with 0%Q. lra.
  - rewrite Nat.iter_succ, IH, Nat2Z.inj_succ. unfold Z.succ.
    rewrite inject_Z_plus. change (inject_Z 1) with 1%Q. lra.
Qed.

Lemma poll_present (fuel : nat) (key : string) (secs : Q) (m : string)
    (left : Q) (w : World) :
  _dequeue_poll fuel key secs (Some m) left w = (Returns (Some m), w).
Proof. by destruct fuel. Qed.

Lemma time_sleep_run (secs : Q) (w : World) :
  (0 <= secs)%Q ->
  time_sleep secs w = (Returns tt, at_clock w (clock w + secs)%Q).
Proof.
  intros H. unfold time_sleep. destruct (Qlt_le_dec secs 0); [lra|done].
Qed.

(** Alone on a slot without message, the loop sleeps until the time is
    up: the least number of rounds that covers the time left. *)
Lemma poll_idle (fuel : nat) (key : string) (secs left : Q) (w : World) :
  others w = [] ->
  redis.hget (redis_db w) key MESSAGE = None ->
  (0 < secs)%Q ->
  (left <= inject_Z (Z.of_nat fuel) * secs)%Q ->
  exists n : nat,
    _dequeue_poll fuel key secs None left w
    = (Returns None, at_clock w (slept n secs (clock w)))
    /\ (n <= fuel)%nat
    /\ (left <= 0 -> n = 0%nat)%Q
    /\ (0 < left -> inject_Z (Z.of_nat n) * secs < left + secs)%Q
    /\ (left <= inject_Z (Z.of_nat n) * secs)%Q.
Proof.
  intros Hq Hm Hs. revert left w Hq Hm.
  induction fuel as [|fuel IH]; intros left w Hq Hm Hf.
  - exists 0%nat. change (inject_Z (Z.of_nat 0)) with 0%Q in *.
    simpl. destruct (Qlt_le_dec 0 left) as [Hl|Hl]; [lra|].
    repeat split; [by destruct w|lia|lra|lra].
  - cbn [_dequeue_poll]. destruct (Qlt_le_dec 0 left) as [Hl|Hl].
    + rewrite Nat2Z.inj_succ in Hf. unfold Z.succ in Hf.
      rewrite inject_Z_plus in Hf. change (inject_Z 1) with 1%Q in Hf.
      destruct (IH (left - secs)%Q (at_clock w (clock w + secs)%Q))
        as (n & Hrun & Hn & Hz & Hub & Hlb); [done|done|lra|].
      exists (S n).
      erewrite bind_returns by (apply time_sleep_run; lra).
      erewrite bind_returns by (by apply query_alone). wsimpl.
      rewrite Hm, Hrun. wsimpl.
      rewrite Nat2Z.inj_succ. unfold Z.succ.
      rewrite inject_Z_plus. change (inject_Z 1) with 1%Q.
      repeat split.
      * unfold slept. by rewrite Nat.iter_succ_r.
      * lia.
      * lra.
      * intros _. destruct (Qlt_le_dec 0 (left - secs)) as [Hp|Hp].
        -- specialize (Hub Hp). lra.
        -- rewrite (Hz Hp). change (inject_Z (Z.of_nat 0)) with 0%Q. lra.
      * lra.
    + exists 0%nat. change (inject_Z (Z.of_nat 0)) with 0%Q.
      repeat split; [by destruct w|lia|lra|lra].
Qed.

(** ** Dequeue, run alone *)

Lemma cadence_alone (cfg : Config) (key : string) (w : World) (n : Z) :
  others w = [] ->
  fast_polls_left_of cfg (redis_db w) key = Some n ->
  _dequeue_cadence cfg key w
  = (Returns (if 0 <? n then n - 1 else n, cadence_secs cfg n),
     with_db w (cadence_store (redis_db w) key n)).
Proof.
  intros Hq Hn. unfold _dequeue_cadence, fast_polls_left_of in *.
  erewrite bind_returns by (by apply query_alone).
  erewrite (bind_returns _ _ _ n w).
  - unfold cadence_secs, cadence_store. destruct (0 <? n).
    + erewrite bind_returns by (by apply run_set_key_value). done.
    + by rewrite with_db_same.
  - destruct (redis.hget _ _ _) as [b|]; [|by injection Hn as ->].
    by rewrite Hn.
Qed.

Lemma cadence_no_number (cfg : Config) (key : string) (w : World) :
  others w = [] ->
  fast_polls_left_of cfg (redis_db w) key = None ->
  exists msg, _dequeue_cadence cfg key w = (Raises (ValueError msg), w).
Proof.
  intros Hq Hn. unfold _dequeue_cadence, fast_polls_left_of in *.
  destruct (redis.hget _ _ _) as [b|] eqn:Hb; [|done].
  eexists. erewrite bind_returns by (by apply query_alone).
  erewrite bind_raises; [done|]. by rewrite Hb, Hn.
Qed.

(** The first statements of the [try] body of a reader that finds the
    interlock free; what follows them runs on the store they leave. *)
Lemma dequeue_try_entry (cfg : Config) (fuel : nat) (key : string)
    (reset_first : bool) (w : World) :
  others w = [] ->
  reader_free (redis_db w) key ->
  _dequeue_try cfg fuel key reset_first w
  = ('(_, dequeue_polling_secs) ← _dequeue_cadence cfg key;
     message ← query (fun db => redis.hget db key MESSAGE);
     message ← _dequeue_poll fuel key dequeue_polling_secs message
                             (DEQUEUE_TIMEOUT_SECS cfg);
     if truthy message then
       _ ← _del_message key false;
       now ← time_now;
       _ ← _set_key_value key
             [(PICKUP_TIME, asctime now);
              (REPLY_FAST_POLLS_LEFT,
               str_of_int (ALLOWED_FAST_DEQUEUE_POLLS cfg))];
       mret (message, true)
     else
       mret (message, true))
      (with_db w (entry_store (redis_db w) (clock w) key reset_first)).
Proof.
  intros Hq Hfree. unfold _dequeue_try.
  erewrite bind_returns by (by apply query_alone).
  rewrite reader_free_py_or by done.
  erewrite bind_returns by (by apply run_set_key_value).
  erewrite (bind_returns _ _ _ tt
              (with_db w
                 (if reset_first
                  then (redis.hdel
                          (redis.hmset (redis_db w) key
                             [(DEQUEUE_BUSY, DEQUEUE_BUSY_STATUS)]).2
                          key MESSAGE).2
                  else (redis.hmset (redis_db w) key
                          [(DEQUEUE_BUSY, DEQUEUE_BUSY_STATUS)]).2))).
  2:{ destruct reset_first; [|done].
      rewrite run_del_message by done. wsimpl.
      by rewrite andb_false_r. }
  erewrite bind_returns by (by apply run_set_key_value). wsimpl.
  erewrite bind_returns.
  2:{ rewrite run_expire by done. wsimpl. rewrite expire_fst.
      rewrite bool_decide_eq_true_2 by apply hmset_is_Some. reflexivity. }
  reflexivity.
Qed.

(** A message that waits in the slot is consumed at once. *)
Lemma dequeue_try_consume (cfg : Config) (fuel : nat) (key : string)
    (w : World) (n : Z) (m : string) :
  others w = [] ->
  reader_free (redis_db w) key ->
  fast_polls_left_of cfg (redis_db w) key = Some n ->
  redis.hget (redis_db w) key MESSAGE = Some m -> m <> "" ->
  _dequeue_try cfg fuel key false w
  = (Returns (Some m, true),
     with_db w
       (consume_store cfg
          (cadence_store (entry_store (redis_db w) (clock w) key false) key n)
          (clock w) key)).
Proof.
  intros Hq Hfree Hn Hm Hne. rewrite dequeue_try_entry by done.
  erewrite bind_returns.
  2:{ apply cadence_alone; [done|]. wsimpl. unfold fast_polls_left_of in *.
      by rewrite hget_entry_store_counter. }
  cbv beta iota. wsimpl.
  erewrite bind_returns by (by apply query_alone). wsimpl.
  rewrite hget_cadence_store_ne, hget_entry_store_message, Hm by done.
  erewrite bind_returns by apply poll_present.
  assert (truthy (Some m) = true) as ->.
  { simpl. by destruct (String.eqb_spec m ""). }
  erewrite bind_returns.
  2:{ rewrite run_del_message by done. wsimpl.
      rewrite hdel_fst, hget_cadence_store_ne, hget_entry_store_message, Hm
        by done.
      reflexivity. }
  erewrite bind_returns by reflexivity.
  erewrite bind_returns by (by apply run_set_key_value).
  reflexivity.
Qed.

(** An empty message that waits in the slot is returned and left there. *)
Lemma dequeue_try_empty_message (cfg : Config) (fuel : nat) (key : string)
    (w : World) (n : Z) :
  others w = [] ->
  reader_free (redis_db w) key ->
  fast_polls_left_of cfg (redis_db w) key = Some n ->
  redis.hget (redis_db w) key MESSAGE = Some "" ->
  _dequeue_try cfg fuel key false w
  = (Returns (Some "", true),
     with_db w
       (cadence_store (entry_store (redis_db w) (clock w) key false) key n)).
Proof.
  intros Hq Hfree Hn Hm. rewrite dequeue_try_entry by done.
  erewrite bind_returns.
  2:{ apply cadence_alone; [done|]. wsimpl. unfold fast_polls_left_of in *.
      by rewrite hget_entry_store_counter. }
  cbv beta iota. wsimpl.
  erewrite bind_returns by (by apply query_alone). wsimpl.
  rewrite hget_cadence_store_ne, hget_entry_store_message, Hm by done.
  erewrite bind_returns by apply poll_present.
  reflexivity.
Qed.

(** Without a message the reader sleeps at the cadence chosen until the
    time is up. *)
Lemma dequeue_try_timeout (cfg : Config) (fuel : nat) (key : string)
    (reset_first : bool) (w : World) (n : Z) :
  others w = [] ->
  reader_free (redis_db w) key ->
  fast_polls_left_of cfg (redis_db w) key = Some n ->
  (if reset_first then True else redis.hget (redis_db w) key MESSAGE = None) ->
  (0 < cadence_secs cfg n)%Q ->
  (DEQUEUE_TIMEOUT_SECS cfg
   <= inject_Z (Z.of_nat fuel) * cadence_secs cfg n)%Q ->
  exists rounds : nat,
    _dequeue_try cfg fuel key reset_first w
    = (Returns (None, true),
       at_clock
         (with_db w
            (cadence_store
               (entry_store (redis_db w) (clock w) key reset_first) key n))
         (slept rounds (cadence_secs cfg n) (clock w)))
    /\ (DEQUEUE_TIMEOUT_SECS cfg <= 0 -> rounds = 0%nat)%Q
    /\ (0 < DEQUEUE_TIMEOUT_SECS cfg ->
        inject_Z (Z.of_nat rounds) * cadence_secs cfg n
        < DEQUEUE_TIMEOUT_SECS cfg + cadence_secs cfg n)%Q
    /\ (DEQUEUE_TIMEOUT_SECS cfg
        <= inject_Z (Z.of_nat rounds) * cadence_secs cfg n)%Q.
Proof.
  intros Hq Hfree Hn Hm Hs Hf.
  set (db := cadence_store
               (entry_store (redis_db w) (clock w) key reset_first) key n).
  assert (redis.hget db key MESSAGE = None) as Hnone.
  { subst db. rewrite hget_cadence_store_ne, hget_entry_store_message by done.
    by destruct reset_first. }
  destruct (poll_idle fuel key (cadence_secs cfg n) (DEQUEUE_TIMEOUT_SECS cfg)
              (with_db w db)) as (rounds & Hrun & _ & Hz & Hub & Hlb);
    [done..|].
  exists rounds. split; [|done].
  rewrite dequeue_try_entry by done.
  erewrite bind_returns.
  2:{ apply cadence_alone; [done|]. wsimpl. unfold fast_polls_left_of in *.
      by rewrite hget_entry_store_counter. }
  cbv beta iota. wsimpl. fold db.
  erewrite bind_returns by (by apply query_alone). wsimpl.
  rewrite Hnone.
  erewrite bind_returns by exact Hrun.
  reflexivity.
Qed.

Lemma valid_reader_returns (m : option string) :
  valid_reader_at_exit (Returns (m, true)) = true.
Proof. done. Qed.

(** The [finally] clause of a reader that took the interlock, run alone. *)
Lemma dequeue_exit (cfg : Config) (fuel : nat) (tid : Z)
    (operation channel : string) (reset_first : bool) (w w1 : World)
    (r : outcome (option string * bool)) :
  _dequeue_try cfg fuel (slot_key channel operation) reset_first w = (r, w1) ->
  others w1 = [] ->
  r <> Hangs -> valid_reader_at_exit r = true ->
  _dequeue cfg fuel tid operation channel reset_first w
  = (r, with_db w1 (exit_store (redis_db w1) (slot_key channel operation))).
Proof.
  intros Htry Hq Hr Hv. unfold _dequeue, try_finally. rewrite Htry, Hv.
  rewrite run_set_key_value by done.
  by destruct r as [a|e|].
Qed.

Lemma hget_enqueued_slot (db : Redis) (now : Q) (key msg : string)
    (sk f1 f2 : string) (z1 z2 : Z) (field : string) :
  key <> sk ->
  redis.hget
    (counter_store (counter_store (enqueue_store db now key msg) sk f1 z1)
                   sk f2 z2) key field
  = redis.hgetall (enqueue_store db now key msg) key !! field.
Proof.
  intros H. unfold counter_store.
  rewrite !hget_hmset_other by done. apply hget_hgetall.
Qed.

(** The fields of its slot a successful [_enqueue], run alone, leaves. *)
Lemma enqueue_slot_fields (tid : Z) (operation channel msg : string)
    (w w' : World) :
  is_direction operation -> others w = [] ->
  _enqueue tid operation channel msg w = (Returns tt, w') ->
  let key := slot_key channel operation in
  others w' = [] /\ clock w' = clock w
  /\ redis.hget (redis_db w') key MESSAGE = Some msg
  /\ redis.hget (redis_db w') key DEQUEUE_BUSY
     = redis.hget (redis_db w) key DEQUEUE_BUSY
  /\ redis.hget (redis_db w') key REPLY_FAST_POLLS_LEFT
     = redis.hget (redis_db w) key REPLY_FAST_POLLS_LEFT
  /\ ttl_deadline (redis_db w') key = Some (clock w + EXPIRE_SECS)%Q.
Proof.
  intros Hop Hq Hrun key.
  destruct (enqueue_returns tid operation channel msg w w' Hop Hq Hrun)
    as (Hm & c & b & Hc & Hb & Hrc & Hrb & ->).
  fold key. wsimpl.
  assert (key <> stat_key (clock w)) as Hsk
    by (intros Hk; by apply (stat_key_not_slot (clock w) channel operation)).
  rewrite !hget_enqueued_slot, hgetall_enqueue_store by done.
  unfold counter_store. rewrite !ttl_hmset, ttl_enqueue_store.
  rewrite !hget_hgetall.
  repeat split; try done.
  - rewrite lookup_insert_ne by done. rewrite lookup_insert_ne by done.
    by rewrite lookup_insert_eq.
  - by rewrite !lookup_insert_ne.
  - by rewrite !lookup_insert_ne.
Qed.

(** ** Round trips *)

(** A payload that is not empty comes back from the next dequeue as it was
    enqueued, and the slot is empty afterwards. *)
Lemma round_trip_nonempty (cfg : Config) (fuel : nat) (tid tid' : Z)
    (operation channel p : string) (w w1 : World) (n : Z) :
  is_direction operation -> others w = [] ->
  _enqueue tid operation channel p w = (Returns tt, w1) ->
  reader_free (redis_db w1) (slot_key channel operation) ->
  fast_polls_left_of cfg (redis_db w1) (slot_key channel operation) = Some n ->
  p <> "" ->
  exists w2,
    _dequeue cfg fuel tid' operation channel false w1
    = (Returns (Some p, true), w2)
    /\ redis.hget (redis_db w2) (slot_key channel operation) MESSAGE = None
    /\ redis.hget (redis_db w2) (slot_key channel operation) DEQUEUE_BUSY
       = Some DEQUEUE_IDLE_STATUS.
Proof.
  intros Hop Hq Hrun Hfree Hn Hp.
  destruct (enqueue_slot_fields _ _ _ _ _ _ Hop Hq Hrun)
    as (Hq1 & _ & Hm & _).
  eexists. split.
  - eapply dequeue_exit; [by eapply dequeue_try_consume|done..].
  - wsimpl. rewrite !hget_exit_store, decide_False, decide_True by done.
    split; [|done].
    unfold consume_store. rewrite hget_hmset_2, !decide_False by done.
    apply hget_hdel_same.
Qed.

Lemma dequeue_handler_run (operation : string) (cfg : Config) (fuel : nat)
    (request : Request) (channel : string) (w : World) :
  args_get (args request) "channel" = Some channel ->
  dequeue_handler operation cfg fuel request w
  = match _dequeue cfg fuel (transaction_id w) operation channel
                   (args_has (args request) "reset") (next_transaction w) with
    | (Returns result, w') => (Returns (dequeue_response result), w')
    | (Raises e, w') => (Returns (sys_err_response e), w')
    | (Hangs, w') => (Hangs, w')
    end.
Proof.
  intros Hch. unfold dequeue_handler.
  erewrite bind_returns by reflexivity.
  unfold try_except. rewrite Hch. unfold mbind, M_bind.
  by destruct (_dequeue _ _ _ _ _ _ _) as [[[[m|] [|]]|e|] w'].
Qed.

(** C1, on the empty payload.  An empty payload is enqueued like any other,
    and the next dequeue of a free reader returns it as [(b'', True)], but
    the test [if message:] takes it for no message: the [message] field is
    still in the slot afterwards, and every later enqueue on the slot is
    refused. *)
Theorem empty_payload_stays_in_slot
    (cfg : Config) (fuel : nat) (tid tid' : Z) (operation channel : string)
    (w w1 : World) (n : Z) :
  is_direction operation -> others w = [] ->
  _enqueue tid operation channel "" w = (Returns tt, w1) ->
  reader_free (redis_db w1) (slot_key channel operation) ->
  fast_polls_left_of cfg (redis_db w1) (slot_key channel operation) = Some n ->
  exists w2,
    _dequeue cfg fuel tid' operation channel false w1
    = (Returns (Some "", true), w2)
    /\ redis.hget (redis_db w2) (slot_key channel operation) MESSAGE = Some ""
    /\ forall tid'' p,
         _enqueue tid'' operation channel p w2
         = (Raises (slot_occupied (slot_key channel operation)), w2).
Proof.
  intros Hop Hq Hrun Hfree Hn.
  destruct (enqueue_slot_fields _ _ _ _ _ _ Hop Hq Hrun)
    as (Hq1 & _ & Hm & _).
  eexists. split.
  { eapply dequeue_exit; [by eapply dequeue_try_empty_message|done..]. }
  wsimpl.
  assert (redis.hget
            (exit_store
               (cadence_store
                  (entry_store (redis_db w1) (clock w1)
                               (slot_key channel operation) false)
                  (slot_key channel operation) n)
               (slot_key channel operation))
            (slot_key channel operation) MESSAGE = Some "") as Hstay.
  { rewrite hget_exit_store, decide_False by done.
    by rewrite hget_cadence_store_ne, hget_entry_store_message. }
  split; [done|].
  intros tid'' p. apply enqueue_occupied; [done|]. wsimpl.
  rewrite Hstay. eauto.
Qed.

Lemma empty_payload_stays_in_slot_witness :
  exists w2,
    _dequeue default_config 0 1 REPLY "c6" false empty_reply_world
    = (Returns (Some "", true), w2)
    /\ redis.hget (redis_db w2) (slot_key "c6" REPLY) MESSAGE = Some ""
    /\ forall tid'' p,
         _enqueue tid'' REPLY "c6" p w2
         = (Raises (slot_occupied (slot_key "c6" REPLY)), w2).
Proof.
  apply (empty_payload_stays_in_slot default_config 0 0 1 REPLY "c6"
           (next_transaction (world_of ∅)) empty_reply_world 10).
  - by right.
  - reflexivity.
  - vm_compute. reflexivity.
  - vm_compute. discriminate.
  - vm_compute. reflexivity.
Defined.

(** ** Programs among other clients *)

Section among_others.

Lemma never_hangs_ret {A} (a : A) : never_hangs (mret a).
Proof. by intros w. Qed.

Lemma never_hangs_raise {A} (e : exn) : never_hangs (@raise A e).
Proof. by intros w. Qed.

Lemma never_hangs_command {A} (f : Redis -> Q -> A * Redis) :
never_hangs (command f).
Proof. intros w. unfold command. by destruct (f _ _). Qed.

Lemma never_hangs_time_now : never_hangs time_now.
Proof. by intros w. Qed.

Lemma never_hangs_bind {A B} (m : M A) (k : A -> M B) (P : A -> Prop) :
never_hangs m -> returns_only m P ->
(forall a, P a -> never_hangs (k a)) ->
never_hangs (m ≫= k).
Proof.
intros Hm HP Hk w. unfold mbind, M_bind.
specialize (Hm w). destruct (m w) as [[a|e|] w'] eqn:E; simpl in *.
- apply Hk. by eapply HP.
- done.
- done.
Qed.

Lemma returns_only_True {A} (m : M A) : returns_only m (fun _ => True).
Proof. by intros w a w' _. Qed.

Lemma returns_only_ret {A} (a : A) (P : A -> Prop) :
P a -> returns_only (mret a) P.
Proof. intros H w a' w' [= <- _]. done. Qed.

Lemma returns_only_raise {A} (e : exn) (P : A -> Prop) :
returns_only (raise e) P.
Proof. by intros w a w'. Qed.

Lemma returns_only_bind {A B} (m : M A) (k : A -> M B) (P : B -> Prop) :
(forall a, returns_only (k a) P) -> returns_only (m ≫= k) P.
Proof.
intros Hk w b w'. unfold mbind, M_bind.
destruct (m w) as [[a|e|] w1]; [|done..]. apply Hk.
Qed.

Lemma never_hangs_then {A B} (m : M A) (k : A -> M B) :
never_hangs m -> (forall a, never_hangs (k a)) -> never_hangs (m ≫= k).
Proof.
intros Hm Hk.
apply (never_hangs_bind m k (fun _ => True));
auto using returns_only_True.
Qed.

Lemma never_hangs_set_key_value key value :
never_hangs (_set_key_value key value).
Proof.
apply never_hangs_then; [apply never_hangs_command|].
intros []; [apply never_hangs_ret | apply never_hangs_raise].
Qed.

Lemma never_hangs_del_message key permissive :
never_hangs (_del_message key permissive).
Proof.
apply never_hangs_then; [apply never_hangs_command|].
intros n. destruct (_ && _); [apply never_hangs_raise | apply never_hangs_ret].
Qed.

Lemma never_hangs_expire key : never_hangs (_expire key).
Proof.
apply never_hangs_then; [apply never_hangs_command|].
intros []; [apply never_hangs_ret | apply never_hangs_raise].
Qed.

(** The interval chosen is one of the two configured. *)
Lemma cadence_interval cfg key :
returns_only (_dequeue_cadence cfg key)
(fun r => r.2 = FAST_DEQUEUE_POLLING_SECS cfg
          \/ r.2 = SLOW_DEQUEUE_POLLING_SECS cfg).
Proof.
apply returns_only_bind. intros o.
apply returns_only_bind. intros n.
destruct (0 <? n).
- apply returns_only_bind. intros _. apply returns_only_ret. by left.
- apply returns_only_ret. by right.
Qed.

Lemma enough_fuel_covers cfg fuel secs :
(0 < FAST_DEQUEUE_POLLING_SECS cfg)%Q ->
(0 < SLOW_DEQUEUE_POLLING_SECS cfg)%Q ->
(enough_fuel cfg <= fuel)%nat ->
secs = FAST_DEQUEUE_POLLING_SECS cfg \/ secs = SLOW_DEQUEUE_POLLING_SECS cfg ->
(DEQUEUE_TIMEOUT_SECS cfg <= inject_Z (Z.of_nat fuel) * secs)%Q.
Proof.
intros Hfast Hslow Hfuel Hsecs. unfold enough_fuel in Hfuel.
set (T := DEQUEUE_TIMEOUT_SECS cfg) in *.
assert (0 < secs)%Q as Hs by (by destruct Hsecs as [-> | ->]).
assert (Qceiling (T / secs) <= Z.of_nat fuel)%Z as Hc.
{ destruct Hsecs as [-> | ->]; lia. }
assert (T / secs <= inject_Z (Z.of_nat fuel))%Q as Hd.
{ eapply Qle_trans; [apply Qle_ceiling|]. by rewrite <- Zle_Qle. }
apply (Qmult_le_compat_r _ _ secs) in Hd; [|lra].
assert (T / secs * secs == T)%Q as E by (field; lra).
by rewrite E in Hd.
Qed.

End among_others.

(** ** The interlock *)

(** A reader that finds the interlock free leaves the [try] body with
    [valid_reader] true, however the body ends. *)
Lemma dequeue_try_valid cfg fuel key reset_first w r w' :
  reader_free (first_seen w) key ->
  _dequeue_try cfg fuel key reset_first w = (r, w') ->
  valid_reader_at_exit r = true.
Proof.
  intros Hfree Hrun. destruct r as [[m vr]|e|]; [|done..]. simpl.
  revert Hrun. unfold _dequeue_try.
  erewrite bind_returns by apply query_any.
  rewrite reader_free_py_or by done.
  revert w'. generalize (after_command w (first_seen w)). revert m vr.
  assert (returns_only
            (_ ← _set_key_value key [(DEQUEUE_BUSY, DEQUEUE_BUSY_STATUS)];
             _ ← (if reset_first then _del_message key true else mret tt);
             _ ← _set_key_value key [(PICKUP_TIME, "")];
             _ ← _expire key;
             '(_, dequeue_polling_secs) ← _dequeue_cadence cfg key;
             message ← query (fun db => redis.hget db key MESSAGE);
             message ← _dequeue_poll fuel key dequeue_polling_secs message
                                     (DEQUEUE_TIMEOUT_SECS cfg);
             if truthy message then
               _ ← _del_message key false;
               now ← time_now;
               _ ← _set_key_value key
                     [(PICKUP_TIME, asctime now);
                      (REPLY_FAST_POLLS_LEFT,
                       str_of_int (ALLOWED_FAST_DEQUEUE_POLLS cfg))];
               mret (message, true)
             else
               mret (message, true))
            (fun r => r.2 = true)) as H.
  { do 4 (apply returns_only_bind; intros _).
    apply returns_only_bind. intros [n secs].
    do 2 (apply returns_only_bind; intros ?).
    destruct (truthy _); [|by apply returns_only_ret].
    do 3 (apply returns_only_bind; intros ?). by apply returns_only_ret. }
  intros m vr w1 w2 Hrun. by apply (H w1 (m, vr) w2).
Qed.

(** C3.  Every execution of [_dequeue] that finds the interlock free
    leaves the [dequeue_busy] field of the slot idle when it ends,
    whatever the settings, whatever the rounds granted to the polling
    loop, and whatever the other clients of the store do between its
    commands.  It ends in one of three ways: it returns a message, it
    returns none after its time is up, or it raises, the last also when
    the exception comes from the store or from the sleep.  In each of them
    the last command was the write of the [finally] clause, so the field
    holds [idle] in the store the call leaves.  A run that is still
    polling when its rounds are used up has not ended. *)
Theorem interlock_released
    (cfg : Config) (fuel : nat) (tid : Z) (operation channel : string)
    (reset_first : bool) (w : World) (r : outcome (option string * bool))
    (w' : World) :
  reader_free (first_seen w) (slot_key channel operation) ->
  _dequeue cfg fuel tid operation channel reset_first w = (r, w') ->
  r <> Hangs ->
  ((exists message, r = Returns (Some message, true))
   \/ r = Returns (None, true)
   \/ exists e, r = Raises e)
  /\ redis.hget (redis_db w') (slot_key channel operation) DEQUEUE_BUSY
     = Some DEQUEUE_IDLE_STATUS.
Proof.
  intros Hfree Hrun Hends.
  set (key := slot_key channel operation) in *.
  destruct (_dequeue_try cfg fuel key reset_first w) as [r1 w1] eqn:Htry.
  pose proof (dequeue_try_valid _ _ _ _ _ _ _ Hfree Htry) as Hvalid.
  unfold _dequeue, try_finally in Hrun. fold key in Hrun.
  rewrite Htry, Hvalid, set_key_value_any in Hrun.
  assert (r = r1
          /\ w' = after_command w1
                    (redis.hmset (first_seen w1) key
                       [(DEQUEUE_BUSY, DEQUEUE_IDLE_STATUS)]).2) as [-> ->].
  { destruct r1 as [a|e|]; by inversion Hrun. }
  split.
  - destruct r1 as [[[m|] vr]|e|]; simpl in Hvalid; subst; eauto. done.
  - cbn [after_command redis_db]. by rewrite hget_hmset_1, decide_True.
Qed.

(** The three ways out of a call: a message that arrives during the third
    sleep, the time limit of a reader that looks every hour for two hours,
    and a key that another client removes before the [EXPIRE]. *)
Example dequeue_exits :
  (_dequeue default_config 150 0 REQUEST "c7" false late_message_world).1
  = Returns (Some "hello", true)
  /\ (_dequeue patient_config 2 0 REQUEST "c7" false (world_of ∅)).1
     = Returns (None, true)
  /\ (_dequeue default_config 150 0 REQUEST "c7" false key_lost_world).1
     = Raises (Exception "redis failed expiring c7:request").
Proof. repeat split; vm_compute; reflexivity. Qed.

Lemma interlock_released_witness :
  (_dequeue default_config 0 0 REQUEST "c7" false key_lost_world).1
  = Raises (Exception "redis failed expiring c7:request")
  /\ redis.hget
       (redis_db (_dequeue default_config 0 0 REQUEST "c7" false
                    key_lost_world).2)
       (slot_key "c7" REQUEST) DEQUEUE_BUSY
     = Some DEQUEUE_IDLE_STATUS.
Proof.
  split; [vm_compute; reflexivity|].
  refine (proj2 (interlock_released default_config 0 0 REQUEST "c7" false
                   key_lost_world
                   (_dequeue default_config 0 0 REQUEST "c7" false
                      key_lost_world).1
                   (_dequeue default_config 0 0 REQUEST "c7" false
                      key_lost_world).2 _ _ _)).
  - vm_compute. discriminate.
  - apply surjective_pairing.
  - vm_compute. discriminate.
Defined.

(** ** Whole calls of dequeue, run alone *)

Lemma dequeue_consume (cfg : Config) (fuel : nat) (tid : Z)
    (operation channel : string) (w : World) (n : Z) (m : string) :
  let key := slot_key channel operation in
  others w = [] ->
  reader_free (redis_db w) key ->
  fast_polls_left_of cfg (redis_db w) key = Some n ->
  redis.hget (redis_db w) key MESSAGE = Some m -> m <> "" ->
  _dequeue cfg fuel tid operation channel false w
  = (Returns (Some m, true),
     with_db w
       (exit_store
          (consume_store cfg
             (cadence_store (entry_store (redis_db w) (clock w) key false)
                            key n)
             (clock w) key)
          key)).
Proof.
  intros key Hq Hfree Hn Hm Hne.
  pose proof (dequeue_try_consume cfg fuel key w n m Hq Hfree Hn Hm Hne) as Htry.
  by rewrite (dequeue_exit cfg fuel tid operation channel false _ _ _ Htry).
Qed.

Lemma dequeue_timeout (cfg : Config) (fuel : nat) (tid : Z)
    (operation channel : string) (reset_first : bool) (w : World) (n : Z) :
  let key := slot_key channel operation in
  others w = [] ->
  reader_free (redis_db w) key ->
  fast_polls_left_of cfg (redis_db w) key = Some n ->
  (if reset_first then True else redis.hget (redis_db w) key MESSAGE = None) ->
  (0 < cadence_secs cfg n)%Q ->
  (DEQUEUE_TIMEOUT_SECS cfg
   <= inject_Z (Z.of_nat fuel) * cadence_secs cfg n)%Q ->
  exists rounds : nat,
    _dequeue cfg fuel tid operation channel reset_first w
    = (Returns (None, true),
       at_clock
         (with_db w
            (exit_store
               (cadence_store
                  (entry_store (redis_db w) (clock w) key reset_first) key n)
               key))
         (slept rounds (cadence_secs cfg n) (clock w)))
    /\ (DEQUEUE_TIMEOUT_SECS cfg <= 0 -> rounds = 0%nat)%Q
    /\ (0 < DEQUEUE_TIMEOUT_SECS cfg ->
        inject_Z (Z.of_nat rounds) * cadence_secs cfg n
        < DEQUEUE_TIMEOUT_SECS cfg + cadence_secs cfg n)%Q
    /\ (DEQUEUE_TIMEOUT_SECS cfg
        <= inject_Z (Z.of_nat rounds) * cadence_secs cfg n)%Q.
Proof.
  intros key Hq Hfree Hn Hm Hs Hf.
  destruct (dequeue_try_timeout cfg fuel key reset_first w n)
    as (rounds & Hrun & Hb); [done..|].
  exists rounds. split; [|done].
  by rewrite (dequeue_exit cfg fuel tid operation channel reset_first _ _ _ Hrun).
Qed.

(** The slot a reader leaves when its time was up. *)
Lemma timeout_exit_slot (db : Redis) (now : Q) (key : string)
    (reset_first : bool) (n : Z) :
  let db' := exit_store (cadence_store (entry_store db now key reset_first)
                                       key n) key in
  redis.hget db' key DEQUEUE_BUSY = Some DEQUEUE_IDLE_STATUS
  /\ redis.hget db' key MESSAGE
     = (if reset_first then None else redis.hget db key MESSAGE)
  /\ redis.hget db' key REPLY_FAST_POLLS_LEFT
     = (if 0 <? n then Some (str_of_int (n - 1))
        else redis.hget db key REPLY_FAST_POLLS_LEFT)
  /\ redis.hget db' key PICKUP_TIME = Some ""
  /\ ttl_deadline db' key = Some (now + EXPIRE_SECS)%Q
  /\ forall key', key <> key' -> db' !! key' = db !! key'.
Proof.
  intros db'. subst db'. repeat apply conj.
  - by rewrite hget_exit_store, decide_True.
  - rewrite hget_exit_store, decide_False by done.
    by rewrite hget_cadence_store_ne, hget_entry_store_message.
  - rewrite hget_exit_store, decide_False by done.
    by rewrite hget_cadence_store_counter, hget_entry_store_counter.
  - rewrite hget_exit_store, decide_False by done.
    rewrite hget_cadence_store_ne by done.
    rewrite hget_hgetall, hgetall_entry_store. by rewrite lookup_insert_eq.
  - unfold exit_store. by rewrite ttl_hmset, ttl_cadence_store, ttl_entry_store.
  - intros key' Hk. unfold exit_store.
    rewrite lookup_hmset_other, lookup_cadence_store_other by done.
    by apply lookup_entry_store_other.
Qed.

(** The slot a reader leaves when it consumed a message. *)
Lemma consume_exit_slot (cfg : Config) (db : Redis) (now : Q) (key : string)
    (n : Z) :
  let db' := exit_store
               (consume_store cfg
                  (cadence_store (entry_store db now key false) key n)
                  now key) key in
  redis.hget db' key DEQUEUE_BUSY = Some DEQUEUE_IDLE_STATUS
  /\ redis.hget db' key MESSAGE = None
  /\ redis.hget db' key REPLY_FAST_POLLS_LEFT
     = Some (str_of_int (ALLOWED_FAST_DEQUEUE_POLLS cfg))
  /\ redis.hget db' key PICKUP_TIME = Some (asctime now)
  /\ ttl_deadline db' key = Some (now + EXPIRE_SECS)%Q
  /\ forall key', key <> key' -> db' !! key' = db !! key'.
Proof.
  intros db'. subst db'. unfold consume_store. repeat apply conj.
  - by rewrite hget_exit_store, decide_True.
  - rewrite hget_exit_store, decide_False by done.
    rewrite hget_hmset_2, !decide_False by done. apply hget_hdel_same.
  - rewrite hget_exit_store, decide_False by done.
    by rewrite hget_hmset_2, decide_True.
  - rewrite hget_exit_store, decide_False by done.
    rewrite hget_hmset_2, decide_False, decide_True by done. done.
  - unfold exit_store. rewrite !ttl_hmset.
    destruct (ttl_hdel_kept
                (cadence_store (entry_store db now key false) key n)
                key MESSAGE DEQUEUE_BUSY) as [-> _]; [done| |].
    + rewrite hget_cadence_store_ne by done.
      rewrite hget_hgetall, hgetall_entry_store.
      rewrite lookup_insert_ne by done. simpl.
      rewrite lookup_insert_eq. eauto.
    + by rewrite ttl_cadence_store, ttl_entry_store.
  - intros key' Hk. unfold exit_store.
    rewrite !lookup_hmset_other, lookup_hdel_other by done.
    rewrite lookup_cadence_store_other by done.
    by apply lookup_entry_store_other.
Qed.

Lemma slept_slept (a b : nat) (secs now : Q) :
  slept a secs (slept b secs now) = slept (a + b) secs now.
Proof. unfold slept. by rewrite Nat.iter_add. Qed.

(** A reader without producer, call after call: each call that finds the
    counter positive sleeps at the fast interval and leaves it one less. *)
Lemma dequeue_times_run (cfg : Config) (fuel : nat)
    (operation channel : string) (calls : nat) (w : World) (n : Z) :
  let key := slot_key channel operation in
  (0 < FAST_DEQUEUE_POLLING_SECS cfg)%Q ->
  (DEQUEUE_TIMEOUT_SECS cfg
   <= inject_Z (Z.of_nat fuel) * FAST_DEQUEUE_POLLING_SECS cfg)%Q ->
  others w = [] ->
  idle_slot (redis_db w) key ->
  fast_polls_left_of cfg (redis_db w) key = Some n ->
  Z.of_nat calls <= n ->
  exists (w' : World) (rounds : nat),
    dequeue_times cfg fuel operation channel calls w = (Returns tt, w')
    /\ others w' = []
    /\ idle_slot (redis_db w') key
    /\ fast_polls_left_of cfg (redis_db w') key = Some (n - Z.of_nat calls)
    /\ clock w' = slept rounds (FAST_DEQUEUE_POLLING_SECS cfg) (clock w).
Proof.
  intros key Hfast Hfuel. revert w n.
  induction calls as [|calls IH]; intros w n Hq [Hfree Hm] Hn Hcalls.
  - exists w, 0%nat. rewrite Z.sub_0_r. by repeat split.
  - assert ((0 <? n) = true) as Hpos by (apply Z.ltb_lt; lia).
    assert (cadence_secs cfg n = FAST_DEQUEUE_POLLING_SECS cfg) as Hsecs
      by (unfold cadence_secs; by rewrite Hpos).
    destruct (dequeue_timeout cfg fuel 0 operation channel false w n)
      as (rounds & Hrun & _); [done|done|done|done|by rewrite Hsecs..|].
    fold key in Hrun. rewrite Hsecs in Hrun.
    destruct (timeout_exit_slot (redis_db w) (clock w) key false n)
      as (Hbusy & Hmsg & Hcnt & _).
    rewrite Hpos in Hcnt.
    destruct (IH (at_clock
                    (with_db w
                       (exit_store
                          (cadence_store
                             (entry_store (redis_db w) (clock w) key false)
                             key n) key))
                    (slept rounds (FAST_DEQUEUE_POLLING_SECS cfg) (clock w)))
                 (n - 1))
      as (w' & rounds' & Hrun' & Hq' & Hidle' & Hn' & Hclock').
    + done.
    + split; wsimpl; [|by rewrite Hmsg].
      unfold reader_free. by rewrite Hbusy.
    + wsimpl. unfold fast_polls_left_of. rewrite Hcnt.
      apply int_of_bytes_str_of_int.
    + lia.
    + exists w', (rounds' + rounds)%nat.
      cbn [dequeue_times]. erewrite bind_returns by exact Hrun.
      rewrite Hrun'. split; [done|]. split; [done|]. split; [done|]. split.
      * rewrite Hn'. f_equal. lia.
      * rewrite Hclock'. wsimpl. apply slept_slept.
Qed.

(** ** The polling cadence *)



(** ** The sweep of a stranded reply *)

(** When the reply read is not empty and is gone by the time of the
    delete, the strict delete raises and [queue_request] answers 500
    without enqueuing. *)
Lemma queue_request_reply_stolen (request : Request) (channel : string)
    (w : World) (g1 g2 : Redis -> Redis) (rest : list (Redis -> Redis)) :
  let reply_key := slot_key channel REPLY in
  well_formed request channel "application/json" ->
  others w = g1 :: g2 :: rest ->
  truthy (redis.hget (g1 (redis_db w)) reply_key MESSAGE) = true ->
  redis.hget (g2 (g1 (redis_db w))) reply_key MESSAGE = None ->
  queue_request request w
  = (Returns (sys_err_response (delete_failed reply_key)),
     {| redis_db := g2 (g1 (redis_db w)); clock := clock w; others := rest;
        transaction_id := transaction_id w + 1 |}).
Proof.
  intros reply_key (Hch & t & Ht & Hp) Ho Hread Hgone.
  destruct w as [db now os tid]. simpl in Ho, Hread, Hgone. subst os.
  unfold queue_request.
  erewrite bind_returns by reflexivity.
  unfold try_except. rewrite Hch.
  unfold content_type_startswith. rewrite Ht.
  erewrite bind_returns by reflexivity. rewrite Hp.
  erewrite bind_returns by apply query_any.
  fold reply_key. unfold first_seen at 1. wsimpl. rewrite Hread.
  erewrite bind_raises; [reflexivity|].
  unfold _del_message.
  erewrite bind_returns by apply command_any.
  unfold first_seen, after_command. wsimpl.
  change (tail (g1 :: g2 :: rest)) with (g2 :: rest). cbv iota.
  rewrite hdel_fst, Hgone. simpl.
  unfold raise. f_equal. f_equal.
  unfold redis.hdel. unfold redis.hget in Hgone.
  destruct (g2 (g1 db) !! reply_key) as [e|]; [|done].
  by rewrite Hgone.
Qed.

(** A successful [_enqueue], run alone, leaves the other slots alone. *)
Lemma enqueue_leaves_other_slots (tid : Z) (operation channel msg : string)
    (w w' : World) (channel' operation' : string) :
  is_direction operation -> others w = [] ->
  _enqueue tid operation channel msg w = (Returns tt, w') ->
  is_direction operation' ->
  channel' <> channel \/ operation' <> operation ->
  redis_db w' !! slot_key channel' operation'
  = redis_db w !! slot_key channel' operation'.
Proof.
  intros Hop Hq Hrun Hop' Hne.
  destruct (enqueue_returns tid operation channel msg w w' Hop Hq Hrun)
    as (_ & c & b & _ & _ & _ & _ & ->). wsimpl.
  rewrite !lookup_counter_store_other, lookup_enqueue_store_other; [done|..].
  - intros E. apply slot_key_inj in E; [|done..]. destruct E; subst. tauto.
  - intros E. by apply (stat_key_not_slot (clock w) channel' operation').
  - intros E. by apply (stat_key_not_slot (clock w) channel' operation').
Qed.

(** C5, as the code has it.  [queue_request], given a channel and a JSON
    content type, reads the [message] field of the reply slot and, when it
    holds a reply that is not empty, deletes it with the strict delete
    before it enqueues.  Run alone on a channel whose stranded reply is
    not the empty one, an accepted request leaves the reply slot without
    message and the request slot with the payload posted, and the request
    is accepted when the request slot is free and the counters of the day
    have room.  Among other clients the delete can find the field gone,
    and then the handler answers 500 and enqueues nothing. *)
Theorem stranded_reply_sweep (request : Request) (channel : string) (w : World) :
  let reply_key := slot_key channel REPLY in
  let request_key := slot_key channel REQUEST in
  let sk := stat_key (clock w) in
  let len := Z.of_nat (String.length (get_data request)) in
  well_formed request channel "application/json" ->
  others w = [] ->
  redis.hget (redis_db w) reply_key MESSAGE <> Some "" ->
  (forall w',
      queue_request request w = (Returns ok_empty, w') ->
      redis.hget (redis_db w') reply_key MESSAGE = None
      /\ redis.hget (redis_db w') request_key MESSAGE = Some (get_data request))
  /\ (forall c b,
        redis.hget (redis_db w) request_key MESSAGE = None ->
        stat_value (redis_db w) sk (COUNT ++ ":" ++ REQUEST) = Some c ->
        in_int64 (c + 1) ->
        stat_value (redis_db w) sk REQUEST = Some b -> in_int64 (b + len) ->
        exists w', queue_request request w = (Returns ok_empty, w'))
  /\ (forall w0 g1 g2 rest,
        others w0 = g1 :: g2 :: rest ->
        truthy (redis.hget (g1 (redis_db w0)) reply_key MESSAGE) = true ->
        redis.hget (g2 (g1 (redis_db w0))) reply_key MESSAGE = None ->
        queue_request request w0
        = (Returns {| response := "redis failed deleting " ++ reply_key
                                  ++ " subkey b'message'";
                      status := 500; response_type := "text/plain" |},
           {| redis_db := g2 (g1 (redis_db w0)); clock := clock w0;
              others := rest; transaction_id := transaction_id w0 + 1 |})).
Proof.
  intros reply_key request_key sk len Hwf Hq Hstale.
  set (swept := if truthy (redis.hget (redis_db w) reply_key MESSAGE)
                then (redis.hdel (redis_db w) reply_key MESSAGE).2
                else redis_db w).
  assert (redis.hget swept reply_key MESSAGE = None) as Hswept.
  { subst swept.
    destruct (redis.hget (redis_db w) reply_key MESSAGE) as [m|] eqn:Hm;
      simpl; [|done].
    destruct (String.eqb_spec m ""); simpl; [congruence|].
    apply hget_hdel_same. }
  assert (forall k, k <> reply_key -> swept !! k = redis_db w !! k) as Hother.
  { intros k Hk. subst swept. destruct (truthy _); [|done].
    by apply lookup_hdel_other. }
  assert (request_key <> reply_key) as Hkeys.
  { intros E. apply slot_key_inj in E as [_ E]; [done|by left|by right]. }
  assert (sk <> reply_key) as Hsk.
  { intros E. by apply (stat_key_not_slot (clock w) channel REPLY); [right|]. }
  split; [|split].
  - intros w' Hrun.
    rewrite (queue_request_run request channel) in Hrun by done.
    fold reply_key swept in Hrun.
    destruct (_enqueue _ _ _ _ _) as [[[]|e|] w1] eqn:E; try done.
    injection Hrun as <-.
    split.
    + unfold redis.hget, reply_key.
      rewrite (enqueue_leaves_other_slots
                 _ _ _ _ (with_db (next_transaction w) swept) _ channel REPLY
                 (or_introl eq_refl) Hq E); [|by right|by right].
      exact Hswept.
    + by destruct (enqueue_slot_fields
                     _ _ _ _ (with_db (next_transaction w) swept) _
                     (or_introl eq_refl) Hq E) as (_ & _ & Hm & _).
  - intros c b Hfree Hc Hrc Hb Hrb.
    rewrite (queue_request_run request channel) by done.
    fold reply_key swept.
    erewrite (enqueue_succeeds _ REQUEST channel _ _ c b); [by eexists|..];
      wsimpl; try done.
    + by left.
    + unfold redis.hget. rewrite Hother by done. exact Hfree.
    + unfold stat_value, redis.hget. rewrite Hother by done. exact Hc.
    + unfold stat_value, redis.hget. rewrite Hother by done. exact Hb.
  - intros w0 g1 g2 rest Ho Hread Hgone.
    by rewrite (queue_request_reply_stolen request channel w0 g1 g2 rest).
Qed.

(** C5 as it was stated fails: the delete of the sweep is the strict one,
    and the request slot may be taken.  With a consumer that takes the
    stale reply of channel [c2] between the read and the delete, the
    handler answers 500 and the request is not enqueued; with a request
    still pending on the channel it answers 500 as well and the slot keeps
    the pending request. *)
Lemma sweep_is_strict :
  (exists w',
      queue_request (request_on "c2" "application/json" "{}") stolen_reply_world
      = (Returns {| response := "redis failed deleting c2:reply subkey b'message'";
                    status := 500; response_type := "text/plain" |}, w')
      /\ redis.hget (redis_db w') (slot_key "c2" REQUEST) MESSAGE = None)
  /\ (exists w',
        queue_request (request_on "c2" "application/json" "{}")
                      pending_request_world
        = (Returns {| response := "Channel c2:request contains unprocessed message";
                      status := 500; response_type := "text/plain" |}, w')
        /\ redis.hget (redis_db w') (slot_key "c2" REQUEST) MESSAGE
           = Some "first").
Proof.
  split; eexists; (split; [vm_compute; reflexivity|]); vm_compute; reflexivity.
Qed.

Lemma stranded_reply_sweep_witness :
  exists w',
    queue_request (request_on "c2" "application/json" "{}") stale_reply_world
    = (Returns ok_empty, w')
    /\ redis.hget (redis_db w') (slot_key "c2" REPLY) MESSAGE = None
    /\ redis.hget (redis_db w') (slot_key "c2" REQUEST) MESSAGE = Some "{}".
Proof.
  destruct (stranded_reply_sweep (request_on "c2" "application/json" "{}")
              "c2" stale_reply_world) as (Heffect & Haccepted & _).
  - split; [reflexivity|]. exists "application/json". split; reflexivity.
  - reflexivity.
  - vm_compute. discriminate.
  - destruct (Haccepted 0 0) as [w' Hrun].
    + vm_compute. reflexivity.
    + vm_compute. reflexivity.
    + vm_compute. split; discriminate.
    + vm_compute. reflexivity.
    + vm_compute. split; discriminate.
    + exists w'. split; [exact Hrun|]. by apply Heffect.
Defined.

Example stranded_reply_scenario :
  exists w',
    queue_request (request_on "c2" "application/json" "{}") stale_reply_world
    = (Returns ok_empty, w')
    /\ redis.hget (redis_db w') (slot_key "c2" REPLY) MESSAGE = None
    /\ redis.hget (redis_db w') (slot_key "c2" REQUEST) MESSAGE = Some "{}".
Proof.
  eexists. split; [vm_compute; reflexivity|].
  split; vm_compute; reflexivity.
Qed.

(** ** The statistics *)

Lemma glob_star (s : string) : redis.glob "*" s = true.
Proof.
  induction s as [|c s IH]; [done|].
  simpl in *. by rewrite IH.
Qed.

Lemma glob_stat (key : string) :
  redis.glob (STATISTIC ++ ":*") key = true
  <-> exists day, key = STATISTIC ++ ":" ++ day.
Proof.
  split.
  - destruct key as [|c1 [|c2 [|c3 [|c4 [|c5 day]]]]]; try done;
      try (simpl; by rewrite ?andb_false_r).
    change (redis.glob (STATISTIC ++ ":*") (String c1 (String c2 (String c3
              (String c4 (String c5 day))))))
      with (Ascii.eqb "s" c1 && (Ascii.eqb "t" c2 && (Ascii.eqb "a" c3
              && (Ascii.eqb "t" c4 && (Ascii.eqb ":" c5
              && redis.glob "*" day))))).
    intros H. repeat (apply andb_prop in H as [?%Ascii.eqb_eq H]). subst.
    by exists day.
  - intros [day ->].
    change (redis.glob (STATISTIC ++ ":*") (STATISTIC ++ ":" ++ day))
      with (redis.glob "*" day).
    apply glob_star.
Qed.

Lemma day_of_stat_key (day : string) :
  day_of_key (STATISTIC ++ ":" ++ day) = day.
Proof. reflexivity. Qed.

Lemma keys_spec (db : Redis) (key : string) :
  key ∈ redis.keys db (STATISTIC ++ ":*")
  <-> is_Some (db !! key) /\ exists day, key = STATISTIC ++ ":" ++ day.
Proof.
  unfold redis.keys. rewrite list_elem_of_filter, glob_stat.
  rewrite list_elem_of_fmap. split.
  - intros [Hday ([k e] & -> & Hin)]. split; [|done].
    apply elem_of_map_to_list in Hin. simpl. eauto.
  - intros [[e He] Hday]. split; [done|]. exists (key, e).
    split; [done|]. by apply elem_of_map_to_list.
Qed.

Lemma keys_NoDup (db : Redis) (pattern : string) :
  NoDup (redis.keys db pattern).
Proof. unfold redis.keys. apply NoDup_filter, NoDup_fst_map_to_list. Qed.

(** *** Decoding *)

Lemma decode_utf8_run (b : string) (w : World) :
  decode_utf8 b w
  = (if utf8_valid b then Returns b else Raises decode_error, w).
Proof. unfold decode_utf8. by destruct (utf8_valid b). Qed.

Lemma decode_counts_run (counts : list (option string)) (w : World) :
  decode_counts counts w
  = (if forallb count_decodes counts
     then Returns (map (fun count => default "" count) counts)
     else Raises decode_error, w).
Proof.
  induction counts as [|count counts IH]; [done|].
  cbn [decode_counts forallb map].
  destruct count as [b|]; cbn [count_decodes default].
  - destruct (utf8_valid b) eqn:E.
    + erewrite bind_returns by (rewrite decode_utf8_run, E; reflexivity).
      cbn [andb]. destruct (forallb count_decodes counts).
      * by erewrite bind_returns by apply IH.
      * by erewrite bind_raises by apply IH.
    + by erewrite bind_raises by (rewrite decode_utf8_run, E; reflexivity).
  - erewrite bind_returns by reflexivity.
    cbn [andb]. destruct (forallb count_decodes counts).
    + by erewrite bind_returns by apply IH.
    + by erewrite bind_raises by apply IH.
Qed.

(** Text does not begin with a continuation byte. *)
Lemma utf8_valid_first (c : ascii) (s : string) :
  utf8_valid (String c s) = true -> byte_in 128 191 c = false.
Proof.
  intros H. destruct (byte_in 128 191 c) eqn:E; [|done]. exfalso.
  unfold byte_in in E. apply andb_true_iff in E as [E1%N.leb_le E2%N.leb_le].
  assert (forall lo hi, (hi < 128 \/ 191 < lo)%N -> byte_in lo hi c = false)
    as Hout.
  { intros lo hi Hlh. unfold byte_in. apply andb_false_iff.
    destruct Hlh; [right|left]; apply N.leb_gt; lia. }
  revert H. cbn [utf8_valid].
  rewrite (Hout 0%N 127%N), (Hout 194%N 223%N), (Hout 224%N 239%N),
    (Hout 240%N 244%N) by lia.
  by destruct s as [|c1 [|c2 [|c3 s]]].
Qed.

Lemma skip_continuation_valid (s : string) :
  utf8_valid s = true -> skip_continuation s = s.
Proof.
  destruct s as [|c s]; [done|]. intros H. cbn [skip_continuation].
  by rewrite (utf8_valid_first _ _ H).
Qed.

(** On the key of a record, dropping the five characters of [stat:] is
    dropping its first five bytes. *)
Lemma text_drop_stat (day : string) :
  utf8_valid (STATISTIC ++ ":" ++ day) = true ->
  text_drop (String.length STATISTIC + 1) (STATISTIC ++ ":" ++ day) = day.
Proof.
  intros H. change (utf8_valid day = true) in H.
  change (skip_continuation day = day). by apply skip_continuation_valid.
Qed.

(** Alone, the loop of [stats] only reads, and it raises at the first
    record that does not decode. *)
Lemma stats_loop_alone (keys : list string) (csv_dict : gmap string string)
    (w : World) :
  others w = [] ->
  (forall key, key ∈ keys -> exists day, key = STATISTIC ++ ":" ++ day) ->
  stats_loop keys csv_dict w
  = (if forallb (record_decodes (redis_db w)) keys
     then Returns
            (foldl (fun d key =>
                      <[day_of_key key := line_of_key (redis_db w) key]> d)
                   csv_dict keys)
     else Raises decode_error,
     w).
Proof.
  intros Hq. revert csv_dict.
  induction keys as [|key keys IH]; intros csv_dict Hkeys; [done|].
  cbn [stats_loop forallb foldl]. unfold record_decodes at 1.
  destruct (Hkeys key) as [day ->]; [by left|].
  destruct (utf8_valid (STATISTIC ++ ":" ++ day)) eqn:E; cbn [andb].
  - erewrite bind_returns by (rewrite decode_utf8_run, E; reflexivity).
    erewrite bind_returns by (by apply query_alone).
    rewrite text_drop_stat by done.
    destruct (forallb count_decodes _) eqn:E2.
    + erewrite bind_returns by (rewrite decode_counts_run, E2; reflexivity).
      rewrite IH by (intros k Hk; apply Hkeys; by right).
      reflexivity.
    + by erewrite bind_raises by (rewrite decode_counts_run, E2; reflexivity).
  - by erewrite bind_raises by (rewrite decode_utf8_run, E; reflexivity).
Qed.

(** What it is for the records to decode. *)
Lemma decodable_spec (db : Redis) :
  decodable db = true
  <-> forall day,
        is_Some (db !! (STATISTIC ++ ":" ++ day)) ->
        utf8_valid day = true
        /\ forall field b,
             field ∈ stats_fields ->
             redis.hget db (STATISTIC ++ ":" ++ day) field = Some b ->
             utf8_valid b = true.
Proof.
  unfold decodable. rewrite forallb_forall. split.
  - intros H day Hsome.
    assert (STATISTIC ++ ":" ++ day ∈ redis.keys db (STATISTIC ++ ":*")) as Hk
      by (apply keys_spec; eauto).
    apply list_elem_of_In, H in Hk. unfold record_decodes in Hk.
    apply andb_true_iff in Hk as [Hday Hcounts]. split; [exact Hday|].
    intros field b Hfield Hb. rewrite forallb_forall in Hcounts.
    apply (Hcounts (Some b)). apply list_elem_of_In.
    unfold redis.hmget. apply list_elem_of_fmap. by exists field.
  - intros H key Hk. apply list_elem_of_In, keys_spec in Hk as [Hsome [day ->]].
    destruct (H day Hsome) as [Hday Hcounts].
    unfold record_decodes. apply andb_true_iff. split; [exact Hday|].
    apply forallb_forall. intros [b|] Hin; [|done].
    apply list_elem_of_In in Hin. unfold redis.hmget in Hin.
    apply list_elem_of_fmap in Hin as (field & Hb & Hfield).
    by apply (Hcounts field b).
Qed.

Lemma csv_dict_lookup (db : Redis) (keys : list string)
    (csv_dict : gmap string string) (day line : string) :
  foldl (fun d key => <[day_of_key key := line_of_key db key]> d)
        csv_dict keys !! day = Some line ->
  (exists key, key ∈ keys /\ day = day_of_key key /\ line = line_of_key db key)
  \/ csv_dict !! day = Some line.
Proof.
  revert csv_dict. induction keys as [|key keys IH]; intros csv_dict H.
  - by right.
  - simpl in H. apply IH in H as [(k & Hk & Hd & Hl)|H].
    + left. exists k. split; [by right|done].
    + destruct (decide (day_of_key key = day)) as [<-|Hne].
      * rewrite lookup_insert_eq in H. injection H as <-.
        left. exists key. split; [by left|done].
      * rewrite lookup_insert_ne in H by done. by right.
Qed.

Lemma csv_dict_keeps (db : Redis) (keys : list string)
    (csv_dict : gmap string string) (day : string) :
  is_Some (csv_dict !! day) ->
  is_Some (foldl (fun d key => <[day_of_key key := line_of_key db key]> d)
                 csv_dict keys !! day).
Proof.
  revert csv_dict. induction keys as [|k keys IH]; intros csv_dict H; [done|].
  simpl. apply IH.
  destruct (decide (day_of_key k = day)) as [<-|Hne].
  - rewrite lookup_insert_eq. eauto.
  - by rewrite lookup_insert_ne.
Qed.

Lemma csv_dict_is_Some (db : Redis) (keys : list string)
    (csv_dict : gmap string string) (key : string) :
  key ∈ keys ->
  is_Some (foldl (fun d key => <[day_of_key key := line_of_key db key]> d)
                 csv_dict keys !! day_of_key key).
Proof.
  revert csv_dict. induction keys as [|k keys IH]; intros csv_dict Hin.
  - by apply not_elem_of_nil in Hin.
  - simpl. apply elem_of_cons in Hin as [->|Hin]; [|by apply IH].
    apply csv_dict_keeps. rewrite lookup_insert_eq. eauto.
Qed.

(** *** Sorting the lines *)

Lemma sorted_insert_perm (x : string * string) (l : list (string * string)) :
  sorted_insert x l ≡ₚ x :: l.
Proof.
  induction l as [|y l IH]; simpl; [done|].
  destruct (String.ltb x.1 y.1); [done|].
  rewrite IH. apply Permutation_swap.
Qed.

Lemma sorted_by_key_perm (l : list (string * string)) : sorted_by_key l ≡ₚ l.
Proof.
  induction l as [|x l IH]; simpl; [done|].
  by rewrite sorted_insert_perm, IH.
Qed.

Lemma ltb_true_le (a b : string) : String.ltb a b = true -> String.le a b.
Proof.
  unfold String.le, String.ltb, String.leb.
  by destruct (String.compare a b).
Qed.

Lemma ltb_false_le (a b : string) : String.ltb a b = false -> String.le b a.
Proof.
  unfold String.le, String.ltb, String.leb. rewrite (String.compare_antisym b a).
  by destruct (String.compare a b).
Qed.

Lemma le_ne_ltb (a b : string) : String.le a b -> a <> b -> String.ltb a b = true.
Proof.
  unfold String.le, String.ltb, String.leb. intros Hle Hne.
  destruct (String.compare a b) eqn:E; [|done..].
  by apply String.compare_eq_iff in E.
Qed.

Lemma sorted_insert_sorted (x : string * string) (l : list (string * string)) :
  StronglySorted key_le l -> StronglySorted key_le (sorted_insert x l).
Proof.
  induction 1 as [|y l Hl IH Hy]; simpl.
  - repeat constructor.
  - destruct (String.ltb x.1 y.1) eqn:E.
    + constructor; [by constructor|]. constructor.
      * by apply ltb_true_le.
      * eapply Forall_impl; [exact Hy|]. intros z Hz. unfold key_le in *.
        etrans; [|exact Hz]. by apply ltb_true_le.
    + constructor; [done|]. rewrite sorted_insert_perm. constructor; [|done].
      by apply ltb_false_le.
Qed.

Lemma sorted_by_key_sorted (l : list (string * string)) :
  StronglySorted key_le (sorted_by_key l).
Proof.
  induction l as [|x l IH]; simpl; [constructor|].
  by apply sorted_insert_sorted.
Qed.

(** Distinct keys in ascending order are in strictly ascending order. *)
Lemma sorted_strict (l : list (string * string)) :
  StronglySorted key_le l -> NoDup l.*1 ->
  StronglySorted (fun a b => String.ltb a b = true) l.*1.
Proof.
  induction 1 as [|x l Hl IH Hx]; simpl; intros Hnd; [constructor|].
  apply NoDup_cons in Hnd as [Hnotin Hnd].
  constructor; [by apply IH|].
  apply Forall_fmap, Forall_forall. intros y Hy. simpl.
  apply le_ne_ltb.
  - rewrite Forall_forall in Hx. by apply Hx.
  - intros E. apply Hnotin. rewrite E. apply list_elem_of_fmap. eauto.
Qed.

(** ** The statistics as CSV *)

(** C9.  Run alone, on a store whose statistics records decode as UTF-8
    (the key of each record matching [stat:*] and those of its four
    counters that are present), [stats] answers 200 with the content type
    [text/csv; charset=utf-8] and changes nothing.  The body is the fixed
    header line followed by one line for each key that matches [stat:*],
    the keys of the daily records, in strictly ascending order of what
    follows [stat:] in the key, the date; the lines are joined by line
    feeds.  A line holds the date and the fields [count:request],
    [request], [count:reply] and [reply] of the record in that order,
    separated by commas, an absent field giving the empty string.  On any
    other store [stats] answers nothing: the error of the decoding leaves
    the handler, which has no [except] clause. *)
Theorem stats_csv (w : World) :
  others w = [] ->
  (decodable (redis_db w) = true ->
   exists days : list string,
     stats w
     = (Returns
          {| response :=
               "date,count(request),request bytes,count(reply),reply bytes"
               ++ newline
               ++ join newline
                    (map (fun day =>
                            line_of_key (redis_db w) (STATISTIC ++ ":" ++ day))
                         days);
             status := 200; response_type := "text/csv; charset=utf-8" |},
        w)
     /\ StronglySorted (fun a b => String.ltb a b = true) days
     /\ (forall day,
           day ∈ days <-> is_Some (redis_db w !! (STATISTIC ++ ":" ++ day)))
     /\ (forall day,
           let field f :=
             default "" (redis.hget (redis_db w) (STATISTIC ++ ":" ++ day) f) in
           line_of_key (redis_db w) (STATISTIC ++ ":" ++ day)
           = day ++ "," ++ field "count:request" ++ "," ++ field "request"
             ++ "," ++ field "count:reply" ++ "," ++ field "reply"))
  /\ (decodable (redis_db w) = false -> stats w = (Raises decode_error, w))
  /\ (decodable (redis_db w) = true
      <-> forall day,
            is_Some (redis_db w !! (STATISTIC ++ ":" ++ day)) ->
            utf8_valid day = true
            /\ forall field b,
                 field ∈ stats_fields ->
                 redis.hget (redis_db w) (STATISTIC ++ ":" ++ day) field
                 = Some b ->
                 utf8_valid b = true).
Proof.
  intros Hq.
  set (db := redis_db w).
  set (keys := redis.keys db (STATISTIC ++ ":*")).
  assert (Hloop : forall d,
             stats_loop keys d w
             = (if decodable db
                then Returns
                       (foldl (fun d key =>
                                 <[day_of_key key := line_of_key db key]> d)
                              d keys)
                else Raises decode_error, w)).
  { intros d. apply stats_loop_alone; [done|].
    intros key Hk. by apply keys_spec in Hk as [_ Hday]. }
  split; [|split]; [| |apply decodable_spec].
  2:{ intros Hbad. unfold stats.
      erewrite bind_returns by (by apply query_alone).
      erewrite bind_raises; [done|]. fold db keys. by rewrite Hloop, Hbad. }
  intros Hgood.
  set (csv_dict :=
         foldl (fun d key => <[day_of_key key := line_of_key db key]> d)
               (∅ : gmap string string) keys).
  set (sorted_csv := sorted_by_key (map_to_list csv_dict)).
  assert (Hitem : forall day line,
             (day, line) ∈ sorted_csv <-> csv_dict !! day = Some line).
  { intros day line. unfold sorted_csv. rewrite sorted_by_key_perm.
    apply elem_of_map_to_list. }
  assert (Hline : forall day line,
             csv_dict !! day = Some line ->
             is_Some (db !! (STATISTIC ++ ":" ++ day))
             /\ line = line_of_key db (STATISTIC ++ ":" ++ day)).
  { intros day line H.
    apply csv_dict_lookup in H as [(key & Hk & -> & ->)|H];
      [|by rewrite lookup_empty in H].
    apply keys_spec in Hk as [Hsome [day' ->]].
    by rewrite day_of_stat_key. }
  exists sorted_csv.*1. split; [|split; [|split]].
  - unfold stats.
    erewrite bind_returns by (by apply query_alone).
    erewrite bind_returns by (fold db keys; by rewrite Hloop, Hgood).
    fold csv_dict sorted_csv.
    assert (map snd sorted_csv
            = map (fun day => line_of_key db (STATISTIC ++ ":" ++ day))
                  sorted_csv.*1) as Hmap.
    { rewrite <- list_fmap_compose.
      apply list_fmap_ext. intros i [day line] Hi. simpl.
      apply list_elem_of_lookup_2, Hitem, Hline in Hi. by destruct Hi. }
    by rewrite <- Hmap.
  - apply sorted_strict; [apply sorted_by_key_sorted|].
    unfold sorted_csv. rewrite sorted_by_key_perm.
    apply NoDup_fst_map_to_list.
  - intros day. rewrite list_elem_of_fmap. split.
    + intros ([d line] & -> & Hin). simpl.
      apply Hitem, Hline in Hin. by destruct Hin.
    + intros Hsome.
      assert (STATISTIC ++ ":" ++ day ∈ keys) as Hk
        by (apply keys_spec; eauto).
      destruct (csv_dict_is_Some db keys ∅ _ Hk) as [line Hl].
      rewrite day_of_stat_key in Hl. fold csv_dict in Hl.
      exists (day, line). split; [done|]. by apply Hitem.
  - intros day. reflexivity.
Qed.

(** C9 as it was stated fails: on a store with a record whose key is no
    text, [stats] answers nothing and raises. *)
Lemma stats_raises_on_bytes :
  others undecodable_world = []
  /\ is_Some (redis_db undecodable_world !! (STATISTIC ++ ":" ++ String "255" ""))
  /\ (stats undecodable_world).1 = Raises decode_error.
Proof. split; [reflexivity|]. split; [by eexists|]. vm_compute. reflexivity. Qed.

Lemma stats_csv_witness :
  (exists days : list string,
     stats three_posts_world
     = (Returns
          {| response :=
               "date,count(request),request bytes,count(reply),reply bytes"
               ++ newline
               ++ join newline
                    (map (fun day =>
                            line_of_key (redis_db three_posts_world)
                                        (STATISTIC ++ ":" ++ day))
                         days);
             status := 200; response_type := "text/csv; charset=utf-8" |},
        three_posts_world)
     /\ StronglySorted (fun a b => String.ltb a b = true) days
     /\ (forall day,
           day ∈ days
           <-> is_Some (redis_db three_posts_world !! (STATISTIC ++ ":" ++ day)))
     /\ (forall day,
           let field f :=
             default "" (redis.hget (redis_db three_posts_world)
                                    (STATISTIC ++ ":" ++ day) f) in
           line_of_key (redis_db three_posts_world) (STATISTIC ++ ":" ++ day)
           = day ++ "," ++ field "count:request" ++ "," ++ field "request"
             ++ "," ++ field "count:reply" ++ "," ++ field "reply"))
  /\ stats undecodable_world = (Raises decode_error, undecodable_world).
Proof.
  split.
  - apply (stats_csv three_posts_world); [reflexivity|].
    vm_compute. reflexivity.
  - apply (stats_csv undecodable_world); [reflexivity|].
    vm_compute. reflexivity.
Defined.

Example stats_scenario :
  (stats three_posts_world).1
  = Returns
      {| response :=
           "date,count(request),request bytes,count(reply),reply bytes"
           ++ newline ++ "1970-01-01,2,30,1,5";
         status := 200; response_type := "text/csv; charset=utf-8" |}.
Proof. vm_compute. reflexivity. Qed.

(** ** Invariants among other clients *)

Section invariants.
Variable I : Redis -> Prop.

Lemma keeps_ret {A} (a : A) : keeps I (mret a).
Proof. intros w r w' H [= <- <-]. done. Qed.

Lemma keeps_raise {A} (e : exn) : keeps I (@raise A e).
Proof. intros w r w' H [= <- <-]. done. Qed.

Lemma keeps_hang {A} : keeps I (@hang A).
Proof. intros w r w' H [= <- <-]. done. Qed.

Lemma keeps_bind {A B} (m : M A) (k : A -> M B) :
keeps I m -> (forall a, keeps I (k a)) -> keeps I (m ≫= k).
Proof.
intros Hm Hk w r w' Hw. unfold mbind, M_bind.
destruct (m w) as [[a|e|] w1] eqn:E.
- apply Hk. by eapply Hm.
- intros [= <- <-]. by eapply Hm.
- intros [= <- <-]. by eapply Hm.
Qed.

Lemma stable_first_seen (w : World) :
stable I w -> I (first_seen w) /\ Forall (respects I) (tail (others w)).
Proof.
intros [Hdb Ho]. unfold first_seen.
destruct (others w) as [|g os]; [done|].
apply Forall_cons in Ho as [Hg Hos]. split; [by apply Hg|done].
Qed.

Lemma keeps_command {A} (f : Redis -> Q -> A * Redis) :
(forall db now, I db -> I (f db now).2) -> keeps I (command f).
Proof.
intros Hf w r w' Hw. rewrite command_any. intros [= <- <-].
apply stable_first_seen in Hw as [Hdb Ho]. split; [|done].
by apply Hf.
Qed.

Lemma keeps_query {A} (f : Redis -> A) : keeps I (query f).
Proof. by apply keeps_command. Qed.

Lemma keeps_time_now : keeps I time_now.
Proof. intros w r w' H [= <- <-]. done. Qed.

Lemma keeps_sleep (secs : Q) : keeps I (time_sleep secs).
Proof.
intros w r w' H. unfold time_sleep.
destruct (Qlt_le_dec secs 0); intros [= <- <-]; done.
Qed.

Lemma keeps_get_transaction_id : keeps I _get_transaction_id.
Proof. intros w r w' H [= <- <-]. done. Qed.

Lemma keeps_try_except {A} (body : M A) (handler : exn -> M A) :
keeps I body -> (forall e, keeps I (handler e)) ->
keeps I (try_except body handler).
Proof.
intros Hb Hh w r w' Hw. unfold try_except.
destruct (body w) as [[a|e|] w1] eqn:E.
- intros [= <- <-]. by eapply Hb.
- apply Hh. by eapply Hb.
- intros [= <- <-]. by eapply Hb.
Qed.

Lemma keeps_try_finally {A} (body : M A) (final : outcome A -> M unit) :
keeps I body -> (forall r, keeps I (final r)) ->
keeps I (try_finally body final).
Proof.
intros Hb Hf w r w' Hw. unfold try_finally.
destruct (body w) as [r1 w1] eqn:E.
assert (stable I w1) as Hw1 by by eapply Hb.
destruct r1 as [a|e|]; [| |by intros [= <- <-]].
- destruct (final (Returns a) w1) as [[u|e'|] w2] eqn:F;
  intros [= <- <-]; by eapply Hf.
- destruct (final (Raises e) w1) as [[u|e'|] w2] eqn:F;
  intros [= <- <-]; by eapply Hf.
Qed.

Lemma keeps_poll (fuel : nat) (key : string) (secs : Q)
(message : option string) (left : Q) :
keeps I (_dequeue_poll fuel key secs message left).
Proof.
revert message left. induction fuel as [|fuel IH]; intros message left.
- destruct message; simpl; [apply keeps_ret|].
destruct (Qlt_le_dec 0 left); [apply keeps_hang | apply keeps_ret].
- destruct message; cbn [_dequeue_poll]; [apply keeps_ret|].
destruct (Qlt_le_dec 0 left); [|apply keeps_ret].
apply keeps_bind; [apply keeps_sleep|]. intros _.
apply keeps_bind; [apply keeps_query|]. intros m. apply IH.
Qed.

End invariants.

(** ** The fast-poll counters *)

Lemma foldl_insert_lookup (mapping : list (string * string))
    (h : gmap string string) (field value : string) :
  foldl (fun h kv => <[kv.1 := kv.2]> h) h mapping !! field = Some value ->
  (field, value) ∈ mapping \/ h !! field = Some value.
Proof.
  revert h. induction mapping as [|[f v] mapping IH]; intros h H; [by right|].
  simpl in H. apply IH in H as [H|H]; [left; by right|].
  destruct (decide (f = field)) as [->|Hne].
  - rewrite lookup_insert_eq in H. injection H as ->. left. by left.
  - rewrite lookup_insert_ne in H by done. by right.
Qed.

Lemma counters_ok_hmset (db : Redis) (key : string)
    (mapping : list (string * string)) :
  (forall v, (REPLY_FAST_POLLS_LEFT, v) ∈ mapping -> counter_ok v) ->
  counters_ok db -> counters_ok (redis.hmset db key mapping).2.
Proof.
  intros Hmap Hdb key' b. rewrite hget_hgetall, hgetall_hmset.
  case_decide as Hk.
  - subst key'. intros H. apply foldl_insert_lookup in H as [H|H].
    + by apply Hmap.
    + apply (Hdb key). by rewrite hget_hgetall.
  - rewrite <- hget_hgetall. apply Hdb.
Qed.

Lemma counters_ok_hdel (db : Redis) (key field : string) :
  counters_ok db -> counters_ok (redis.hdel db key field).2.
Proof.
  intros Hdb key' b. rewrite hget_hgetall, hgetall_hdel.
  case_decide as Hk.
  - subst key'. intros H. apply lookup_delete_Some in H as [_ H].
    apply (Hdb key). by rewrite hget_hgetall.
  - rewrite <- hget_hgetall. apply Hdb.
Qed.

Lemma counters_ok_expire (db : Redis) (now : Q) (key : string) (secs : Q) :
  counters_ok db -> counters_ok (redis.expire db now key secs).2.
Proof. intros Hdb key' b. rewrite hget_expire. apply Hdb. Qed.

Lemma counters_ok_hincrby (db : Redis) (key field : string) (n : Z) :
  field <> REPLY_FAST_POLLS_LEFT ->
  counters_ok db -> counters_ok (redis.hincrby db key field n).2.
Proof.
  intros Hf Hdb.
  destruct (hincrby_cases db key field n) as [(z & _ & _ & ->)| ->]; [|done].
  apply counters_ok_hmset; [|done].
  intros v Hv. apply list_elem_of_singleton in Hv. congruence.
Qed.

Lemma counter_ok_str (z : Z) : 0 <= z -> counter_ok (str_of_int z).
Proof. intros H. by exists z. Qed.

Section counters.
Variable cfg : Config.
Hypothesis max_nonneg : 0 <= ALLOWED_FAST_DEQUEUE_POLLS cfg.

Lemma keeps_set_key_value key mapping :
(forall v, (REPLY_FAST_POLLS_LEFT, v) ∈ mapping -> counter_ok v) ->
keeps counters_ok (_set_key_value key mapping).
Proof.
intros Hmap. apply keeps_bind.
- apply keeps_command. intros db _. by apply counters_ok_hmset.
- intros []; [apply keeps_ret | apply keeps_raise].
Qed.

Lemma keeps_del_message key permissive :
keeps counters_ok (_del_message key permissive).
Proof.
apply keeps_bind.
- apply keeps_command. intros db _. apply counters_ok_hdel.
- intros n. destruct (_ && _); [apply keeps_raise | apply keeps_ret].
Qed.

Lemma keeps_expire key : keeps counters_ok (_expire key).
Proof.
apply keeps_bind.
- apply keeps_command. intros db now. apply counters_ok_expire.
- intros []; [apply keeps_ret | apply keeps_raise].
Qed.

Lemma keeps_hincrby key field n :
field <> REPLY_FAST_POLLS_LEFT ->
keeps counters_ok (redis_hincrby key field n).
Proof.
intros Hf. apply keeps_bind.
- apply keeps_command. intros db _. by apply counters_ok_hincrby.
- intros [z|]; [apply keeps_ret | apply keeps_raise].
Qed.

Lemma keeps_update_stats operation msg :
is_direction operation -> keeps counters_ok (_update_stats operation msg).
Proof.
intros Hop. apply keeps_bind; [apply keeps_time_now|]. intros now.
apply keeps_bind.
{ apply keeps_hincrby. by destruct Hop as [-> | ->]. }
intros _. apply keeps_bind.
{ apply keeps_hincrby. by destruct Hop as [-> | ->]. }
intros _. apply keeps_ret.
Qed.

Ltac no_counter :=
let v := fresh in let H := fresh in
intros v H; repeat (apply elem_of_cons in H as [H|H]; [discriminate|]);
by apply not_elem_of_nil in H.

Lemma keeps_enqueue tid operation channel msg :
is_direction operation ->
keeps counters_ok (_enqueue tid operation channel msg).
Proof.
intros Hop. apply keeps_bind; [apply keeps_query|]. intros cur_value.
destruct (_ || _); [|apply keeps_raise].
apply keeps_bind; [apply keeps_time_now|]. intros now.
apply keeps_bind; [apply keeps_set_key_value; no_counter|]. intros _.
apply keeps_bind; [apply keeps_expire|]. intros _.
by apply keeps_update_stats.
Qed.

Lemma keeps_cadence key : keeps counters_ok (_dequeue_cadence cfg key).
Proof.
apply keeps_bind; [apply keeps_query|]. intros o.
apply keeps_bind.
{ destruct o as [b|]; [|apply keeps_ret].
destruct (int_of_bytes b); [apply keeps_ret | apply keeps_raise]. }
intros n. destruct (Z.ltb_spec 0 n); [|apply keeps_ret].
apply keeps_bind; [|intros _; apply keeps_ret].
apply keeps_set_key_value. intros v Hv.
apply list_elem_of_singleton in Hv. injection Hv as ->.
apply counter_ok_str. lia.
Qed.

Lemma keeps_dequeue_try fuel key reset_first :
keeps counters_ok (_dequeue_try cfg fuel key reset_first).
Proof.
apply keeps_bind; [apply keeps_query|]. intros busy.
destruct (String.eqb busy DEQUEUE_BUSY_STATUS); [apply keeps_ret|].
apply keeps_bind; [apply keeps_set_key_value; no_counter|]. intros _.
apply keeps_bind.
{ destruct reset_first; [apply keeps_del_message | apply keeps_ret]. }
intros _.
apply keeps_bind; [apply keeps_set_key_value; no_counter|]. intros _.
apply keeps_bind; [apply keeps_expire|]. intros _.
apply keeps_bind; [apply keeps_cadence|]. intros [n secs].
apply keeps_bind; [apply keeps_query|]. intros message.
apply keeps_bind; [apply keeps_poll|]. intros message'.
destruct (truthy message'); [|apply keeps_ret].
apply keeps_bind; [apply keeps_del_message|]. intros _.
apply keeps_bind; [apply keeps_time_now|]. intros now.
apply keeps_bind; [|intros _; apply keeps_ret].
apply keeps_set_key_value. intros v Hv.
apply elem_of_cons in Hv as [Hv|Hv]; [discriminate|].
apply list_elem_of_singleton in Hv. injection Hv as ->.
by apply counter_ok_str.
Qed.

Lemma keeps_dequeue fuel tid operation channel reset_first :
keeps counters_ok (_dequeue cfg fuel tid operation channel reset_first).
Proof.
apply keeps_try_finally; [apply keeps_dequeue_try|].
intros r. destruct (valid_reader_at_exit r); [|apply keeps_ret].
apply keeps_set_key_value. no_counter.
Qed.

Lemma keeps_content_type request prefix :
keeps counters_ok (content_type_startswith request prefix).
Proof.
unfold content_type_startswith.
destruct (content_type request); [apply keeps_ret | apply keeps_raise].
Qed.

Lemma keeps_queue_request request : keeps counters_ok (queue_request request).
Proof.
apply keeps_bind; [apply keeps_get_transaction_id|]. intros tid.
apply keeps_try_except; [|intros e; apply keeps_ret].
destruct (args_get _ _) as [channel|]; [|apply keeps_raise].
apply keeps_bind; [apply keeps_content_type|]. intros [|]; [|apply keeps_raise].
apply keeps_bind; [apply keeps_query|]. intros last_reply.
apply keeps_bind.
{ destruct (truthy last_reply); [apply keeps_del_message | apply keeps_ret]. }
intros _. apply keeps_bind; [apply keeps_enqueue; by left|]. intros _.
apply keeps_ret.
Qed.

Lemma keeps_queue_reply request : keeps counters_ok (queue_reply request).
Proof.
apply keeps_bind; [apply keeps_get_transaction_id|]. intros tid.
apply keeps_try_except; [|intros e; apply keeps_ret].
destruct (args_get _ _) as [channel|]; [|apply keeps_raise].
apply keeps_bind; [apply keeps_content_type|]. intros [|]; [|apply keeps_raise].
apply keeps_bind; [apply keeps_enqueue; by right|]. intros _.
apply keeps_ret.
Qed.

Lemma keeps_dequeue_handler operation fuel request :
keeps counters_ok (dequeue_handler operation cfg fuel request).
Proof.
apply keeps_bind; [apply keeps_get_transaction_id|]. intros tid.
apply keeps_try_except; [|intros e; apply keeps_ret].
destruct (args_get _ _) as [channel|]; [|apply keeps_raise].
apply keeps_bind; [apply keeps_dequeue|]. intros [[m|] [|]]; apply keeps_ret.
Qed.

End counters.

Lemma keeps_decode_utf8 (b : string) : keeps counters_ok (decode_utf8 b).
Proof.
  unfold decode_utf8.
  destruct (utf8_valid b); [apply keeps_ret | apply keeps_raise].
Qed.

Lemma keeps_decode_counts (counts : list (option string)) :
  keeps counters_ok (decode_counts counts).
Proof.
  induction counts as [|count counts IH]; [apply keeps_ret|].
  cbn [decode_counts]. apply keeps_bind.
  { destruct count; [apply keeps_decode_utf8 | apply keeps_ret]. }
  intros text. apply keeps_bind; [apply IH|]. intros texts. apply keeps_ret.
Qed.

Lemma keeps_stats : keeps counters_ok stats.
Proof.
  apply keeps_bind; [apply keeps_query|]. intros keys.
  apply keeps_bind; [|intros d; apply keeps_ret].
  generalize (∅ : gmap string string).
  induction keys as [|key keys IH]; intros d; [apply keeps_ret|].
  cbn [stats_loop]. apply keeps_bind; [apply keeps_decode_utf8|].
  intros day_text. apply keeps_bind; [apply keeps_query|]. intros counts.
  apply keeps_bind; [apply keeps_decode_counts|]. intros texts.
  apply IH.
Qed.

(** ** Runs that return *)

Section hoare_rules.
Context {A B : Type}.

Lemma hoare_ret (P : World -> Prop) (a : A) (Q : A -> World -> Prop) :
(forall w, P w -> Q a w) -> hoare P (mret a) Q.
Proof. intros H w a' w' Hw [= <- <-]. by apply H. Qed.

Lemma hoare_raise (P : World -> Prop) (e : exn) (Q : A -> World -> Prop) :
hoare P (raise e) Q.
Proof. by intros w a w' Hw. Qed.

Lemma hoare_hang (P : World -> Prop) (Q : A -> World -> Prop) :
hoare P hang Q.
Proof. by intros w a w' Hw. Qed.

Lemma hoare_bind (P : World -> Prop) (m : M A) (R : A -> World -> Prop)
(k : A -> M B) (Q : B -> World -> Prop) :
hoare P m R -> (forall a, hoare (R a) (k a) Q) -> hoare P (m ≫= k) Q.
Proof.
intros Hm Hk w b w' Hw. unfold mbind, M_bind.
destruct (m w) as [[a|e|] w1] eqn:E; [|done..].
apply Hk. by eapply Hm.
Qed.

Lemma hoare_weaken (P P' : World -> Prop) (m : M A) (Q Q' : A -> World -> Prop) :
hoare P' m Q' -> (forall w, P w -> P' w) ->
(forall a w, Q' a w -> Q a w) -> hoare P m Q.
Proof. intros H HP HQ w a w' Hw Hrun. eapply HQ, H; eauto. Qed.

Lemma hoare_returns_only (P : World -> Prop) (m : M A)
(Q : A -> World -> Prop) (R : A -> Prop) :
hoare P m Q -> returns_only m R -> hoare P m (fun a w => Q a w /\ R a).
Proof. intros H HR w a w' Hw Hrun. split; [by eapply H | by eapply HR]. Qed.

Lemma hoare_command (P : World -> Prop) (Post : A -> World -> Prop)
(f : Redis -> Q -> A * Redis) :
(forall w, P w ->
         Post (f (first_seen w) (clock w)).1
              (after_command w (f (first_seen w) (clock w)).2)) ->
hoare P (command f) Post.
Proof.
intros H w a w' Hw. rewrite command_any. intros [= <- <-]. by apply H.
Qed.

End hoare_rules.

(** ** The life of a slot key *)

Lemma lives_until_hmset (db : Redis) (key' : string)
    (mapping : list (string * string)) (key : string) (t : Q) :
  lives_until db key t -> lives_until (redis.hmset db key' mapping).2 key t.
Proof. unfold lives_until. by rewrite ttl_hmset. Qed.

Lemma lives_until_hdel (db : Redis) (key' field key : string) (t : Q) :
  lives_until db key t -> lives_until (redis.hdel db key' field).2 key t.
Proof.
  unfold lives_until, ttl_deadline, redis.hdel.
  destruct (db !! key') as [e|] eqn:E; [|done].
  destruct (hash e !! field); [|done].
  destruct (decide (key' = key)) as [->|Hne].
  - rewrite E. case_decide; simpl.
    + by rewrite lookup_delete_eq.
    + by rewrite lookup_insert_eq.
  - case_decide; simpl.
    + by rewrite lookup_delete_ne.
    + by rewrite lookup_insert_ne.
Qed.

Section life.
Variable key : string.
Variable P : World -> Prop.
Hypothesis P_step :
forall w db',
P w ->
(forall t, lives_until (first_seen w) key t -> lives_until db' key t) ->
P (after_command w db').

Lemma life_query {A} (f : Redis -> A) : hoare P (query f) (fun _ => P).
Proof. apply hoare_command. intros w Hw. simpl. by apply P_step. Qed.

Lemma life_set_key_value key' mapping :
hoare P (_set_key_value key' mapping) (fun _ => P).
Proof.
eapply hoare_bind.
- apply (hoare_command P (fun _ => P)). intros w Hw. simpl.
apply P_step; [done|]. intros t. apply lives_until_hmset.
- intros []; [by apply hoare_ret | apply hoare_raise].
Qed.

Lemma life_del_message key' permissive :
hoare P (_del_message key' permissive) (fun _ => P).
Proof.
eapply hoare_bind.
- apply (hoare_command P (fun _ => P)). intros w Hw.
apply P_step; [done|]. intros t. apply lives_until_hdel.
- intros n. destruct (_ && _); [apply hoare_raise | by apply hoare_ret].
Qed.

Lemma life_cadence cfg key' :
hoare P (_dequeue_cadence cfg key')
(fun r w => P w /\ (r.2 = FAST_DEQUEUE_POLLING_SECS cfg
                    \/ r.2 = SLOW_DEQUEUE_POLLING_SECS cfg)).
Proof.
apply hoare_returns_only; [|apply cadence_interval].
eapply hoare_bind; [apply life_query|]. intros o.
eapply (hoare_bind _ _ (fun _ => P)).
{ destruct o as [b|]; [|by apply hoare_ret].
destruct (int_of_bytes b); [by apply hoare_ret | apply hoare_raise]. }
intros n. destruct (0 <? n); [|by apply hoare_ret].
eapply (hoare_bind _ _ (fun _ => P)); [apply life_set_key_value|].
intros _. by apply hoare_ret.
Qed.

End life.

Lemma keeps_alive_first_seen (key : string) (w : World) (t : Q) :
  Forall (keeps_alive key t) (others w) ->
  lives_until (redis_db w) key t -> lives_until (first_seen w) key t.
Proof.
  intros Ho H. unfold first_seen. destruct (others w) as [|g os]; [done|].
  apply Forall_cons in Ho as [Hg _]. by apply Hg.
Qed.

Lemma not_refreshed_step (key : string) (t0 : Q) (w : World) (db' : Redis) :
  not_refreshed key t0 w -> not_refreshed key t0 (after_command w db').
Proof.
  intros [Ho Hc]. split; [|done]. simpl.
  destruct (others w); [done|]. by apply Forall_cons in Ho as [_ Ho].
Qed.

Lemma refreshed_step (key : string) (t0 : Q) (w : World) (db' : Redis) :
  refreshed key t0 w ->
  (forall t, lives_until (first_seen w) key t -> lives_until db' key t) ->
  refreshed key t0 (after_command w db').
Proof.
  intros (Ho & Hl & Hc) Hdb. split; [|split; [|done]]; simpl.
  - destruct (others w); [done|]. by apply Forall_cons in Ho as [_ Ho].
  - by apply Hdb, keeps_alive_first_seen.
Qed.

(** The [EXPIRE] of a reader gives the key a whole life from then on. *)
Lemma expire_refreshes (key : string) (t0 : Q) :
  hoare (not_refreshed key t0) (_expire key) (fun _ => refreshed key t0).
Proof.
  eapply (hoare_bind _ _
            (fun ok w => ok = true -> refreshed key t0 w)).
  - apply hoare_command. intros w [Ho Hc] Hok.
    rewrite expire_fst in Hok. apply bool_decide_eq_true in Hok.
    split; [|split]; simpl.
    + destruct (others w); [done|]. by apply Forall_cons in Ho as [_ Ho].
    + unfold lives_until. rewrite ttl_expire by done. rewrite Hc. lra.
    + rewrite Hc. lra.
  - intros [|]; [|apply hoare_raise]. apply hoare_ret. auto.
Qed.

(** However long the loop sleeps and whatever the store becomes
    meanwhile, the key keeps the life the reader gave it. *)
Lemma poll_life (key : string) (t0 : Q) (fuel : nat) (key' : string)
    (secs : Q) (message : option string) (left : Q) :
  hoare (refreshed key t0)
        (_dequeue_poll fuel key' secs message left)
        (fun _ => refreshed key t0).
Proof.
  revert message left.
  induction fuel as [|fuel IH]; intros message left.
  - destruct message; simpl; [by apply hoare_ret|].
    destruct (Qlt_le_dec 0 left); [apply hoare_hang | by apply hoare_ret].
  - destruct message; cbn [_dequeue_poll]; [by apply hoare_ret|].
    destruct (Qlt_le_dec 0 left); [|by apply hoare_ret].
    eapply (hoare_bind _ _ (fun _ => refreshed key t0)).
    { intros w [] w' (Ho & Hlife & Hc). unfold time_sleep.
      destruct (Qlt_le_dec secs 0); [done|]. intros [= <-].
      repeat split; try done; simpl; lra. }
    intros _. eapply (hoare_bind _ _ (fun _ => refreshed key t0)).
    { apply (life_query key). intros w db'. apply refreshed_step. }
    intros m. apply IH.
Qed.

Lemma hoare_pure {A} (P : World -> Prop) (fact : Prop) (m : M A)
    (Q : A -> World -> Prop) :
  (fact -> hoare P m Q) -> hoare (fun w => P w /\ fact) m Q.
Proof. intros H w a w' [Hw Hf]. by apply H. Qed.

Lemma hoare_try_finally {A} (P : World -> Prop) (body : M A)
    (R : A -> World -> Prop) (final : outcome A -> M unit)
    (Q : A -> World -> Prop) :
  hoare P body R ->
  (forall a, hoare (R a) (final (Returns a)) (fun _ => Q a)) ->
  hoare P (try_finally body final) Q.
Proof.
  intros Hb Hf w a w' Hw. unfold try_finally.
  destruct (body w) as [[a1|e|] w1] eqn:E; [| |done].
  - destruct (final (Returns a1) w1) as [[u|e'|] w2] eqn:F; [|done..].
    intros [= <- <-]. eapply Hf; [|exact F]. by eapply Hb.
  - by destruct (final (Raises e) w1) as [[u|e'|] w2].
Qed.

Section dequeue_life.
Variable cfg : Config.
Variable key : string.
Variable t0 : Q.

Lemma dequeue_try_life (fuel : nat) (reset_first : bool) :
  hoare (not_refreshed key t0) (_dequeue_try cfg fuel key reset_first)
        (fun r w => r.2 = true -> refreshed key t0 w).
Proof.
  pose proof (fun w db' (H : not_refreshed key t0 w)
                (_ : forall t, lives_until (first_seen w) key t ->
                               lives_until db' key t) =>
              not_refreshed_step key t0 w db' H) as Hstep0.
  pose proof (fun w db' => refreshed_step key t0 w db') as Hstep.
  unfold _dequeue_try.
  eapply (hoare_bind _ _ (fun _ => not_refreshed key t0));
    [by apply (life_query key)|].
  intros busy. destruct (String.eqb busy DEQUEUE_BUSY_STATUS).
  { apply hoare_ret. by intros w _ [=]. }
  eapply (hoare_bind _ _ (fun _ => not_refreshed key t0));
    [by apply (life_set_key_value key)|]. intros _.
  eapply (hoare_bind _ _ (fun _ => not_refreshed key t0)).
  { destruct reset_first;
      [by apply (life_del_message key) | by apply hoare_ret]. }
  intros _.
  eapply (hoare_bind _ _ (fun _ => not_refreshed key t0));
    [by apply (life_set_key_value key)|]. intros _.
  eapply (hoare_bind _ _ (fun _ => refreshed key t0));
    [apply expire_refreshes|]. intros _.
  eapply hoare_bind; [apply (life_cadence key); by apply Hstep|].
  intros [n secs]. apply hoare_pure. simpl. intros Hsecs.
  eapply (hoare_bind _ _ (fun _ => refreshed key t0));
    [apply (life_query key); by apply Hstep|]. intros message.
  eapply (hoare_bind _ _ (fun _ => refreshed key t0)); [apply poll_life|].
  intros message'.
  destruct (truthy message'); [|apply hoare_ret; auto].
  eapply (hoare_bind _ _ (fun _ => refreshed key t0));
    [apply (life_del_message key); by apply Hstep|].
  intros _.
  eapply (hoare_bind _ _ (fun _ => refreshed key t0)).
  { intros w now w' H [= <- <-]. done. }
  intros now.
  eapply (hoare_bind _ _ (fun _ => refreshed key t0));
    [apply (life_set_key_value key); by apply Hstep|].
  intros _. apply hoare_ret. auto.
Qed.

Lemma dequeue_life (fuel : nat) (tid : Z) (operation channel : string)
    (reset_first : bool) :
  key = slot_key channel operation ->
  hoare (not_refreshed key t0)
        (_dequeue cfg fuel tid operation channel reset_first)
        (fun r w => r.2 = true -> refreshed key t0 w).
Proof.
  intros Hk. unfold _dequeue. rewrite <- Hk.
  eapply hoare_try_finally; [apply dequeue_try_life|].
  intros [m [|]]; simpl.
  - eapply hoare_weaken.
    + apply (life_set_key_value key (refreshed key t0)
               (fun w db' => refreshed_step key t0 w db')).
    + auto.
    + auto.
  - apply hoare_ret. by intros w _ [=].
Qed.

End dequeue_life.

(** *** A reader alone *)

Lemma hoare_alone {A} (P : World -> Prop) (Post : A -> World -> Prop)
    (f : Redis -> Q -> A * Redis) :
  (forall w, P w ->
             others w = []
             /\ Post (f (redis_db w) (clock w)).1
                     (with_db w (f (redis_db w) (clock w)).2)) ->
  hoare P (command f) Post.
Proof.
  intros H w a w' Hw. destruct (H w Hw) as [Hq HP].
  rewrite command_alone by done. by intros [= <- <-].
Qed.

Section alone_life.
Variable key : string.

(** The writes of a reader but the release of the interlock leave it
    held, and none of them moves the deadline of the key. *)
Lemma held_hmset (d : Q) (mapping : list (string * string)) (w : World) :
  Forall (fun kv => kv.1 <> DEQUEUE_BUSY) mapping ->
  held_until key d w ->
  held_until key d (with_db w (redis.hmset (redis_db w) key mapping).2).
Proof.
  intros Hm (Hq & Hd & Hb). split; [done|]. wsimpl. split.
  - by rewrite ttl_hmset.
  - rewrite hget_hgetall, hgetall_hmset, decide_True by done.
    rewrite hget_hgetall in Hb. revert Hb.
    generalize (redis.hgetall (redis_db w) key).
    induction Hm as [|[f v] mapping Hf Hm IH]; intros h Hb; [done|].
    simpl. apply IH. by rewrite lookup_insert_ne.
Qed.

Lemma held_hdel (d : Q) (w : World) :
  held_until key d w ->
  held_until key d (with_db w (redis.hdel (redis_db w) key MESSAGE).2).
Proof.
  intros (Hq & Hd & Hb). split; [done|]. wsimpl. split.
  - destruct (ttl_hdel_kept (redis_db w) key MESSAGE DEQUEUE_BUSY)
      as [Httl _]; [done|by rewrite Hb|]. by rewrite Httl.
  - by rewrite hget_hdel_ne.
Qed.

Lemma held_set_key_value (d : Q) (mapping : list (string * string)) :
  Forall (fun kv => kv.1 <> DEQUEUE_BUSY) mapping ->
  hoare (held_until key d) (_set_key_value key mapping)
        (fun _ => held_until key d).
Proof.
  intros Hm w [] w' Hw. rewrite run_set_key_value by apply Hw.
  intros [= <-]. by apply held_hmset.
Qed.

Lemma held_del_message (d : Q) (permissive : bool) :
  hoare (held_until key d) (_del_message key permissive)
        (fun _ => held_until key d).
Proof.
  intros w [] w' Hw. rewrite run_del_message by apply Hw.
  destruct (_ && _); [done|]. intros [= <-]. by apply held_hdel.
Qed.

Lemma held_query {A} (d : Q) (f : Redis -> A) :
  hoare (held_until key d) (query f) (fun _ => held_until key d).
Proof.
  apply hoare_alone. intros w Hw. split; [apply Hw|].
  by rewrite with_db_same.
Qed.

Lemma held_cadence (cfg : Config) (d : Q) :
  hoare (held_until key d) (_dequeue_cadence cfg key)
        (fun _ => held_until key d).
Proof.
  eapply hoare_bind; [apply held_query|]. intros o.
  eapply (hoare_bind _ _ (fun _ => held_until key d)).
  { destruct o as [b|]; [|by apply hoare_ret].
    destruct (int_of_bytes b); [by apply hoare_ret | apply hoare_raise]. }
  intros n. destruct (0 <? n); [|by apply hoare_ret].
  eapply (hoare_bind _ _ (fun _ => held_until key d)).
  { apply held_set_key_value. by repeat constructor. }
  intros _. by apply hoare_ret.
Qed.

Lemma held_poll (d : Q) (fuel : nat) (secs : Q) (message : option string)
    (left : Q) :
  hoare (held_until key d) (_dequeue_poll fuel key secs message left)
        (fun _ => held_until key d).
Proof.
  revert message left.
  induction fuel as [|fuel IH]; intros message left.
  - destruct message; simpl; [by apply hoare_ret|].
    destruct (Qlt_le_dec 0 left); [apply hoare_hang | by apply hoare_ret].
  - destruct message; cbn [_dequeue_poll]; [by apply hoare_ret|].
    destruct (Qlt_le_dec 0 left); [|by apply hoare_ret].
    eapply (hoare_bind _ _ (fun _ => held_until key d)).
    { intros w [] w' Hw. unfold time_sleep.
      destruct (Qlt_le_dec secs 0); [done|]. by intros [= <-]. }
    intros _. eapply hoare_bind; [apply held_query|].
    intros m. apply IH.
Qed.

(** A reader alone that returns leaves the deadline its [EXPIRE] set when
    the call began, whatever it wrote later and however long it slept. *)
Lemma dequeue_try_exact (cfg : Config) (fuel : nat) (reset_first : bool)
    (t0 : Q) :
  hoare (fun w => others w = [] /\ clock w = t0)
        (_dequeue_try cfg fuel key reset_first)
        (fun r w => r.2 = true -> held_until key (t0 + EXPIRE_SECS) w).
Proof.
  unfold _dequeue_try.
  eapply (hoare_bind _ _ (fun _ w => others w = [] /\ clock w = t0)).
  { apply hoare_alone. intros w Hw. split; [apply Hw|].
    by rewrite with_db_same. }
  intros busy. destruct (String.eqb busy DEQUEUE_BUSY_STATUS).
  { apply hoare_ret. by intros w _ [=]. }
  eapply (hoare_bind _ _ (fun _ => holding key t0)).
  { intros w [] w' [Hq Hc]. rewrite run_set_key_value by done.
    intros Hrun; apply (f_equal snd) in Hrun; cbn [snd] in Hrun; subst w'. split; [done|]. split; [done|]. cbn [with_db redis_db].
    by rewrite hget_hmset_1, decide_True. }
  intros _.
  eapply (hoare_bind _ _ (fun _ => holding key t0)).
  { destruct reset_first; [|by apply hoare_ret].
    intros w [] w' (Hq & Hc & Hb). rewrite run_del_message by done.
    destruct (_ && _); [done|]. intros Hrun; apply (f_equal snd) in Hrun; cbn [snd] in Hrun; subst w'.
    split; [done|]. split; [done|]. cbn [with_db redis_db].
    by rewrite hget_hdel_ne. }
  intros _.
  eapply (hoare_bind _ _ (fun _ => holding key t0)).
  { intros w [] w' (Hq & Hc & Hb). rewrite run_set_key_value by done.
    intros Hrun; apply (f_equal snd) in Hrun; cbn [snd] in Hrun; subst w'. split; [done|]. split; [done|]. cbn [with_db redis_db].
    by rewrite hget_hmset_1, decide_False. }
  intros _.
  eapply (hoare_bind _ _ (fun _ => held_until key (t0 + EXPIRE_SECS))).
  { intros w [] w' (Hq & Hc & Hb). rewrite run_expire by done.
    rewrite expire_fst.
    assert (is_Some (redis_db w !! key)) as Hkey.
    { unfold redis.hget in Hb. destruct (redis_db w !! key); [eauto|done]. }
    rewrite bool_decide_eq_true_2 by done. intros Hrun; apply (f_equal snd) in Hrun; cbn [snd] in Hrun; subst w'.
    split; [done|]. cbn [with_db redis_db]. split.
    - by rewrite ttl_expire, Hc.
    - by rewrite hget_expire. }
  intros _.
  eapply (hoare_bind _ _ (fun _ => held_until key (t0 + EXPIRE_SECS)));
    [apply held_cadence|].
  intros [n secs].
  eapply (hoare_bind _ _ (fun _ => held_until key (t0 + EXPIRE_SECS)));
    [apply held_query|]. intros message.
  eapply (hoare_bind _ _ (fun _ => held_until key (t0 + EXPIRE_SECS)));
    [apply held_poll|]. intros message'.
  destruct (truthy message'); [|apply hoare_ret; auto].
  eapply (hoare_bind _ _ (fun _ => held_until key (t0 + EXPIRE_SECS)));
    [apply held_del_message|]. intros _.
  eapply (hoare_bind _ _ (fun _ => held_until key (t0 + EXPIRE_SECS))).
  { intros w now w' H [= <- <-]. done. }
  intros now.
  eapply (hoare_bind _ _ (fun _ => held_until key (t0 + EXPIRE_SECS))).
  { apply held_set_key_value. by repeat constructor. }
  intros _. apply hoare_ret. auto.
Qed.

End alone_life.

Lemma dequeue_exact (cfg : Config) (fuel : nat) (tid : Z)
    (operation channel : string) (reset_first : bool) (w w' : World)
    (m : option string) :
  others w = [] ->
  _dequeue cfg fuel tid operation channel reset_first w
  = (Returns (m, true), w') ->
  ttl_deadline (redis_db w') (slot_key channel operation)
  = Some (clock w + EXPIRE_SECS)%Q.
Proof.
  intros Hq. unfold _dequeue, try_finally.
  destruct (_dequeue_try _ _ _ _ _) as [[[m1 vr]|e|] w1] eqn:Htry; [| |done].
  - destruct vr; cbn [valid_reader_at_exit]; [|by intros [= ]].
    destruct (dequeue_try_exact (slot_key channel operation) cfg fuel
                reset_first (clock w) w (m1, true) w1)
      as (Hq1 & Hd & _); [done|done|done|].
    rewrite run_set_key_value by done.
    intros Hrun; apply (f_equal snd) in Hrun; cbn [snd] in Hrun; subst w'.
    cbn [with_db redis_db].
    by rewrite ttl_hmset.
  - cbn [valid_reader_at_exit].
    by destruct (_set_key_value _ _ w1) as [[u|e'|] w2].
Qed.

(** The commands this program sends are actions that keep a key alive:
    its writes move no deadline, and its [EXPIRE], sent at [t] or later,
    sets none before [t + EXPIRE_SECS]. *)
Lemma keeps_alive_hmset (key : string) (t : Q) (key' : string)
    (mapping : list (string * string)) :
  keeps_alive key t (fun db => (redis.hmset db key' mapping).2).
Proof. intros db. apply lives_until_hmset. Qed.

Lemma keeps_alive_hdel (key : string) (t : Q) (key' field : string) :
  keeps_alive key t (fun db => (redis.hdel db key' field).2).
Proof. intros db. apply lives_until_hdel. Qed.

Lemma keeps_alive_expire (key : string) (t now : Q) (key' : string) :
  (t <= now + EXPIRE_SECS)%Q ->
  keeps_alive key t (fun db => (redis.expire db now key' EXPIRE_SECS).2).
Proof.
  intros Ht db. unfold lives_until, ttl_deadline, redis.expire.
  destruct (db !! key') as [e|] eqn:E; [|done]. simpl.
  destruct (decide (key' = key)) as [->|Hne].
  - by rewrite lookup_insert_eq.
  - by rewrite lookup_insert_ne.
Qed.

Lemma keeps_alive_hincrby (key : string) (t : Q) (key' field : string)
    (n : Z) :
  keeps_alive key t (fun db => (redis.hincrby db key' field n).2).
Proof.
  intros db H. unfold redis.hincrby.
  destruct (match redis.hget db key' field with
            | Some s => redis.string2ll s
            | None => Some 0
            end) as [z|]; [|done].
  cbv zeta. destruct (_ && _); [|done]. by apply lives_until_hmset.
Qed.
(** The slot of a reader that returns exists: the [finally] clause wrote
    to it last. *)
Lemma dequeue_leaves_key (cfg : Config) (fuel : nat) (tid : Z)
    (operation channel : string) (reset_first : bool) (w w' : World)
    (m : option string) :
  _dequeue cfg fuel tid operation channel reset_first w
  = (Returns (m, true), w') ->
  is_Some (redis_db w' !! slot_key channel operation).
Proof.
  unfold _dequeue, try_finally.
  destruct (_dequeue_try _ _ _ _ _) as [[[m1 vr]|e|] w1]; [| |done].
  - destruct vr; cbn [valid_reader_at_exit].
    + rewrite set_key_value_any. intros H.
      apply (f_equal snd) in H. cbn [snd] in H. subst w'.
      cbn [after_command redis_db]. apply hmset_is_Some.
    + by intros [= ].
  - cbn [valid_reader_at_exit]. by rewrite set_key_value_any.
Qed.

(** ** Times to live after an enqueue and after a dequeue *)




(** ** The counter of fast polls through a call *)

(** Alone, the polling loop leaves the store as it is. *)
Lemma poll_alone (fuel : nat) (key : string) (secs : Q)
    (message : option string) (left : Q) (w : World)
    (r : outcome (option string)) (w' : World) :
  others w = [] ->
  _dequeue_poll fuel key secs message left w = (r, w') ->
  redis_db w' = redis_db w /\ others w' = [].
Proof.
  revert message left w.
  induction fuel as [|fuel IH]; intros message left w Hq.
  - destruct message; simpl; [by intros [= _ <-]|].
    destruct (Qlt_le_dec 0 left); by intros [= _ <-].
  - destruct message; cbn [_dequeue_poll]; [by intros [= _ <-]|].
    destruct (Qlt_le_dec 0 left); [|by intros [= _ <-]].
    unfold time_sleep at 1.
    destruct (Qlt_le_dec secs 0).
    + erewrite bind_raises by reflexivity. by intros [= _ <-].
    + erewrite bind_returns by reflexivity.
      erewrite bind_returns by (by apply query_alone).
      intros Hrun. by apply IH in Hrun.
Qed.

(** Alone, a reader that returns without a message leaves the store the
    cadence selection left, the interlock released. *)
Lemma dequeue_no_message (cfg : Config) (fuel : nat) (tid : Z)
    (operation channel : string) (reset_first : bool) (w w' : World)
    (n : Z) :
  let key := slot_key channel operation in
  others w = [] ->
  reader_free (redis_db w) key ->
  fast_polls_left_of cfg (redis_db w) key = Some n ->
  _dequeue cfg fuel tid operation channel reset_first w
  = (Returns (None, true), w') ->
  redis_db w'
  = exit_store
      (cadence_store (entry_store (redis_db w) (clock w) key reset_first)
                     key n)
      key.
Proof.
  intros key Hq Hfree Hn. unfold _dequeue, try_finally. fold key.
  rewrite dequeue_try_entry by done.
  erewrite bind_returns.
  2:{ apply cadence_alone; [done|]. wsimpl. unfold fast_polls_left_of in *.
      by rewrite hget_entry_store_counter. }
  cbv beta iota. wsimpl.
  set (db := cadence_store
               (entry_store (redis_db w) (clock w) key reset_first) key n).
  erewrite bind_returns by (by apply query_alone). wsimpl.
  unfold mbind at 1, M_bind at 1.
  destruct (_dequeue_poll _ _ _ _ _ _) as [[m'|e|] w2] eqn:Hpoll.
  - apply poll_alone in Hpoll as [Hdb Hq2]; [|done]. wsimpl in Hdb.
    destruct (truthy m') eqn:Ht.
    + destruct m' as [x|]; [|done]. unfold mbind at 1, M_bind at 1.
      destruct (_del_message key false w2) as [[u|e|] w3]; [| |done].
      * erewrite bind_returns by reflexivity.
        unfold mbind at 1, M_bind at 1.
        destruct (_set_key_value key _ w3) as [[u'|e|] w4]; [| |done].
        -- unfold mret, M_ret. cbn [valid_reader_at_exit].
           by destruct (_set_key_value key _ w4) as [[u''|e|] w5].
        -- cbn [valid_reader_at_exit].
           by destruct (_set_key_value key _ w4) as [[u''|e'|] w5].
      * cbn [valid_reader_at_exit].
        by destruct (_set_key_value key _ w3) as [[u''|e'|] w5].
    + unfold mret, M_ret. cbn [valid_reader_at_exit].
      rewrite run_set_key_value by done.
      intros Hrun. apply (f_equal snd) in Hrun. cbn [snd] in Hrun. subst w'.
      cbn [with_db redis_db]. by rewrite Hdb.
  - cbn [valid_reader_at_exit].
    by destruct (_set_key_value key _ w2) as [[u''|e'|] w5].
  - done.
Qed.

(** *** A call that is watched *)

Lemma query_idle {A} (f : Redis -> A) (db : Redis) (t : Q)
    (os : list (Redis -> Redis)) (k : Z) :
  query f {| redis_db := db; clock := t; others := id :: os;
             transaction_id := k |}
  = (Returns (f db),
     {| redis_db := db; clock := t; others := os; transaction_id := k |}).
Proof. by rewrite query_any. Qed.

Lemma query_first {A} (f : Redis -> A) (db : Redis) (t : Q)
    (g : Redis -> Redis) (os : list (Redis -> Redis)) (k : Z) :
  query f {| redis_db := db; clock := t; others := g :: os;
             transaction_id := k |}
  = (Returns (f (g db)),
     {| redis_db := g db; clock := t; others := os; transaction_id := k |}).
Proof. by rewrite query_any. Qed.

Lemma set_key_value_idle (key : string) (value : list (string * string))
    (db : Redis) (t : Q) (os : list (Redis -> Redis)) (k : Z) :
  _set_key_value key value
    {| redis_db := db; clock := t; others := id :: os; transaction_id := k |}
  = (Returns tt,
     {| redis_db := (redis.hmset db key value).2; clock := t; others := os;
        transaction_id := k |}).
Proof. by rewrite set_key_value_any. Qed.

Lemma expire_idle (key : string) (db : Redis) (t : Q)
    (os : list (Redis -> Redis)) (k : Z) :
  is_Some (db !! key) ->
  _expire key
    {| redis_db := db; clock := t; others := id :: os; transaction_id := k |}
  = (Returns tt,
     {| redis_db := (redis.expire db t key EXPIRE_SECS).2; clock := t;
        others := os; transaction_id := k |}).
Proof.
  intros Hkey. unfold _expire. erewrite bind_returns by apply command_any.
  cbn [first_seen others redis_db clock id].
  rewrite expire_fst, bool_decide_eq_true_2 by done. reflexivity.
Qed.

Lemma cadence_idle (cfg : Config) (key : string) (db : Redis) (t : Q)
    (os : list (Redis -> Redis)) (k : Z) (n : Z) :
  fast_polls_left_of cfg db key = Some n -> 0 < n ->
  _dequeue_cadence cfg key
    {| redis_db := db; clock := t; others := id :: id :: os;
       transaction_id := k |}
  = (Returns (n - 1, FAST_DEQUEUE_POLLING_SECS cfg),
     {| redis_db := cadence_store db key n; clock := t; others := os;
        transaction_id := k |}).
Proof.
  intros Hn Hpos. unfold _dequeue_cadence, fast_polls_left_of in *.
  erewrite bind_returns by apply query_idle.
  erewrite (bind_returns _ _ _ n).
  2:{ destruct (redis.hget db key REPLY_FAST_POLLS_LEFT) as [b|];
        [by rewrite Hn | by injection Hn as ->]. }
  unfold cadence_store. rewrite (proj2 (Z.ltb_lt 0 n)) by done.
  erewrite bind_returns by apply set_key_value_idle. reflexivity.
Qed.

(** The counter goes down before the message is looked for: a client that
    copies it just before the reader's first look at the message finds it
    one less, also in a call that then takes the message and sets the
    counter to the maximum. *)
Lemma dequeue_observed (cfg : Config) (fuel : nat) (tid : Z)
    (operation channel : string) (w : World) (n : Z) (m probe : string) :
  let key := slot_key channel operation in
  reader_free (redis_db w) key ->
  fast_polls_left_of cfg (redis_db w) key = Some n -> 0 < n ->
  redis.hget (redis_db w) key MESSAGE = Some m -> m <> "" ->
  probe <> key ->
  exists w',
    _dequeue cfg fuel tid operation channel false
      (with_others w [id; id; id; id; id; id;
                      observe key REPLY_FAST_POLLS_LEFT probe])
    = (Returns (Some m, true), w')
    /\ redis.hget (redis_db w') probe REPLY_FAST_POLLS_LEFT
       = Some (str_of_int (n - 1))
    /\ redis.hget (redis_db w') key REPLY_FAST_POLLS_LEFT
       = Some (str_of_int (ALLOWED_FAST_DEQUEUE_POLLS cfg)).
Proof.
  intros key Hfree Hn Hpos Hm Hne Hprobe.
  unfold _dequeue, try_finally, _dequeue_try, with_others. fold key.
  erewrite bind_returns by apply query_idle.
  rewrite reader_free_py_or by done.
  erewrite bind_returns by apply set_key_value_idle.
  erewrite bind_returns by reflexivity.
  erewrite bind_returns by apply set_key_value_idle.
  erewrite bind_returns by (apply expire_idle, hmset_is_Some).
  change (redis.expire _ (clock w) key EXPIRE_SECS).2
    with (entry_store (redis_db w) (clock w) key false).
  set (db1 := entry_store (redis_db w) (clock w) key false).
  erewrite bind_returns.
  2:{ apply cadence_idle; [|done]. unfold fast_polls_left_of in *.
      subst db1. by rewrite hget_entry_store_counter. }
  cbv beta iota.
  set (db2 := cadence_store db1 key n).
  erewrite bind_returns by apply query_first.
  set (db3 := observe key REPLY_FAST_POLLS_LEFT probe db2).
  assert (redis.hget db3 key MESSAGE = Some m) as Hm3.
  { subst db3 db2 db1. unfold observe.
    rewrite hget_hmset_other by done.
    by rewrite hget_cadence_store_ne, hget_entry_store_message. }
  rewrite Hm3.
  erewrite bind_returns by apply poll_present.
  assert (truthy (Some m) = true) as ->.
  { simpl. by destruct (String.eqb_spec m ""). }
  erewrite bind_returns.
  2:{ rewrite run_del_message by reflexivity. wsimpl.
      rewrite hdel_fst, Hm3. reflexivity. }
  erewrite bind_returns by reflexivity.
  erewrite bind_returns by (by apply run_set_key_value).
  unfold mret, M_ret. cbn [valid_reader_at_exit].
  rewrite run_set_key_value by reflexivity.
  eexists. split; [reflexivity|]. wsimpl. split.
  - rewrite hget_hmset_other by done.
    rewrite hget_hmset_other by done.
    rewrite !hget_hgetall, hgetall_hdel, decide_False by done.
    rewrite <- hget_hgetall. subst db3. unfold observe.
    rewrite hget_hmset_1, decide_True by done.
    subst db2. rewrite hget_cadence_store_counter.
    by rewrite (proj2 (Z.ltb_lt 0 n)) by done.
  - rewrite hget_hmset_1, decide_False by done.
    by rewrite hget_hmset_2, decide_True.
Qed.



(** ** Redundant readers *)

Lemma after_command_alone (w : World) :
  others w = [] -> after_command w (first_seen w) = w.
Proof.
  destruct w as [db now os tid]. simpl. intros ->. reflexivity.
Qed.

(** C2.  When the [dequeue_busy] field of the slot holds [busy] as
    [_dequeue] reads it, the call returns [(None, False)] at once, and the
    store is the one its first command met: nothing was written, and the
    field still holds [busy].  The handlers of both directions then answer
    429 with an empty body.  A reader running alone leaves the world as it
    was.  When the field is absent the reader is a valid one, however its
    call ends. *)
Theorem redundant_reader_rejected
    (cfg : Config) (fuel : nat) (tid : Z) (operation channel : string)
    (reset_first : bool) (w : World) :
  let key := slot_key channel operation in
  (redis.hget (first_seen w) key DEQUEUE_BUSY = Some DEQUEUE_BUSY_STATUS ->
   _dequeue cfg fuel tid operation channel reset_first w
   = (Returns (None, false), after_command w (first_seen w))
   /\ (forall request : Request,
         args_get (args request) "channel" = Some channel ->
         args_has (args request) "reset" = reset_first ->
         dequeue_handler operation cfg fuel request w
         = (Returns {| response := ""; status := 429;
                       response_type := "text/plain" |},
            after_command (next_transaction w) (first_seen w)))
   /\ (others w = [] ->
       _dequeue cfg fuel tid operation channel reset_first w
       = (Returns (None, false), w)))
  /\ (redis.hget (first_seen w) key DEQUEUE_BUSY = None ->
      forall r w',
        _dequeue cfg fuel tid operation channel reset_first w = (r, w') ->
        forall message, r <> Returns (message, false)).
Proof.
  intros key. split.
  - intros Hbusy.
    assert (Hd : forall tid' w',
               first_seen w' = first_seen w ->
               _dequeue cfg fuel tid' operation channel reset_first w'
               = (Returns (None, false), after_command w' (first_seen w'))).
    { intros tid' w' Hdb.
      unfold _dequeue, try_finally, _dequeue_try. fold key.
      erewrite bind_returns by apply query_any.
      rewrite Hdb, Hbusy. reflexivity. }
    split; [by apply Hd|]. split.
    + intros request Hch Hreset. unfold dequeue_handler.
      erewrite bind_returns by reflexivity.
      unfold try_except. rewrite Hch, Hreset.
      erewrite bind_returns by (by apply Hd).
      reflexivity.
    + intros Hq. rewrite Hd by done. by rewrite after_command_alone.
  - intros Habsent r w' Hrun message ->.
    revert Hrun. unfold _dequeue, try_finally.
    destruct (_dequeue_try cfg fuel (slot_key channel operation) reset_first w)
      as [r1 w1] eqn:Htry.
    assert (valid_reader_at_exit r1 = true) as Hvalid.
    { eapply dequeue_try_valid; [|exact Htry].
      unfold reader_free. fold key. by rewrite Habsent. }
    destruct r1 as [[m vr]|e|]; [| |done].
    + simpl in Hvalid. subst vr. cbn [valid_reader_at_exit].
      rewrite set_key_value_any. by intros [= ].
    + cbn [valid_reader_at_exit]. by rewrite set_key_value_any.
Qed.

Lemma redundant_reader_rejected_witness :
  _dequeue default_config 0 0 REQUEST "c3" false busy_world
  = (Returns (None, false), busy_world)
  /\ dequeue_request default_config 0 (request_on "c3" "" "") busy_world
     = (Returns {| response := ""; status := 429;
                   response_type := "text/plain" |},
        next_transaction busy_world).
Proof.
  destruct (proj1 (redundant_reader_rejected default_config 0 0 REQUEST "c3"
                     false busy_world)) as (_ & Hhandler & Halone).
  - vm_compute. reflexivity.
  - split; [by apply Halone|]. unfold dequeue_request.
    by rewrite (Hhandler (request_on "c3" "" "")).
Defined.

(** ** The order of the days *)

Lemma compare_refl (a : string) : String.compare a a = Eq.
Proof.
  induction a as [|x a IH]; simpl; [done|].
  unfold Ascii.compare. by rewrite N.compare_refl.
Qed.

Lemma ltb_trans (a b c : string) :
  String.ltb a b = true -> String.ltb b c = true -> String.ltb a c = true.
Proof.
  intros Hab Hbc. apply le_ne_ltb.
  - etrans; apply ltb_true_le; eassumption.
  - intros ->.
    assert (b = c) as -> by (apply (anti_symm String.le); by apply ltb_true_le).
    revert Hbc. unfold String.ltb. by rewrite compare_refl.
Qed.

Lemma days_ascend_after_step (prev : string) (d : Z) (count i : nat) :
  days_ascend_after prev d count = true -> prev = day_string (d - 1) ->
  (i < count)%nat ->
  String.ltb (day_string (d - 1 + Z.of_nat i)) (day_string (d + Z.of_nat i))
  = true.
Proof.
  revert prev d i.
  induction count as [|count IH]; intros prev d i H Hprev Hi; [lia|].
  cbn [days_ascend_after] in H. cbv zeta in H.
  apply andb_prop in H as [H1 H2].
  destruct i as [|i].
  - rewrite !Z.add_0_r. by rewrite <- Hprev.
  - replace (d - 1 + Z.of_nat (S i)) with (d + 1 - 1 + Z.of_nat i) by lia.
    replace (d + Z.of_nat (S i)) with (d + 1 + Z.of_nat i) by lia.
    apply (IH (day_string d)); [done|f_equal; lia|lia].
Qed.

Lemma days_ascend_step (d : Z) (count i : nat) :
  days_ascend d count = true -> (i < count)%nat ->
  String.ltb (day_string (d + Z.of_nat i)) (day_string (d + Z.of_nat i + 1))
  = true.
Proof.
  intros H Hi.
  pose proof (days_ascend_after_step _ (d + 1) count i H) as Hstep.
  replace (d + 1 - 1 + Z.of_nat i) with (d + Z.of_nat i) in Hstep by lia.
  replace (d + 1 + Z.of_nat i) with (d + Z.of_nat i + 1) in Hstep by lia.
  apply Hstep; [f_equal; lia|done].
Qed.

(** From 1970 to the year 2106 the byte order of the keys of the daily
    records is the order of their days. *)
Lemma day_strings_ascend (i j : Z) :
  0 <= i < j -> j <= 50000 ->
  String.ltb (day_string i) (day_string j) = true.
Proof.
  assert (days_ascend 0 (Z.to_nat 50000) = true) as H
    by (vm_compute; reflexivity).
  assert (forall k, 0 <= k < 50000 ->
                    String.ltb (day_string k) (day_string (k + 1)) = true)
    as Hstep.
  { intros k Hk.
    pose proof (days_ascend_step 0 (Z.to_nat 50000) (Z.to_nat k) H) as Hk'.
    rewrite Z2Nat.id, Z.add_0_l in Hk' by lia. apply Hk'. lia. }
  intros Hij Hj.
  replace j with (i + 1 + Z.of_nat (Z.to_nat (j - i - 1))) in * by lia.
  induction (Z.to_nat (j - i - 1)) as [|k IH].
  - rewrite Z.add_0_r. apply Hstep. lia.
  - eapply ltb_trans; [apply IH; lia|].
    replace (i + 1 + Z.of_nat (S k)) with (i + 1 + Z.of_nat k + 1) by lia.
    apply Hstep. lia.
Qed.

(** ** The start of the module *)

Lemma glob_literal (pattern s : string) :
  literal pattern = true -> redis.glob pattern s = String.eqb pattern s.
Proof.
  revert s. induction pattern as [|c p IH]; intros s H; [by destruct s|].
  simpl in H. apply andb_prop in H as [Hc Hp].
  apply negb_true_iff in Hc. simpl. rewrite Hc.
  destruct s as [|d s]; [done|]. by rewrite IH.
Qed.

Lemma glob_star_then (pattern s : string) :
  redis.glob (String "*" pattern) s = true
  <-> exists a b, s = a ++ b /\ redis.glob pattern b = true.
Proof.
  induction s as [|c s IH].
  - simpl. rewrite orb_false_r. split.
    + intros H. by exists "", "".
    + intros (a & b & Hab & H). by destruct a, b.
  - change (redis.glob (String "*" pattern) (String c s))
      with (redis.glob pattern (String c s)
            || redis.glob (String "*" pattern) s).
    rewrite orb_true_iff, IH. split.
    + intros [H|(a & b & -> & H)].
      * by exists "", (String c s).
      * by exists (String c a), b.
    + intros (a & b & Hab & H). destruct a as [|d a].
      * left. change (String c s = b) in Hab. by subst b.
      * right. rewrite append_cons in Hab. injection Hab as -> ->.
        by exists a, b.
Qed.

(** The pattern of a direction matches the keys of its slots. *)
Lemma glob_slots (operation key : string) :
  literal operation = true ->
  redis.glob ("*:" ++ operation) key = true
  <-> exists channel, key = slot_key channel operation.
Proof.
  intros Hop.
  change ("*:" ++ operation) with (String "*" (":" ++ operation)).
  rewrite glob_star_then. split.
  - intros (a & b & -> & H). rewrite glob_literal in H by done.
    apply String.eqb_eq in H as <-. by exists a.
  - intros [channel ->]. exists channel, (":" ++ operation).
    split; [done|]. rewrite glob_literal by done. apply String.eqb_refl.
Qed.

Lemma elem_of_keys (db : Redis) (pattern key : string) :
  key ∈ redis.keys db pattern
  <-> is_Some (db !! key) /\ redis.glob pattern key = true.
Proof.
  unfold redis.keys. rewrite list_elem_of_filter, list_elem_of_fmap. split.
  - intros [Hg ([k e] & -> & Hin)]. split; [|done].
    apply elem_of_map_to_list in Hin. simpl. eauto.
  - intros [[e He] Hg]. split; [done|]. exists (key, e).
    split; [done|]. by apply elem_of_map_to_list.
Qed.

Lemma lookup_without (db : Redis) (keys : list string) (key : string) :
  without db keys !! key = if decide (key ∈ keys) then None else db !! key.
Proof.
  unfold without. revert db.
  induction keys as [|k keys IH]; intros db; cbn [foldl].
  - case_decide as Hin; [|done]. by apply not_elem_of_nil in Hin.
  - rewrite IH. destruct (decide (key ∈ keys)) as [Hin|Hin].
    + case_decide as Hin'; [done|]. destruct Hin'. by right.
    + case_decide as Hin'.
      * apply elem_of_cons in Hin' as [->|?]; [|done]. apply lookup_delete_eq.
      * apply lookup_delete_ne. intros ->. apply Hin'. by left.
Qed.

Lemma del_key_alone (key : string) (w : World) :
  others w = [] ->
  _del_key key w = (Returns tt, with_db w (delete key (redis_db w))).
Proof.
  intros Hq. unfold _del_key, try_except.
  erewrite bind_returns by (by apply command_alone).
  unfold redis_delete.
  destruct (redis_db w !! key) eqn:E; simpl; [done|].
  by rewrite delete_id.
Qed.

Lemma del_keys_alone (keys : list string) (w : World) :
  others w = [] ->
  del_keys keys w = (Returns tt, with_db w (without (redis_db w) keys)).
Proof.
  unfold without. revert w.
  induction keys as [|key keys IH]; intros w Hq.
  - by destruct w.
  - cbn [del_keys foldl]. erewrite bind_returns by (by apply del_key_alone).
    by rewrite IH.
Qed.

(** A key the sweep of a direction does not list is no slot of the
    direction, or is not there. *)
Lemma lookup_without_keys (db : Redis) (operation key : string) :
  literal operation = true ->
  without db (redis.keys db ("*:" ++ operation)) !! key
  = if redis.glob ("*:" ++ operation) key then None else db !! key.
Proof.
  intros Hop. rewrite lookup_without.
  destruct (redis.glob ("*:" ++ operation) key) eqn:Hg; case_decide as Hin.
  - done.
  - rewrite elem_of_keys in Hin. destruct (db !! key) eqn:E; [|done].
    destruct Hin. eauto.
  - apply elem_of_keys in Hin as [_ Hin]. congruence.
  - done.
Qed.

(** X1.  Run alone, the statements the module runs at its start remove
    the slots of both directions of every channel, whatever bytes the
    channel is made of, and nothing else: every key that is no key of a
    slot is left with its record, and so are the records of the days
    under which [_update_stats] counts. *)
Theorem startup_clears_slots (w : World) :
  others w = [] ->
  exists db',
    startup w = (Returns tt, with_db w db')
    /\ (forall channel operation,
          is_direction operation -> db' !! slot_key channel operation = None)
    /\ (forall key,
          (forall channel operation,
              is_direction operation -> key <> slot_key channel operation) ->
          db' !! key = redis_db w !! key)
    /\ (forall now, db' !! stat_key now = redis_db w !! stat_key now).
Proof.
  intros Hq.
  set (db1 := without (redis_db w) (redis.keys (redis_db w) ("*:" ++ REPLY))).
  set (db2 := without db1 (redis.keys db1 ("*:" ++ REQUEST))).
  assert (forall key,
             db2 !! key
             = if redis.glob ("*:" ++ REQUEST) key then None
               else if redis.glob ("*:" ++ REPLY) key then None
                    else redis_db w !! key) as Hdb2.
  { intros key. unfold db2, db1. by rewrite !lookup_without_keys. }
  assert (forall key,
             (forall channel operation,
                 is_direction operation -> key <> slot_key channel operation) ->
             db2 !! key = redis_db w !! key) as Hframe.
  { intros key Hkey. rewrite Hdb2.
    destruct (redis.glob ("*:" ++ REQUEST) key) eqn:Hrequest.
    { apply glob_slots in Hrequest as [channel ->]; [|done].
      destruct (Hkey channel REQUEST); [by left|done]. }
    destruct (redis.glob ("*:" ++ REPLY) key) eqn:Hreply; [|done].
    apply glob_slots in Hreply as [channel ->]; [|done].
    destruct (Hkey channel REPLY); [by right|done]. }
  exists db2. split; [|split; [|split]].
  - unfold startup.
    erewrite bind_returns by (by apply query_alone).
    erewrite bind_returns by (by apply del_keys_alone).
    erewrite bind_returns by (by apply query_alone).
    rewrite del_keys_alone by done. reflexivity.
  - intros channel operation Hop. rewrite Hdb2.
    assert (forall o, literal o = true ->
                      redis.glob ("*:" ++ o) (slot_key channel o) = true) as Hg.
    { intros o Ho. apply glob_slots; [done|]. by exists channel. }
    destruct Hop as [-> | ->].
    + by rewrite Hg.
    + rewrite (Hg REPLY) by done. by destruct (redis.glob _ _).
  - done.
  - intros now. apply Hframe. intros channel operation Hop.
    by apply stat_key_not_slot.
Qed.

Lemma startup_clears_slots_witness :
  exists db',
    startup three_posts_world = (Returns tt, with_db three_posts_world db')
    /\ (forall channel operation,
          is_direction operation -> db' !! slot_key channel operation = None)
    /\ (forall key,
          (forall channel operation,
              is_direction operation -> key <> slot_key channel operation) ->
          db' !! key = redis_db three_posts_world !! key)
    /\ (forall now,
          db' !! stat_key now = redis_db three_posts_world !! stat_key now).
Proof. apply (startup_clears_slots three_posts_world). reflexivity. Defined.

Example startup_scenario :
  redis.keys (redis_db three_posts_world) "*"
  = ["stat:1970-01-01"; "a:request"; "a:reply"; "b:request"]
  /\ redis.keys (redis_db (startup three_posts_world).2) "*"
     = ["stat:1970-01-01"].
Proof. split; vm_compute; reflexivity. Qed.

(** ** The footprint of a program *)

Lemma writes_only_hmset key mapping :
  writes_only key (fun db (_ : Q) => redis.hmset db key mapping).
Proof. intros db now k Hk. by apply lookup_hmset_other. Qed.

Lemma writes_only_hdel key field :
  writes_only key (fun db (_ : Q) => redis.hdel db key field).
Proof. intros db now k Hk. by apply lookup_hdel_other. Qed.

Lemma writes_only_expire key secs :
  writes_only key (fun db now => redis.expire db now key secs).
Proof. intros db now k Hk. by apply lookup_expire_other. Qed.

Lemma writes_only_hincrby key field n :
  writes_only key (fun db (_ : Q) => redis.hincrby db key field n).
Proof.
  intros db now k Hk. cbv beta.
  destruct (hincrby_cases db key field n) as [(z & _ & _ & ->)| ->]; [|done].
  by apply lookup_counter_store_other.
Qed.

Section footprint.
Variable R : World -> World -> Prop.
Variable touched : string -> Prop.
Hypothesis R_refl : forall w, R w w.
Hypothesis R_trans : forall w1 w2 w3, R w1 w2 -> R w2 w3 -> R w1 w3.
Hypothesis R_query : forall w, R w (after_command w (first_seen w)).
Hypothesis R_command :
  forall A (f : Redis -> Q -> A * Redis) key w,
    touched key -> writes_only key f ->
    R w (after_command w (f (first_seen w) (clock w)).2).

Lemma steps_ret {A} (a : A) : steps R (mret a).
Proof. intros w r w' [= <- <-]. apply R_refl. Qed.

Lemma steps_raise {A} (e : exn) : steps R (@raise A e).
Proof. intros w r w' [= <- <-]. apply R_refl. Qed.

Lemma steps_hang {A} : steps R (@hang A).
Proof. intros w r w' [= <- <-]. apply R_refl. Qed.

Lemma steps_time_now : steps R time_now.
Proof. intros w r w' [= <- <-]. apply R_refl. Qed.

Lemma steps_bind {A B} (m : M A) (k : A -> M B) :
  steps R m -> (forall a, steps R (k a)) -> steps R (m ≫= k).
Proof.
  intros Hm Hk w r w'. unfold mbind, M_bind.
  destruct (m w) as [[a|e|] w1] eqn:E.
  - intros Hrun. eapply R_trans; [by eapply Hm | by eapply Hk].
  - intros [= <- <-]. by eapply Hm.
  - intros [= <- <-]. by eapply Hm.
Qed.

Lemma steps_try_except {A} (body : M A) (handler : exn -> M A) :
  steps R body -> (forall e, steps R (handler e)) ->
  steps R (try_except body handler).
Proof.
  intros Hb Hh w r w'. unfold try_except.
  destruct (body w) as [[a|e|] w1] eqn:E.
  - intros [= <- <-]. by eapply Hb.
  - intros Hrun. eapply R_trans; [by eapply Hb | by eapply Hh].
  - intros [= <- <-]. by eapply Hb.
Qed.

Lemma steps_try_finally {A} (body : M A) (final : outcome A -> M unit) :
  steps R body -> (forall r, steps R (final r)) ->
  steps R (try_finally body final).
Proof.
  intros Hb Hf w r w'. unfold try_finally.
  destruct (body w) as [r1 w1] eqn:E.
  assert (R w w1) as Hw1 by by eapply Hb.
  destruct r1 as [a|e|]; [| |by intros [= <- <-]].
  - destruct (final (Returns a) w1) as [[u|e'|] w2] eqn:F;
      intros [= <- <-]; (eapply R_trans; [done | by eapply Hf]).
  - destruct (final (Raises e) w1) as [[u|e'|] w2] eqn:F;
      intros [= <- <-]; (eapply R_trans; [done | by eapply Hf]).
Qed.

Lemma steps_command {A} (f : Redis -> Q -> A * Redis) (key : string) :
  touched key -> writes_only key f -> steps R (command f).
Proof.
  intros Hkey Hf w r w'. rewrite command_any. intros [= <- <-].
  by eapply R_command.
Qed.

Lemma steps_query {A} (f : Redis -> A) : steps R (query f).
Proof. intros w r w'. rewrite query_any. intros [= <- <-]. apply R_query. Qed.

Lemma steps_set_key_value key value :
  touched key -> steps R (_set_key_value key value).
Proof.
  intros Hkey. apply steps_bind.
  - by apply (steps_command _ key), writes_only_hmset.
  - intros []; [apply steps_ret | apply steps_raise].
Qed.

Lemma steps_del_message key permissive :
  touched key -> steps R (_del_message key permissive).
Proof.
  intros Hkey. apply steps_bind.
  - by apply (steps_command _ key), writes_only_hdel.
  - intros n. destruct (_ && _); [apply steps_raise | apply steps_ret].
Qed.

Lemma steps_expire key : touched key -> steps R (_expire key).
Proof.
  intros Hkey. apply steps_bind.
  - by apply (steps_command _ key), writes_only_expire.
  - intros []; [apply steps_ret | apply steps_raise].
Qed.

Lemma steps_hincrby key field n :
  touched key -> steps R (redis_hincrby key field n).
Proof.
  intros Hkey. apply steps_bind.
  - by apply (steps_command _ key), writes_only_hincrby.
  - intros [z|]; [apply steps_ret | apply steps_raise].
Qed.

Lemma steps_update_stats operation msg :
  (forall now, touched (stat_key now)) ->
  steps R (_update_stats operation msg).
Proof.
  intros Hstat. apply steps_bind; [apply steps_time_now|]. intros now.
  apply steps_bind; [apply steps_hincrby, Hstat|]. intros _.
  apply steps_bind; [apply steps_hincrby, Hstat|]. intros _.
  apply steps_ret.
Qed.

Lemma steps_enqueue tid operation channel msg :
  touched (slot_key channel operation) ->
  steps R (_update_stats operation msg) ->
  steps R (_enqueue tid operation channel msg).
Proof.
  intros Hkey Hstat. apply steps_bind; [apply steps_query|]. intros cur_value.
  destruct (_ || _); [|apply steps_raise].
  apply steps_bind; [apply steps_time_now|]. intros now.
  apply steps_bind; [by apply steps_set_key_value|]. intros _.
  apply steps_bind; [by apply steps_expire|]. intros _.
  exact Hstat.
Qed.

Lemma steps_content_type request prefix :
  steps R (content_type_startswith request prefix).
Proof.
  unfold content_type_startswith.
  destruct (content_type request); [apply steps_ret | apply steps_raise].
Qed.

Lemma steps_cadence cfg key :
  touched key -> steps R (_dequeue_cadence cfg key).
Proof.
  intros Hkey. apply steps_bind; [apply steps_query|]. intros o.
  apply steps_bind.
  { destruct o as [b|]; [|apply steps_ret].
    destruct (int_of_bytes b); [apply steps_ret | apply steps_raise]. }
  intros n. destruct (0 <? n); [|apply steps_ret].
  apply steps_bind; [by apply steps_set_key_value|]. intros _.
  apply steps_ret.
Qed.

(** From the world in which the transaction was numbered. *)
Lemma steps_queue_request request w r w' :
  (forall channel,
      args_get (args request) "channel" = Some channel ->
      touched (slot_key channel REQUEST) /\ touched (slot_key channel REPLY)) ->
  (forall msg, steps R (_update_stats REQUEST msg)) ->
  queue_request request w = (r, w') -> R (next_transaction w) w'.
Proof.
  intros Hkeys Hstat. unfold queue_request.
  rewrite (bind_returns _ _ w (transaction_id w) (next_transaction w))
    by reflexivity.
  apply steps_try_except; [|intros e; apply steps_ret].
  destruct (args_get _ _) as [channel|]; [|apply steps_raise].
  destruct (Hkeys channel eq_refl) as [Hrequest Hreply].
  apply steps_bind; [apply steps_content_type|].
  intros [|]; [|apply steps_raise].
  apply steps_bind; [apply steps_query|]. intros last_reply.
  apply steps_bind.
  { destruct (truthy last_reply);
      [by apply steps_del_message | apply steps_ret]. }
  intros _. apply steps_bind; [apply steps_enqueue; [done|apply Hstat]|].
  intros _. apply steps_ret.
Qed.

Lemma steps_queue_reply request w r w' :
  (forall channel,
      args_get (args request) "channel" = Some channel ->
      touched (slot_key channel REPLY)) ->
  (forall msg, steps R (_update_stats REPLY msg)) ->
  queue_reply request w = (r, w') -> R (next_transaction w) w'.
Proof.
  intros Hkeys Hstat. unfold queue_reply.
  rewrite (bind_returns _ _ w (transaction_id w) (next_transaction w))
    by reflexivity.
  apply steps_try_except; [|intros e; apply steps_ret].
  destruct (args_get _ _) as [channel|]; [|apply steps_raise].
  apply steps_bind; [apply steps_content_type|].
  intros [|]; [|apply steps_raise].
  apply steps_bind; [apply steps_enqueue; [by apply Hkeys|apply Hstat]|].
  intros _.
  apply steps_ret.
Qed.

Lemma steps_decode_utf8 (b : string) : steps R (decode_utf8 b).
Proof.
  unfold decode_utf8.
  destruct (utf8_valid b); [apply steps_ret | apply steps_raise].
Qed.

Lemma steps_decode_counts (counts : list (option string)) :
  steps R (decode_counts counts).
Proof.
  induction counts as [|count counts IH]; [apply steps_ret|].
  cbn [decode_counts]. apply steps_bind.
  { destruct count; [apply steps_decode_utf8 | apply steps_ret]. }
  intros text. apply steps_bind; [apply IH|]. intros texts. apply steps_ret.
Qed.

Lemma steps_stats : steps R stats.
Proof.
  apply steps_bind; [apply steps_query|]. intros keys.
  apply steps_bind; [|intros d; apply steps_ret].
  generalize (∅ : gmap string string).
  induction keys as [|key keys IH]; intros d; [apply steps_ret|].
  cbn [stats_loop]. apply steps_bind; [apply steps_decode_utf8|].
  intros day_text. apply steps_bind; [apply steps_query|]. intros counts.
  apply steps_bind; [apply steps_decode_counts|]. intros texts.
  apply IH.
Qed.

Section sleeping.
Hypothesis R_sleep :
  forall w secs, (0 <= secs)%Q -> R w (at_clock w (clock w + secs)%Q).

Lemma steps_sleep secs : steps R (time_sleep secs).
Proof.
  intros w r w'. unfold time_sleep.
  destruct (Qlt_le_dec secs 0); intros [= <- <-]; [apply R_refl|].
  by apply R_sleep.
Qed.

Lemma steps_poll fuel key secs message left :
  steps R (_dequeue_poll fuel key secs message left).
Proof.
  revert message left. induction fuel as [|fuel IH]; intros message left.
  - destruct message; simpl; [apply steps_ret|].
    destruct (Qlt_le_dec 0 left); [apply steps_hang | apply steps_ret].
  - destruct message; cbn [_dequeue_poll]; [apply steps_ret|].
    destruct (Qlt_le_dec 0 left); [|apply steps_ret].
    apply steps_bind; [apply steps_sleep|]. intros _.
    apply steps_bind; [apply steps_query|]. intros m. apply IH.
Qed.

Lemma steps_dequeue cfg fuel tid operation channel reset_first :
  touched (slot_key channel operation) ->
  steps R (_dequeue cfg fuel tid operation channel reset_first).
Proof.
  intros Hkey. apply steps_try_finally.
  2:{ intros r. destruct (valid_reader_at_exit r); [|apply steps_ret].
      by apply steps_set_key_value. }
  apply steps_bind; [apply steps_query|]. intros busy.
  destruct (String.eqb busy DEQUEUE_BUSY_STATUS); [apply steps_ret|].
  apply steps_bind; [by apply steps_set_key_value|]. intros _.
  apply steps_bind.
  { destruct reset_first; [by apply steps_del_message | apply steps_ret]. }
  intros _.
  apply steps_bind; [by apply steps_set_key_value|]. intros _.
  apply steps_bind; [by apply steps_expire|]. intros _.
  apply steps_bind; [by apply steps_cadence|]. intros [n secs].
  apply steps_bind; [apply steps_query|]. intros message.
  apply steps_bind; [apply steps_poll|]. intros message'.
  destruct (truthy message'); [|apply steps_ret].
  apply steps_bind; [by apply steps_del_message|]. intros _.
  apply steps_bind; [apply steps_time_now|]. intros now.
  apply steps_bind; [by apply steps_set_key_value|]. intros _.
  apply steps_ret.
Qed.

Lemma steps_dequeue_handler operation cfg fuel request w r w' :
  (forall channel,
      args_get (args request) "channel" = Some channel ->
      touched (slot_key channel operation)) ->
  dequeue_handler operation cfg fuel request w = (r, w') ->
  R (next_transaction w) w'.
Proof.
  intros Hkeys. unfold dequeue_handler.
  rewrite (bind_returns _ _ w (transaction_id w) (next_transaction w))
    by reflexivity.
  apply steps_try_except; [|intros e; apply steps_ret].
  destruct (args_get _ _) as [channel|]; [|apply steps_raise].
  apply steps_bind; [by apply steps_dequeue, Hkeys|].
  intros [[m|] [|]]; apply steps_ret.
Qed.

End sleeping.
End footprint.

(** ** What the store cannot change *)

Section store_blind.
Variable R : World -> World -> Prop.
Hypothesis R_refl : forall w, R w w.
Hypothesis R_trans : forall w1 w2 w3, R w1 w2 -> R w2 w3 -> R w1 w3.
Hypothesis R_store : forall w db, R w (after_command w db).

Lemma blind_update_stats operation msg : steps R (_update_stats operation msg).
Proof.
  exact (steps_update_stats R (fun _ => True) R_refl R_trans
           (fun A f key w _ _ => R_store w _) operation msg (fun _ => I)).
Qed.

Lemma blind_queue_request request w :
  R (next_transaction w) (queue_request request w).2.
Proof.
  destruct (queue_request request w) as [r w'] eqn:E.
  exact (steps_queue_request R (fun _ => True) R_refl R_trans
           (fun w => R_store w _) (fun A f key w _ _ => R_store w _)
           request w r w' (fun _ _ => conj I I) (blind_update_stats REQUEST) E).
Qed.

Lemma blind_queue_reply request w :
  R (next_transaction w) (queue_reply request w).2.
Proof.
  destruct (queue_reply request w) as [r w'] eqn:E.
  exact (steps_queue_reply R (fun _ => True) R_refl R_trans
           (fun w => R_store w _) (fun A f key w _ _ => R_store w _)
           request w r w' (fun _ _ => I) (blind_update_stats REPLY) E).
Qed.

Lemma blind_stats w : R w (stats w).2.
Proof.
  destruct (stats w) as [r w'] eqn:E.
  exact (steps_stats R R_refl R_trans (fun w => R_store w _) w r w' E).
Qed.

Lemma blind_dequeue_handler operation cfg fuel request w :
  (forall w secs, (0 <= secs)%Q -> R w (at_clock w (clock w + secs)%Q)) ->
  R (next_transaction w) (dequeue_handler operation cfg fuel request w).2.
Proof.
  intros R_sleep.
  destruct (dequeue_handler operation cfg fuel request w) as [r w'] eqn:E.
  exact (steps_dequeue_handler R (fun _ => True) R_refl R_trans
           (fun w => R_store w _) (fun A f key w _ _ => R_store w _) R_sleep
           operation cfg fuel request w r w' (fun _ _ => I) E).
Qed.

End store_blind.

(** ** Transaction numbers *)

(** X5.  Every call of one of the four queue handlers takes one transaction
    number, the one the counter of the module held when the call came in,
    and leaves the counter one higher, whatever the request, whatever the
    other clients of the store do and however the call ends; [stats] and
    [ping] take none. *)
Theorem one_transaction_per_call
    (cfg : Config) (fuel : nat) (request : Request) (w : World) :
  _get_transaction_id w = (Returns (transaction_id w), next_transaction w)
  /\ transaction_id (queue_request request w).2 = transaction_id w + 1
  /\ transaction_id (queue_reply request w).2 = transaction_id w + 1
  /\ transaction_id (dequeue_request cfg fuel request w).2
     = transaction_id w + 1
  /\ transaction_id (dequeue_reply cfg fuel request w).2 = transaction_id w + 1
  /\ transaction_id (stats w).2 = transaction_id w
  /\ transaction_id (ping w).2 = transaction_id w.
Proof.
  assert (forall w1 w2 w3, same_transaction w1 w2 -> same_transaction w2 w3 ->
                           same_transaction w1 w3) as Htrans.
  { unfold same_transaction. congruence. }
  split; [reflexivity|]. split; [|split; [|split; [|split; [|split]]]].
  - by apply (blind_queue_request same_transaction).
  - by apply (blind_queue_reply same_transaction).
  - by apply (blind_dequeue_handler same_transaction).
  - by apply (blind_dequeue_handler same_transaction).
  - by apply (blind_stats same_transaction).
  - reflexivity.
Qed.

(** ** Time *)

(** X6.  The handlers that post, [stats] and [ping] never wait: whatever the
    request and the other clients of the store, the clock of the host
    stands where it stood when they end.  In a dequeue handler time only
    goes on. *)
Theorem posts_never_wait
    (cfg : Config) (fuel : nat) (operation : string) (request : Request)
    (w : World) :
  clock (queue_request request w).2 = clock w
  /\ clock (queue_reply request w).2 = clock w
  /\ clock (stats w).2 = clock w
  /\ clock (ping w).2 = clock w
  /\ (clock w <= clock (dequeue_handler operation cfg fuel request w).2)%Q.
Proof.
  assert (forall w1 w2 w3, same_clock w1 w2 -> same_clock w2 w3 ->
                           same_clock w1 w3) as Htrans.
  { unfold same_clock. congruence. }
  split; [|split; [|split; [|split]]].
  - by apply (blind_queue_request same_clock).
  - by apply (blind_queue_reply same_clock).
  - by apply (blind_stats same_clock).
  - reflexivity.
  - apply (blind_dequeue_handler clock_on); unfold clock_on.
    + intros w0. apply Qle_refl.
    + intros w1 w2 w3. apply Qle_trans.
    + intros w0 db. apply Qle_refl.
    + intros w0 secs Hsecs. simpl. lra.
Qed.

(** ** The keys of a call *)

Section keys_of_a_call.
Variable touched : string -> Prop.

Lemma untouched_refl (w : World) : untouched touched w w.
Proof. by intros Hq. Qed.

Lemma untouched_trans (w1 w2 w3 : World) :
  untouched touched w1 w2 -> untouched touched w2 w3 ->
  untouched touched w1 w3.
Proof.
  intros H12 H23 Hq. destruct (H12 Hq) as [Hq2 H2].
  destruct (H23 Hq2) as [Hq3 H3]. split; [done|].
  intros k Hk. by rewrite H3, H2.
Qed.

Lemma untouched_query (w : World) :
  untouched touched w (after_command w (first_seen w)).
Proof. intros Hq. rewrite after_command_alone by done. by split. Qed.

Lemma untouched_command {A} (f : Redis -> Q -> A * Redis) (key : string)
    (w : World) :
  touched key -> writes_only key f ->
  untouched touched w (after_command w (f (first_seen w) (clock w)).2).
Proof.
  intros Hkey Hf Hq. split; [simpl; by rewrite Hq|].
  intros k Hk. unfold first_seen. rewrite Hq. simpl.
  apply Hf. by intros ->.
Qed.

Lemma untouched_sleep (w : World) (secs : Q) :
  (0 <= secs)%Q -> untouched touched w (at_clock w (clock w + secs)%Q).
Proof. by intros _ Hq. Qed.

End keys_of_a_call.

(** X7.  Run alone, a call writes under the keys of its channel and under
    those of the statistics only, however it ends: a post of a request
    leaves every key as it was but the two slots of the channel and the
    statistics records, a post of a reply every key but the reply slot and
    the statistics records, and a dequeue every key but the slot it reads,
    so that it changes no statistics and no slot of another channel or of
    the other direction. *)
Theorem calls_keep_to_their_channel
    (cfg : Config) (fuel : nat) (request : Request) (channel : string)
    (w : World) (k : string) :
  others w = [] ->
  args_get (args request) "channel" = Some channel ->
  (k <> slot_key channel REQUEST -> k <> slot_key channel REPLY ->
   (forall now, k <> stat_key now) ->
   redis_db (queue_request request w).2 !! k = redis_db w !! k)
  /\ (k <> slot_key channel REPLY -> (forall now, k <> stat_key now) ->
      redis_db (queue_reply request w).2 !! k = redis_db w !! k)
  /\ (forall operation,
        k <> slot_key channel operation ->
        redis_db (dequeue_handler operation cfg fuel request w).2 !! k
        = redis_db w !! k).
Proof.
  intros Hq Hchannel.
  assert (forall channel',
             args_get (args request) "channel" = Some channel' ->
             channel' = channel) as Hsame.
  { intros channel' Hc. rewrite Hchannel in Hc. by injection Hc. }
  split; [|split].
  - intros Hrequest Hreply Hstat.
    set (touched := fun k => k = slot_key channel REQUEST
                             \/ k = slot_key channel REPLY
                             \/ exists now, k = stat_key now).
    destruct (queue_request request w) as [r w'] eqn:E.
    refine (proj2 (steps_queue_request (untouched touched) touched
                     (untouched_refl touched) (untouched_trans touched)
                     (untouched_query touched) (@untouched_command touched)
                     request w r w' _ _ E Hq) k _).
    + intros channel' ->%Hsame. split; [by left | by right; left].
    + intros msg.
      apply (steps_update_stats (untouched touched) touched
               (untouched_refl touched) (untouched_trans touched)
               (@untouched_command touched)).
      intros now. right; right. by exists now.
    + intros [->|[->|[now ->]]]; [done|done|by apply (Hstat now)].
  - intros Hreply Hstat.
    set (touched := fun k => k = slot_key channel REPLY
                             \/ exists now, k = stat_key now).
    destruct (queue_reply request w) as [r w'] eqn:E.
    refine (proj2 (steps_queue_reply (untouched touched) touched
                     (untouched_refl touched) (untouched_trans touched)
                     (untouched_query touched) (@untouched_command touched)
                     request w r w' _ _ E Hq) k _).
    + intros channel' ->%Hsame. by left.
    + intros msg.
      apply (steps_update_stats (untouched touched) touched
               (untouched_refl touched) (untouched_trans touched)
               (@untouched_command touched)).
      intros now. right. by exists now.
    + intros [->|[now ->]]; [done|by apply (Hstat now)].
  - intros operation Hk.
    set (touched := fun k => k = slot_key channel operation).
    destruct (dequeue_handler operation cfg fuel request w) as [r w'] eqn:E.
    refine (proj2 (steps_dequeue_handler (untouched touched) touched
                     (untouched_refl touched) (untouched_trans touched)
                     (untouched_query touched) (@untouched_command touched)
                     (untouched_sleep touched)
                     operation cfg fuel request w r w' _ E Hq) k Hk).
    by intros channel' ->%Hsame.
Qed.

Lemma calls_keep_to_their_channel_witness :
  redis_db (dequeue_request default_config 150 (request_on "a" "" "")
                            three_posts_world).2 !! "stat:1970-01-01"
  = redis_db three_posts_world !! "stat:1970-01-01".
Proof.
  refine (proj2 (proj2 (calls_keep_to_their_channel
                          default_config 150 (request_on "a" "" "") "a"
                          three_posts_world "stat:1970-01-01" _ _))
            REQUEST _).
  - reflexivity.
  - reflexivity.
  - intros H. vm_compute in H. discriminate H.
Defined.

(** ** Calls that are always answered *)

Lemma never_hangs_try_finally {A} (body : M A) (final : outcome A -> M unit) :
  never_hangs body -> (forall r, never_hangs (final r)) ->
  never_hangs (try_finally body final).
Proof.
  intros Hb Hf w. unfold try_finally.
  specialize (Hb w). destruct (body w) as [[a|e|] w1]; simpl in *; [| |done].
  - specialize (Hf (Returns a) w1).
    by destruct (final (Returns a) w1) as [[u|e'|] w2].
  - specialize (Hf (Raises e) w1).
    by destruct (final (Raises e) w1) as [[u|e'|] w2].
Qed.

Lemma never_hangs_hincrby key field n : never_hangs (redis_hincrby key field n).
Proof.
  apply never_hangs_then; [apply never_hangs_command|].
  intros [z|]; [apply never_hangs_ret | apply never_hangs_raise].
Qed.

Lemma never_hangs_enqueue tid operation channel msg :
  never_hangs (_enqueue tid operation channel msg).
Proof.
  apply never_hangs_then; [apply never_hangs_command|]. intros cur_value.
  destruct (_ || _); [|apply never_hangs_raise].
  apply never_hangs_then; [apply never_hangs_time_now|]. intros now.
  apply never_hangs_then; [apply never_hangs_set_key_value|]. intros _.
  apply never_hangs_then; [apply never_hangs_expire|]. intros _.
  apply never_hangs_then; [apply never_hangs_time_now|]. intros now'.
  apply never_hangs_then; [apply never_hangs_hincrby|]. intros _.
  apply never_hangs_then; [apply never_hangs_hincrby|]. intros _.
  apply never_hangs_ret.
Qed.

Lemma never_hangs_content_type request prefix :
  never_hangs (content_type_startswith request prefix).
Proof.
  unfold content_type_startswith.
  destruct (content_type request);
    [apply never_hangs_ret | apply never_hangs_raise].
Qed.

(** A handler whose body returns answers in [P] only, and whose errors are
    answered by [sys_err], lets no exception out: a run of it that ends
    returns an answer. *)
Lemma try_except_ends (body : M Response) (P : Response -> Prop)
    (w : World) :
  returns_only body P ->
  (try_except body sys_err w).1 = Hangs
  \/ exists resp,
       (try_except body sys_err w).1 = Returns resp
       /\ (P resp \/ exists e, resp = sys_err_response e).
Proof.
  intros Hbody. unfold try_except.
  destruct (body w) as [[resp|e|] w1] eqn:E.
  - right. exists resp. split; [done|]. left. by eapply Hbody.
  - right. exists (sys_err_response e). split; [done|]. right. by exists e.
  - by left.
Qed.

(** A handler whose body ends, besides, answers in every world. *)
Lemma try_except_answers (body : M Response) (P : Response -> Prop)
    (w : World) :
  never_hangs body -> returns_only body P ->
  exists resp w',
    try_except body sys_err w = (Returns resp, w')
    /\ (P resp \/ exists e, resp = sys_err_response e).
Proof.
  intros Hends Hbody. unfold try_except.
  specialize (Hends w). destruct (body w) as [[resp|e|] w1] eqn:E.
  - exists resp, w1. split; [done|]. left. by eapply Hbody.
  - exists (sys_err_response e), w1. split; [done|]. right. by exists e.
  - done.
Qed.

Lemma never_hangs_decode_utf8 (b : string) : never_hangs (decode_utf8 b).
Proof.
  unfold decode_utf8.
  destruct (utf8_valid b); [apply never_hangs_ret | apply never_hangs_raise].
Qed.

Lemma never_hangs_decode_counts (counts : list (option string)) :
  never_hangs (decode_counts counts).
Proof.
  induction counts as [|count counts IH]; [apply never_hangs_ret|].
  cbn [decode_counts]. apply never_hangs_then.
  { destruct count; [apply never_hangs_decode_utf8 | apply never_hangs_ret]. }
  intros text. apply never_hangs_then; [apply IH|].
  intros texts. apply never_hangs_ret.
Qed.

Lemma never_hangs_stats_loop (keys : list string) (d : gmap string string) :
  never_hangs (stats_loop keys d).
Proof.
  revert d. induction keys as [|key keys IH]; intros d;
    [apply never_hangs_ret|].
  cbn [stats_loop]. apply never_hangs_then; [apply never_hangs_decode_utf8|].
  intros day_text. apply never_hangs_then; [apply never_hangs_command|].
  intros counts. apply never_hangs_then; [apply never_hangs_decode_counts|].
  intros texts. apply IH.
Qed.

(** X3.  A post is always answered, whatever the request and whatever the
    other clients of the store do meanwhile: the handler returns a
    response, which is the empty 200 or a 500 that carries the text of an
    exception.  A call of [stats] ends as well, but not always with an
    answer: it returns a 200 of type [text/csv; charset=utf-8] whose body
    begins with the header line, or it raises. *)
Theorem every_post_is_answered (request : Request) (w : World) :
  (exists resp w',
      queue_request request w = (Returns resp, w')
      /\ (resp = ok_empty \/ exists e, resp = sys_err_response e))
  /\ (exists resp w',
        queue_reply request w = (Returns resp, w')
        /\ (resp = ok_empty \/ exists e, resp = sys_err_response e))
  /\ ((exists csv w',
         stats w
         = (Returns {| response := stats_header ++ newline ++ csv;
                       status := 200;
                       response_type := "text/csv; charset=utf-8" |}, w'))
      \/ exists e w', stats w = (Raises e, w')).
Proof.
  split; [|split].
  - unfold queue_request.
    rewrite (bind_returns _ _ w (transaction_id w) (next_transaction w))
      by reflexivity.
    apply try_except_answers.
    + destruct (args_get _ _) as [channel|]; [|apply never_hangs_raise].
      apply never_hangs_then; [apply never_hangs_content_type|].
      intros [|]; [|apply never_hangs_raise].
      apply never_hangs_then; [apply never_hangs_command|]. intros last_reply.
      apply never_hangs_then.
      { destruct (truthy last_reply);
          [apply never_hangs_del_message | apply never_hangs_ret]. }
      intros _. apply never_hangs_then; [apply never_hangs_enqueue|].
      intros _. apply never_hangs_ret.
    + destruct (args_get _ _) as [channel|]; [|apply returns_only_raise].
      apply returns_only_bind. intros [|]; [|apply returns_only_raise].
      do 3 (apply returns_only_bind; intros ?). by apply returns_only_ret.
  - unfold queue_reply.
    rewrite (bind_returns _ _ w (transaction_id w) (next_transaction w))
      by reflexivity.
    apply try_except_answers.
    + destruct (args_get _ _) as [channel|]; [|apply never_hangs_raise].
      apply never_hangs_then; [apply never_hangs_content_type|].
      intros [|]; [|apply never_hangs_raise].
      apply never_hangs_then; [apply never_hangs_enqueue|].
      intros _. apply never_hangs_ret.
    + destruct (args_get _ _) as [channel|]; [|apply returns_only_raise].
      apply returns_only_bind. intros [|]; [|apply returns_only_raise].
      apply returns_only_bind; intros ?. by apply returns_only_ret.
  - unfold stats. erewrite bind_returns by apply query_any.
    pose proof (never_hangs_stats_loop
                  (redis.keys (first_seen w) (STATISTIC ++ ":*")) ∅
                  (after_command w (first_seen w))) as Hends.
    destruct (stats_loop _ _ _) as [[d|e|] w'] eqn:Hrun; [| |done].
    + left. erewrite bind_returns by apply Hrun. by eexists _, _.
    + right. erewrite bind_raises by apply Hrun. by eexists _, _.
Qed.

(** X4.  A dequeue handler lets no exception out, whatever the settings,
    whatever the rounds granted to the polling loop and whatever the other
    clients of the store do meanwhile: a call that ends returns a
    response, which is the message followed by 1500 spaces in a 200 of
    type [application/json], an empty 408 after the time limit, an empty
    429 to a redundant reader, or a 500 that carries the text of an
    exception.  A run that is still polling when its rounds are used up
    has not ended. *)
Theorem no_get_raises
    (operation : string) (cfg : Config) (fuel : nat) (request : Request)
    (w : World) :
  (dequeue_handler operation cfg fuel request w).1 = Hangs
  \/ exists resp,
       (dequeue_handler operation cfg fuel request w).1 = Returns resp
       /\ ((exists message, resp = message_response message)
           \/ resp = timeout_response
           \/ resp = too_many_response
           \/ exists e, resp = sys_err_response e).
Proof.
  unfold dequeue_handler.
  rewrite (bind_returns _ _ w (transaction_id w) (next_transaction w))
    by reflexivity.
  match goal with
  | |- context [try_except ?body sys_err] =>
      destruct (try_except_ends body
                  (fun resp =>
                     (exists message, resp = message_response message)
                     \/ resp = timeout_response \/ resp = too_many_response)
                  (next_transaction w)) as [Hrun|(resp & Hrun & Hresp)]
  end.
  - destruct (args_get _ _) as [channel|]; [|apply returns_only_raise].
    apply returns_only_bind. intros [[m|] [|]]; apply returns_only_ret; eauto.
  - by left.
  - right. exists resp. split; [done|]. tauto.
Qed.

(** The four answers: a message that arrives during the third sleep, the
    time limit of a reader that looks every hour for two hours, a reader
    at work, and a key that another client removes before the [EXPIRE]. *)
Example get_scenarios :
  (dequeue_request default_config 150 (get_on "c7") late_message_world).1
  = Returns (message_response "hello")
  /\ (dequeue_request patient_config 2 (get_on "c7") (world_of ∅)).1
     = Returns timeout_response
  /\ (dequeue_request default_config 150 (get_on "c3") busy_world).1
     = Returns too_many_response
  /\ (dequeue_request default_config 150 (get_on "c7") key_lost_world).1
     = Returns (sys_err_response
                  (Exception "redis failed expiring c7:request")).
Proof. repeat split; vm_compute; reflexivity. Qed.

(** ** Calls that are turned down before the store is asked *)

(** X2.  A call that is not well formed is answered 500 before any command
    is sent to the store: the world it leaves differs in the transaction
    counter only, and no action of another client has had its turn.  The
    channel is looked for first, in all four queue handlers; then, in the
    two that post, the content type, the absence of which ends in the
    attribute error of [None.startswith], and which has to begin with
    [application/json] for a request and with [text/plain] for a reply. *)
Theorem malformed_calls_are_turned_down
    (cfg : Config) (fuel : nat) (request : Request) (w : World) :
  (args_get (args request) "channel" = None ->
   queue_request request w = (Returns channel_missing, next_transaction w)
   /\ queue_reply request w = (Returns channel_missing, next_transaction w)
   /\ dequeue_request cfg fuel request w
      = (Returns channel_missing, next_transaction w)
   /\ dequeue_reply cfg fuel request w
      = (Returns channel_missing, next_transaction w))
  /\ (is_Some (args_get (args request) "channel") ->
      content_type request = None ->
      let answer :=
        sys_err_response
          (AttributeError "'NoneType' object has no attribute 'startswith'") in
      queue_request request w = (Returns answer, next_transaction w)
      /\ queue_reply request w = (Returns answer, next_transaction w))
  /\ (forall t,
        is_Some (args_get (args request) "channel") ->
        content_type request = Some t ->
        (String.prefix "application/json" t = false ->
         queue_request request w
         = (Returns (sys_err_response
                       (Exception "Payload must be application/json")),
            next_transaction w))
        /\ (String.prefix "text/plain" t = false ->
            queue_reply request w
            = (Returns (sys_err_response
                          (Exception "Payload must be text/plain")),
               next_transaction w))).
Proof.
  split; [|split].
  - intros Hchannel.
    unfold dequeue_request, dequeue_reply, dequeue_handler, queue_request,
      queue_reply.
    rewrite !(bind_returns _ _ w (transaction_id w) (next_transaction w))
      by reflexivity.
    unfold try_except. by rewrite Hchannel.
  - intros [channel Hchannel] Htype answer.
    unfold queue_request, queue_reply.
    rewrite !(bind_returns _ _ w (transaction_id w) (next_transaction w))
      by reflexivity.
    unfold try_except, content_type_startswith. by rewrite Hchannel, Htype.
  - intros t [channel Hchannel] Htype.
    unfold queue_request, queue_reply.
    rewrite !(bind_returns _ _ w (transaction_id w) (next_transaction w))
      by reflexivity.
    unfold try_except, content_type_startswith. rewrite Hchannel, Htype.
    split; intros Hprefix.
    + erewrite bind_returns by reflexivity. by rewrite Hprefix.
    + erewrite bind_returns by reflexivity. by rewrite Hprefix.
Qed.

Lemma malformed_calls_are_turned_down_witness :
  queue_request (request_on "c2" "text/plain" "{}") stolen_reply_world
  = (Returns (sys_err_response (Exception "Payload must be application/json")),
     next_transaction stolen_reply_world).
Proof.
  refine (proj1 (proj2 (proj2 (malformed_calls_are_turned_down
                                 default_config 0
                                 (request_on "c2" "text/plain" "{}")
                                 stolen_reply_world))
                   "text/plain" _ _) _).
  - by eexists.
  - reflexivity.
  - reflexivity.
Defined.

(** ** A reader that asks for a reset *)



(** ** A post that fails after it stored the message *)

(** X9.  Run alone, a reply posted to a free slot on a day whose count of
    replies is no number Redis can increment is answered 500, yet the message it
    carried is in the slot, with its time to live, and no counter has
    changed: the next reader gets the message, and a second post is turned
    down for the message that waits. *)
Theorem failed_count_leaves_the_message
    (request : Request) (channel : string) (w : World) :
  let key := slot_key channel REPLY in
  let sk := stat_key (clock w) in
  others w = [] ->
  well_formed request channel "text/plain" ->
  redis.hget (redis_db w) key MESSAGE = None ->
  stat_value (redis_db w) sk (COUNT ++ ":" ++ REPLY) = None ->
  exists e w',
    queue_reply request w = (Returns (sys_err_response e), w')
    /\ redis_db w'
       = enqueue_store (redis_db w) (clock w) key (get_data request)
    /\ redis.hget (redis_db w') key MESSAGE = Some (get_data request)
    /\ ttl_deadline (redis_db w') key = Some (clock w + EXPIRE_SECS)%Q
    /\ redis_db w' !! sk = redis_db w !! sk
    /\ queue_reply request w'
       = (Returns (sys_err_response (slot_occupied key)), next_transaction w').
Proof.
  intros key sk Hq Hrequest Hfree Hcount.
  set (db1 := enqueue_store (redis_db w) (clock w) key (get_data request)).
  assert (key <> sk) as Hne.
  { intros Heq. symmetry in Heq. revert Heq.
    apply stat_key_not_slot. by right. }
  assert (redis.hget db1 key MESSAGE = Some (get_data request)) as Hstored.
  { unfold db1. rewrite hget_hgetall, hgetall_enqueue_store.
    by rewrite !lookup_insert_ne, lookup_insert_eq by done. }
  assert (_enqueue (transaction_id w) REPLY channel (get_data request)
                   (next_transaction w)
          = (Raises (ResponseError
                       "hash value is not an integer or would overflow"),
             with_db (next_transaction w) db1)) as Hrun.
  { rewrite enqueue_free by done. fold key. wsimpl. fold db1.
    unfold _update_stats.
    erewrite bind_returns by reflexivity.
    erewrite bind_raises; [reflexivity|].
    rewrite run_hincrby by done. wsimpl. fold (stat_key (clock w)). fold sk.
    assert (redis.hincrby db1 sk (COUNT ++ ":" ++ REPLY) 1 = (None, db1)) as ->.
    { destruct (hincrby_cases db1 sk (COUNT ++ ":" ++ REPLY) 1)
        as [(z & Hz & _)|H]; [|done].
      unfold stat_value, db1 in Hz.
      rewrite hget_enqueue_store_other in Hz by done.
      unfold stat_value in Hcount. congruence. }
    simpl. by destruct w. }
  eexists _, _. split; [|split; [|split; [|split; [|split]]]].
  - rewrite (queue_reply_run _ channel) by done. by rewrite Hrun.
  - done.
  - done.
  - wsimpl. apply ttl_enqueue_store.
  - wsimpl. by apply lookup_enqueue_store_other.
  - rewrite (queue_reply_run _ channel) by done.
    rewrite enqueue_occupied; [done|done|]. wsimpl. fold key.
    by rewrite Hstored.
Qed.

Lemma failed_count_leaves_the_message_witness :
  exists e w',
    queue_reply (request_on "c9" "text/plain" "late") broken_count_world
    = (Returns (sys_err_response e), w')
    /\ redis_db w'
       = enqueue_store (redis_db broken_count_world) 0 (slot_key "c9" REPLY)
                       "late"
    /\ redis.hget (redis_db w') (slot_key "c9" REPLY) MESSAGE = Some "late"
    /\ ttl_deadline (redis_db w') (slot_key "c9" REPLY)
       = Some (0 + EXPIRE_SECS)%Q
    /\ redis_db w' !! stat_key 0 = redis_db broken_count_world !! stat_key 0
    /\ queue_reply (request_on "c9" "text/plain" "late") w'
       = (Returns (sys_err_response (slot_occupied (slot_key "c9" REPLY))),
          next_transaction w').
Proof.
  apply (failed_count_leaves_the_message
           (request_on "c9" "text/plain" "late") "c9" broken_count_world).
  - reflexivity.
  - split; [reflexivity|]. by eexists.
  - reflexivity.
  - vm_compute. reflexivity.
Defined.

(** ** The days of the statistics *)

Lemma strftime_day (now : Q) : strftime_Ymd now = day_string (epoch_day now).
Proof.
  unfold day_string, strftime_Ymd, epoch_day.
  by rewrite Qfloor_Z, (Z.mul_comm 86400), Z.div_mul.
Qed.

Lemma ltb_prefix (p a b : string) :
  String.ltb (p ++ a) (p ++ b) = String.ltb a b.
Proof.
  induction p as [|x p IH]; [reflexivity|].
  rewrite !append_cons, <- IH. unfold String.ltb. cbn [String.compare].
  unfold Ascii.compare. by rewrite N.compare_refl.
Qed.

(** X10.  The statistics of a day are kept under one key, and the keys sort
    as the days do: two posts of the same day count in the same record,
    and, from 1970 to the year 2106, the record of an earlier day has the
    lesser key in the order of byte strings, which is the order in which
    [stats] lists the days. *)
Theorem stat_keys_are_chronological (t1 t2 : Q) :
  (epoch_day t1 = epoch_day t2 -> stat_key t1 = stat_key t2)
  /\ (0 <= epoch_day t1 -> epoch_day t1 < epoch_day t2 ->
      epoch_day t2 <= 50000 ->
      String.ltb (stat_key t1) (stat_key t2) = true
      /\ String.ltb (day_of_key (stat_key t1)) (day_of_key (stat_key t2))
         = true).
Proof.
  unfold stat_key. rewrite !strftime_day, !day_of_stat_key. split.
  - by intros ->.
  - intros H0 Hlt Hmax.
    assert (String.ltb (day_string (epoch_day t1)) (day_string (epoch_day t2))
            = true) as Hdays by (apply day_strings_ascend; lia).
    split; [|exact Hdays]. rewrite !ltb_prefix. exact Hdays.
Qed.

Lemma stat_keys_are_chronological_witness :
  String.ltb (stat_key 86399) (stat_key 86400) = true
  /\ String.ltb (day_of_key (stat_key 86399)) (day_of_key (stat_key 86400))
     = true.
Proof.
  apply (stat_keys_are_chronological 86399 86400).
  - vm_compute. discriminate.
  - reflexivity.
  - vm_compute. discriminate.
Defined.

(** ** A whole exchange *)

Lemma hget_same (db db' : Redis) (key field : string) :
  db' !! key = db !! key -> redis.hget db' key field = redis.hget db key field.
Proof. intros H. unfold redis.hget. by rewrite H. Qed.

Lemma stat_value_same (db db' : Redis) (key field : string) :
  db' !! key = db !! key -> stat_value db' key field = stat_value db key field.
Proof. intros H. unfold stat_value. by rewrite (hget_same db db'). Qed.

Lemma hget_absent (db : Redis) (key field : string) :
  db !! key = None -> redis.hget db key field = None.
Proof. intros H. unfold redis.hget. by rewrite H. Qed.

Lemma stat_value_absent (db : Redis) (key field : string) :
  db !! key = None -> stat_value db key field = Some 0.
Proof. intros H. unfold stat_value. by rewrite hget_absent. Qed.

Section one_way.
Variables (cfg : Config) (operation channel msg : string) (db : Redis).
Variables (now : Q) (c b : Z).
Hypothesis direction : is_direction operation.

#[local] Abbreviation key := (slot_key channel operation).
#[local] Abbreviation sk := (stat_key now).
#[local] Abbreviation db1 := (posted_store db now operation channel msg c b).
#[local] Abbreviation db2 := (taken_store cfg db1 now key).

Lemma key_ne_sk : key <> sk.
Proof. intros H. symmetry in H. revert H. by apply stat_key_not_slot. Qed.

Lemma lookup_posted_store_other (k : string) :
  k <> key -> k <> sk -> db1 !! k = db !! k.
Proof.
  intros Hk Hsk. unfold posted_store.
  rewrite !lookup_counter_store_other by done.
  by apply lookup_enqueue_store_other.
Qed.

Lemma posted_slot (field : string) :
  db !! key = None ->
  redis.hget db1 key field
  = if decide (POSTED_TIME = field) then Some (asctime now)
    else if decide (PICKUP_TIME = field) then Some ""
         else if decide (MESSAGE = field) then Some msg else None.
Proof.
  intros Hnew. unfold posted_store.
  rewrite hget_enqueued_slot by apply key_ne_sk.
  rewrite hgetall_enqueue_store. unfold redis.hgetall. rewrite Hnew.
  destruct (decide (POSTED_TIME = field)) as [<-|H1].
  { apply lookup_insert_eq. }
  rewrite lookup_insert_ne by exact H1.
  destruct (decide (PICKUP_TIME = field)) as [<-|H2].
  { apply lookup_insert_eq. }
  rewrite lookup_insert_ne by exact H2.
  destruct (decide (MESSAGE = field)) as [<-|H3].
  { apply lookup_insert_eq. }
  rewrite lookup_insert_ne by exact H3. apply lookup_empty.
Qed.

Lemma taken_store_other (k : string) :
  k <> key -> db2 !! k = db1 !! k.
Proof.
  intros Hk. unfold taken_store.
  destruct (consume_exit_slot cfg db1 now key (ALLOWED_FAST_DEQUEUE_POLLS cfg))
    as (_ & _ & _ & _ & _ & H).
  by apply H.
Qed.

Lemma taken_slot :
  redis.hget db2 key MESSAGE = None
  /\ redis.hget db2 key DEQUEUE_BUSY = Some DEQUEUE_IDLE_STATUS.
Proof.
  unfold taken_store.
  destruct (consume_exit_slot cfg db1 now key (ALLOWED_FAST_DEQUEUE_POLLS cfg))
    as (H1 & H2 & _).
  done.
Qed.

Lemma taken_counters (field : string) :
  in_int64 (c + 1) -> in_int64 (b + Z.of_nat (String.length msg)) ->
  stat_value db2 sk field
  = if decide (field = operation)
    then Some (b + Z.of_nat (String.length msg))
    else if decide (field = COUNT ++ ":" ++ operation) then Some (c + 1)
         else stat_value db sk field.
Proof.
  intros Hc Hb.
  rewrite (stat_value_same db1)
    by (apply taken_store_other, not_eq_sym, key_ne_sk).
  unfold posted_store. case_decide as Hf.
  { subst field. by apply stat_value_counter_store. }
  rewrite stat_value_counter_store_ne by done.
  case_decide as Hf'.
  { subst field. by apply stat_value_counter_store. }
  rewrite stat_value_counter_store_ne by done.
  apply stat_value_same, lookup_enqueue_store_other, key_ne_sk.
Qed.

End one_way.

(** The post, and the dequeue that follows it. *)
Lemma post_then_get (cfg : Config) (fuel : nat) (tid tid' : Z)
    (operation channel msg : string) (w : World) (c b : Z) :
  let key := slot_key channel operation in
  let sk := stat_key (clock w) in
  let db1 := posted_store (redis_db w) (clock w) operation channel msg c b in
  is_direction operation -> others w = [] ->
  redis_db w !! key = None -> msg <> "" ->
  stat_value (redis_db w) sk (COUNT ++ ":" ++ operation) = Some c ->
  in_int64 (c + 1) ->
  stat_value (redis_db w) sk operation = Some b ->
  in_int64 (b + Z.of_nat (String.length msg)) ->
  _enqueue tid operation channel msg w = (Returns tt, with_db w db1)
  /\ _dequeue cfg fuel tid' operation channel false
              (next_transaction (with_db w db1))
     = (Returns (Some msg, true),
        with_db (next_transaction (with_db w db1))
                (taken_store cfg db1 (clock w) key)).
Proof.
  intros key sk db1 Hop Hq Hnew Hmsg Hc Hc1 Hb Hb1. split.
  - exact (enqueue_succeeds tid operation channel msg w c b Hop Hq
             (hget_absent _ _ _ Hnew) Hc Hc1 Hb Hb1).
  - assert (forall field,
               redis.hget db1 key field
               = if decide (POSTED_TIME = field) then Some (asctime (clock w))
                 else if decide (PICKUP_TIME = field) then Some ""
                      else if decide (MESSAGE = field) then Some msg
                           else None) as Hslot.
    { intros field. by apply posted_slot. }
    refine (dequeue_consume cfg fuel tid' operation channel
              (next_transaction (with_db w db1))
              (ALLOWED_FAST_DEQUEUE_POLLS cfg) msg Hq _ _ _ Hmsg).
    + unfold reader_free. wsimpl. fold key. rewrite Hslot.
      repeat case_decide; first [discriminate | congruence].
    + unfold fast_polls_left_of. wsimpl. fold key. rewrite Hslot.
      repeat case_decide; first [discriminate | reflexivity | congruence].
    + wsimpl. fold key. rewrite Hslot.
      repeat case_decide; first [discriminate | reflexivity | congruence].
Qed.

(** X11.  A whole exchange on a channel that is new to the store, on a day
    without statistics yet, run alone: the request posted is answered 200,
    the reader of requests gets it at once, followed by the padding, the
    reply posted is answered 200 and the reader of replies gets it at
    once.  No call waits, each takes one transaction number, and in the
    end both slots are without message, their interlocks free, and the
    record of the day counts one request and one reply with the bytes of
    each. *)
Theorem exchange
    (cfg : Config) (fuel : nat) (channel request reply : string) (w : World) :
  let sk := stat_key (clock w) in
  others w = [] ->
  redis_db w !! slot_key channel REQUEST = None ->
  redis_db w !! slot_key channel REPLY = None ->
  redis_db w !! sk = None ->
  request <> "" -> reply <> "" ->
  Z.of_nat (String.length request) < 2 ^ 63 ->
  Z.of_nat (String.length reply) < 2 ^ 63 ->
  exists w1 w2 w3 w4,
    queue_request (request_on channel "application/json" request) w
    = (Returns ok_empty, w1)
    /\ dequeue_request cfg fuel (get_on channel) w1
       = (Returns (message_response request), w2)
    /\ queue_reply (request_on channel "text/plain" reply) w2
       = (Returns ok_empty, w3)
    /\ dequeue_reply cfg fuel (get_on channel) w3
       = (Returns (message_response reply), w4)
    /\ clock w4 = clock w
    /\ transaction_id w4 = transaction_id w + 4
    /\ (forall operation,
          is_direction operation ->
          redis.hget (redis_db w4) (slot_key channel operation) MESSAGE = None
          /\ redis.hget (redis_db w4) (slot_key channel operation) DEQUEUE_BUSY
             = Some DEQUEUE_IDLE_STATUS)
    /\ stat_value (redis_db w4) sk "count:request" = Some 1
    /\ stat_value (redis_db w4) sk "request"
       = Some (Z.of_nat (String.length request))
    /\ stat_value (redis_db w4) sk "count:reply" = Some 1
    /\ stat_value (redis_db w4) sk "reply"
       = Some (Z.of_nat (String.length reply)).
Proof.
  intros sk Hq Hrequest Hreply Hstat Hne Hne' Hlen Hlen'.
  set (now := clock w). set (db := redis_db w).
  set (dba := posted_store db now REQUEST channel request 0 0).
  set (dbb := taken_store cfg dba now (slot_key channel REQUEST)).
  set (dbc := posted_store dbb now REPLY channel reply 0 0).
  set (dbd := taken_store cfg dbc now (slot_key channel REPLY)).
  assert (is_direction REQUEST) as Hdq by (by left).
  assert (is_direction REPLY) as Hdp by (by right).
  assert (slot_key channel REPLY <> slot_key channel REQUEST) as Hkeys.
  { intros H. by apply slot_key_inj in H as [_ H]. }
  assert (forall z, 0 <= z < 2 ^ 63 -> in_int64 (0 + z)) as Hint.
  { intros z Hz. unfold in_int64. lia. }
  assert (in_int64 (0 + 1)) as Hone by (unfold in_int64; lia).
  (* the request *)
  destruct (post_then_get cfg fuel (transaction_id w) (transaction_id w + 1)
              REQUEST channel request (next_transaction w) 0 0)
    as [Hpost Hget].
  { exact Hdq. }
  { exact Hq. }
  { exact Hrequest. }
  { exact Hne. }
  { apply stat_value_absent, Hstat. }
  { exact Hone. }
  { apply stat_value_absent, Hstat. }
  { apply Hint. lia. }
  change (redis_db (next_transaction w)) with db in Hpost, Hget.
  change (clock (next_transaction w)) with now in Hpost, Hget.
  fold dba in Hpost, Hget. fold dbb in Hget.
  set (w1 := with_db (next_transaction w) dba) in *.
  set (w2 := with_db (next_transaction w1) dbb) in *.
  (* the reply *)
  assert (dbb !! slot_key channel REPLY = None) as Hreply'.
  { unfold dbb, dba. rewrite taken_store_other by exact Hkeys.
    rewrite lookup_posted_store_other; [exact Hreply|exact Hkeys|].
    apply not_eq_sym. by apply stat_key_not_slot. }
  assert (forall field,
             stat_value dbb sk field
             = if decide (field = REQUEST)
               then Some (0 + Z.of_nat (String.length request))
               else if decide (field = COUNT ++ ":" ++ REQUEST)
                    then Some (0 + 1)
                    else Some 0) as Hcounts.
  { intros field. unfold dbb, dba, sk. fold now.
    rewrite taken_counters; [|done|done|apply Hint; lia].
    repeat case_decide; try done. by apply stat_value_absent. }
  destruct (post_then_get cfg fuel (transaction_id w2) (transaction_id w2 + 1)
              REPLY channel reply (next_transaction w2) 0 0)
    as [Hpost' Hget'].
  { exact Hdp. }
  { exact Hq. }
  { exact Hreply'. }
  { exact Hne'. }
  { change (stat_value dbb sk (COUNT ++ ":" ++ REPLY) = Some 0).
    rewrite Hcounts.
    repeat case_decide; first [discriminate | reflexivity | congruence]. }
  { exact Hone. }
  { change (stat_value dbb sk REPLY = Some 0).
    rewrite Hcounts.
    repeat case_decide; first [discriminate | reflexivity | congruence]. }
  { apply Hint. lia. }
  change (redis_db (next_transaction w2)) with dbb in Hpost', Hget'.
  change (clock (next_transaction w2)) with now in Hpost', Hget'.
  fold dbc in Hpost', Hget'. fold dbd in Hget'.
  set (w3 := with_db (next_transaction w2) dbc) in *.
  set (w4 := with_db (next_transaction w3) dbd) in *.
  exists w1, w2, w3, w4.
  split; [|split; [|split; [|split; [|split; [|split; [|split]]]]]].
  - rewrite (queue_request_run _ channel); [|split; [done|by eexists]|done].
    cbv zeta. rewrite hget_absent by done. cbn [truthy].
    change (with_db (next_transaction w) (redis_db w))
      with (next_transaction w).
    cbn [get_data request_on]. by rewrite Hpost.
  - unfold dequeue_request.
    rewrite (dequeue_handler_run _ _ _ _ channel) by done.
    change (args_has (args (get_on channel)) "reset") with false.
    change (transaction_id w1) with (transaction_id w + 1).
    by rewrite Hget.
  - rewrite (queue_reply_run _ channel); [|split; [done|by eexists]].
    cbn [get_data request_on]. by rewrite Hpost'.
  - unfold dequeue_reply.
    rewrite (dequeue_handler_run _ _ _ _ channel) by done.
    change (args_has (args (get_on channel)) "reset") with false.
    change (transaction_id w3) with (transaction_id w2 + 1).
    by rewrite Hget'.
  - done.
  - simpl. lia.
  - intros operation [-> | ->]; change (redis_db w4) with dbd.
    + rewrite !(hget_same dbb dbd).
      * apply taken_slot.
      * unfold dbd, dbc. rewrite taken_store_other by (apply not_eq_sym, Hkeys).
        apply lookup_posted_store_other; [apply not_eq_sym, Hkeys|].
        apply not_eq_sym. by apply stat_key_not_slot.
      * unfold dbd, dbc. rewrite taken_store_other by (apply not_eq_sym, Hkeys).
        apply lookup_posted_store_other; [apply not_eq_sym, Hkeys|].
        apply not_eq_sym. by apply stat_key_not_slot.
    + apply taken_slot.
  - change (redis_db w4) with dbd. unfold dbd, dbc, sk. fold now.
    assert (in_int64 (0 + Z.of_nat (String.length reply))) as Hb
      by (apply Hint; lia).
    rewrite !taken_counters by done.
    fold sk. rewrite !Hcounts.
    repeat split; repeat case_decide; try done; f_equal; lia.
Qed.

Lemma exchange_witness :
  exists w1 w2 w3 w4,
    queue_request (request_on "c1" "application/json" "{}") (world_of ∅)
    = (Returns ok_empty, w1)
    /\ dequeue_request default_config 0 (get_on "c1") w1
       = (Returns (message_response "{}"), w2)
    /\ queue_reply (request_on "c1" "text/plain" "done") w2
       = (Returns ok_empty, w3)
    /\ dequeue_reply default_config 0 (get_on "c1") w3
       = (Returns (message_response "done"), w4)
    /\ clock w4 = clock (world_of ∅)
    /\ transaction_id w4 = transaction_id (world_of ∅) + 4
    /\ (forall operation,
          is_direction operation ->
          redis.hget (redis_db w4) (slot_key "c1" operation) MESSAGE = None
          /\ redis.hget (redis_db w4) (slot_key "c1" operation) DEQUEUE_BUSY
             = Some DEQUEUE_IDLE_STATUS)
    /\ stat_value (redis_db w4) (stat_key 0) "count:request" = Some 1
    /\ stat_value (redis_db w4) (stat_key 0) "request" = Some 2
    /\ stat_value (redis_db w4) (stat_key 0) "count:reply" = Some 1
    /\ stat_value (redis_db w4) (stat_key 0) "reply" = Some 4.
Proof.
  apply (exchange default_config 0 "c1" "{}" "done" (world_of ∅)).
  - reflexivity.
  - reflexivity.
  - reflexivity.
  - reflexivity.
  - discriminate.
  - discriminate.
  - reflexivity.
  - reflexivity.
Defined.

(** ** The keys of the store *)

(** X12.  The keys of the store never collide: two slots have the same key
    only if they are the same direction of the same channel, whatever
    bytes the channels are made of, colons included, and no slot has the
    key under which [_update_stats] counts a day. *)
Theorem slots_never_collide
    (channel channel' operation operation' : string) (now : Q) :
  is_direction operation -> is_direction operation' ->
  (slot_key channel operation = slot_key channel' operation'
   <-> channel = channel' /\ operation = operation')
  /\ slot_key channel operation <> stat_key now
  /\ redis.glob (STATISTIC ++ ":*") (stat_key now) = true
  /\ redis.glob ("*:" ++ operation) (stat_key now) = false.
Proof.
  intros Hop Hop'. split; [|split; [|split]].
  - split; [by apply slot_key_inj | by intros [-> ->]].
  - intros H. symmetry in H. revert H. by apply stat_key_not_slot.
  - apply glob_stat. by eexists.
  - destruct (redis.glob ("*:" ++ operation) (stat_key now)) eqn:E; [|done].
    apply glob_slots in E as [c E]; [|by destruct Hop as [-> | ->]].
    by apply stat_key_not_slot in E.
Qed.

Lemma slots_never_collide_witness :
  (slot_key "a:b" REQUEST = slot_key "a" REPLY
   <-> "a:b" = "a" /\ REQUEST = REPLY)
  /\ slot_key "a:b" REQUEST <> stat_key 0
  /\ redis.glob (STATISTIC ++ ":*") (stat_key 0) = true
  /\ redis.glob ("*:" ++ REQUEST) (stat_key 0) = false.
Proof.
  apply (slots_never_collide "a:b" "a" REQUEST REPLY 0).
  - by left.
  - by right.
Defined.

(** ** Counters that only grow *)

Lemma counts_grow_refl (w : World) : counts_grow w w.
Proof.
  intros Hq. split; [done|]. intros now field z Hz. exists z.
  split; [done|lia].
Qed.

Lemma counts_grow_trans (w1 w2 w3 : World) :
  counts_grow w1 w2 -> counts_grow w2 w3 -> counts_grow w1 w3.
Proof.
  intros H12 H23 Hq. destruct (H12 Hq) as [Hq2 H2].
  destruct (H23 Hq2) as [Hq3 H3]. split; [done|].
  intros now field z Hz. destruct (H2 _ _ _ Hz) as (z2 & Hz2 & Hle).
  destruct (H3 _ _ _ Hz2) as (z3 & Hz3 & Hle'). exists z3. split; [done|lia].
Qed.

Lemma counts_grow_query (w : World) :
  counts_grow w (after_command w (first_seen w)).
Proof.
  intros Hq. rewrite after_command_alone by done. by apply counts_grow_refl.
Qed.

(** A write under the key of a slot changes no counter. *)
Lemma counts_grow_command {A} (f : Redis -> Q -> A * Redis) (key : string)
    (w : World) :
  is_slot_key key -> writes_only key f ->
  counts_grow w (after_command w (f (first_seen w) (clock w)).2).
Proof.
  intros (channel & operation & Hop & ->) Hf Hq.
  split; [simpl; by rewrite Hq|].
  intros now field z Hz. exists z. split; [|lia].
  rewrite <- Hz. apply stat_value_same. unfold first_seen. rewrite Hq. simpl.
  apply Hf. by apply stat_key_not_slot.
Qed.

(** [HINCRBY] by a number that is not negative lets no counter go down. *)
Lemma counts_grow_hincrby (key field : string) (n : Z) :
  0 <= n -> steps counts_grow (redis_hincrby key field n).
Proof.
  intros Hn w r w' Hrun Hq. revert Hrun.
  rewrite run_hincrby by done.
  destruct (hincrby_cases (redis_db w) key field n)
    as [(z0 & Hz0 & Hint & ->)| ->]; cbn [fst snd].
  - intros [= <- <-]. split; [done|]. intros now field' z Hz. wsimpl.
    destruct (decide (key = stat_key now)) as [->|Hkey].
    + destruct (decide (field = field')) as [<-|Hfield].
      * rewrite stat_value_counter_store by done. exists (z0 + n).
        split; [done|]. assert (z = z0) by congruence. lia.
      * rewrite stat_value_counter_store_ne by done. exists z.
        split; [done|lia].
    + exists z. split; [|lia]. rewrite <- Hz.
      apply stat_value_same. by apply lookup_counter_store_other.
  - intros [= <- <-]. rewrite with_db_same. by apply counts_grow_refl.
Qed.

Lemma counts_grow_update_stats (operation msg : string) :
  steps counts_grow (_update_stats operation msg).
Proof.
  apply (steps_bind counts_grow counts_grow_trans).
  { apply (steps_time_now counts_grow counts_grow_refl). }
  intros now. apply (steps_bind counts_grow counts_grow_trans).
  { apply counts_grow_hincrby. lia. }
  intros _. apply (steps_bind counts_grow counts_grow_trans).
  { apply counts_grow_hincrby. lia. }
  intros _. apply (steps_ret counts_grow counts_grow_refl).
Qed.

(** X13.  Run alone, no call lets a counter of the statistics go down,
    however it ends: a counter that held a number before a post, of
    whatever day and field, holds a number that is not less after it, also
    when the post is turned down or fails half way; and a dequeue leaves
    every counter as it was. *)
Theorem counters_never_decrease
    (cfg : Config) (fuel : nat) (operation : string) (request : Request)
    (w : World) (now : Q) (field : string) (z : Z) :
  others w = [] ->
  stat_value (redis_db w) (stat_key now) field = Some z ->
  (exists z',
      stat_value (redis_db (queue_request request w).2) (stat_key now) field
      = Some z' /\ z <= z')
  /\ (exists z',
        stat_value (redis_db (queue_reply request w).2) (stat_key now) field
        = Some z' /\ z <= z')
  /\ (is_direction operation ->
      stat_value (redis_db (dequeue_handler operation cfg fuel request w).2)
                 (stat_key now) field
      = Some z).
Proof.
  intros Hq Hz.
  assert (forall channel operation,
             is_direction operation -> is_slot_key (slot_key channel operation))
    as Hslot.
  { intros channel o Ho. by exists channel, o. }
  split; [|split].
  - destruct (queue_request request w) as [r w'] eqn:E.
    refine (proj2 (steps_queue_request counts_grow is_slot_key
                     counts_grow_refl counts_grow_trans counts_grow_query
                     (@counts_grow_command) request w r w' _
                     (counts_grow_update_stats REQUEST) E Hq) now field z Hz).
    intros channel _. split; apply Hslot; [by left | by right].
  - destruct (queue_reply request w) as [r w'] eqn:E.
    refine (proj2 (steps_queue_reply counts_grow is_slot_key
                     counts_grow_refl counts_grow_trans counts_grow_query
                     (@counts_grow_command) request w r w' _
                     (counts_grow_update_stats REPLY) E Hq) now field z Hz).
    intros channel _. apply Hslot. by right.
  - intros Hop. rewrite <- Hz. apply stat_value_same.
    set (touched := fun k => is_slot_key k).
    destruct (dequeue_handler operation cfg fuel request w) as [r w'] eqn:E.
    refine (proj2 (steps_dequeue_handler (untouched touched) touched
                     (untouched_refl touched) (untouched_trans touched)
                     (untouched_query touched) (@untouched_command touched)
                     (untouched_sleep touched)
                     operation cfg fuel request w r w' _ E Hq)
              (stat_key now) _).
    + intros channel _. by apply Hslot.
    + intros (channel & o & Ho & Heq). by apply stat_key_not_slot in Heq.
Qed.

Lemma counters_never_decrease_witness :
  exists z',
    stat_value
      (redis_db (queue_request (request_on "a" "application/json" "{}")
                               three_posts_world).2)
      (stat_key 0) "count:request"
    = Some z' /\ 2 <= z'.
Proof.
  refine (proj1 (counters_never_decrease default_config 0 REQUEST
                   (request_on "a" "application/json" "{}")
                   three_posts_world 0 "count:request" 2 _ _)).
  - reflexivity.
  - vm_compute. reflexivity.
Defined.
